(** * MJPEG/AVI builder (js/mjpegaudio.js): structured writer and container assembler

    A shallow embedding of [MJPEGBuilder]: the recursive writer
    [appendStruct], the accumulator ([setup], [addFrame], [addAudio]) and
    the assembler [finish], followed by the properties of the container
    they produce. *)

From Stdlib Require Import List String Ascii ZArith QArith Qround Lia Bool.
From Stdlib Require Qcanon.
From Stdlib.Strings Require Import Byte.
Import ListNotations.

Local Open Scope string_scope.
Local Open Scope Z_scope.
Local Open Scope list_scope.

Set Warnings "-register-all".

(** ** Numbers

    A JavaScript number is a double, kept as the rational it is, or
    [NonFinite] for [Infinity], [-Infinity] and [NaN]: the builder only
    ever multiplies, divides, floors or serializes a non-finite value,
    and those treat the three alike.  A product or a quotient is the
    exact one rounded to the nearest double, to the even one of two that
    are equally near ([round_double]); the sign of a zero is not kept,
    no operation of the builder telling [-0] from [0]. *)

Inductive number : Type :=
| Finite (q : Q)
| NonFinite.

Definition ofZ (z : Z) : number := Finite (inject_Z z).

(** The integer nearest to [a / b], for [b > 0]; of two that are equally
    near, the even one. *)
Definition nearest_even (a b : Z) : Z :=
  let d := a / b in
  let r := a mod b in
  if 2 * r <? b then d
  else if b <? 2 * r then d + 1
  else if Z.even d then d else d + 1.

(** The binary exponent of [a / b], for [a, b > 0]: the [k] with
    [2^k <= a / b < 2^(k+1)]. *)
Definition exponent (a b : Z) : Z :=
  let k := Z.log2 a - Z.log2 b in
  if (if 0 <=? k then a <? b * 2 ^ k else a * 2 ^ (- k) <? b) then k - 1 else k.

(** [a / b], for [a, b > 0], as a double: rounded to 53 significant
    bits, or to a multiple of 2^-1074 below 2^-1022; [None] is the
    overflow to [Infinity], from 2^1024 on. *)
Definition round_pos (a b : Z) : option Q :=
  let e := Z.max (exponent a b - 52) (- 1074) in
  let v := if 0 <=? e then inject_Z (nearest_even a (b * 2 ^ e) * 2 ^ e)
           else Qmake (nearest_even (a * 2 ^ (- e)) b) (Z.to_pos (2 ^ (- e))) in
  if Qle_bool (inject_Z (2 ^ 1024)) v then None else Some (Qred v).

Definition round_double (q : Q) : number :=
  match Qnum q with
  | 0 => Finite 0
  | Zpos a => match round_pos (Zpos a) (Zpos (Qden q)) with
              | Some r => Finite r
              | None => NonFinite
              end
  | Zneg a => match round_pos (Zpos a) (Zpos (Qden q)) with
              | Some r => Finite (- r)
              | None => NonFinite
              end
  end.

(** [a * b] *)
Definition js_mul (a b : number) : number :=
  match a, b with
  | Finite x, Finite y => round_double (x * y)
  | _, _ => NonFinite
  end.

(** [a / b], for a finite divisor: the builder divides by the frame
    rate only. *)
Definition js_div (a : number) (b : Q) : number :=
  match a with
  | Finite x => if Qeq_bool b 0 then NonFinite else round_double (x / b)
  | NonFinite => NonFinite
  end.

(** [Math.floor]. *)
Definition Math_floor (n : number) : number :=
  match n with
  | Finite q => ofZ (Qfloor q)
  | NonFinite => NonFinite
  end.

(** Integer part, rounding toward zero. *)
Definition truncate (q : Q) : Z := Z.quot (Qnum q) (Zpos (Qden q)).

(** Wrap-around into the signed 32-bit range. *)
Definition wrap32 (z : Z) : Z :=
  let k := z mod 2 ^ 32 in
  if 2 ^ 31 <=? k then k - 2 ^ 32 else k.

(** [ToInt32], applied by [&] and [>>] to their left operand. *)
Definition ToInt32 (n : number) : Z :=
  match n with
  | Finite q => wrap32 (truncate q)
  | NonFinite => 0
  end.

(** [ToUint8], applied by a store into a [Uint8Array]. *)
Definition ToUint8 (n : number) : Z :=
  match n with
  | Finite q => truncate q mod 256
  | NonFinite => 0
  end.

(** ** Bytes, blobs and values *)

Definition byte_of_Z (z : Z) : byte :=
  match Byte.of_N (Z.to_N (z mod 256)) with
  | Some b => b
  | None => x00
  end.

Definition Z_of_byte (b : byte) : Z := Z.of_N (Byte.to_N b).

Record Blob : Type := mkBlob {
  blob_bytes : list byte;
  blob_type : string
}.

(** [blob.size] *)
Definition size (b : Blob) : Z := Z.of_nat (List.length (blob_bytes b)).

(** What an object literal inherits: the properties of
    [Object.prototype], which are [Object] itself (as [constructor]) and
    ten functions, and the prototype object, which [__proto__] reads. *)
Inductive builtin : Type :=
| Object_
| defineGetter
| defineSetter
| hasOwnProperty
| lookupGetter
| lookupSetter
| isPrototypeOf
| propertyIsEnumerable
| toString
| valueOf
| toLocaleString
| Object_prototype.

(** [f.length]: the number of parameters of a function; the prototype
    object has no such property. *)
Definition builtin_length (f : builtin) : option Z :=
  match f with
  | Object_ | hasOwnProperty | lookupGetter | lookupSetter | isPrototypeOf
  | propertyIsEnumerable => Some 1
  | defineGetter | defineSetter => Some 2
  | toString | valueOf | toLocaleString => Some 0
  | Object_prototype => None
  end.

(** [f(bb)], called as a function, so without a [this]: [Object] returns
    its argument and [toString] a string; the other functions first turn
    [this] into an object, which raises a [TypeError], as does calling
    what is no function. *)
Definition builtin_returns (f : builtin) : bool :=
  match f with
  | Object_ | toString => true
  | _ => false
  end.

(** The values a descriptor field, or an element of the sink, can hold.
    [VFun blob] is the closure [function(bb) { bb.push(blob); }], the only
    function the builder makes.  [VObj order fields] is an object literal
    as the [create*] functions make them: its [_order] property (absent,
    or an array of strings) and its other own properties in insertion
    order, none of them named [_order], [length], [valueOf] or
    [toString]. *)
Inductive value : Type :=
| VUndefined
| VNull
| VNum (n : number)
| VStr (s : string)
| VBuf (b : list byte)
| VBlob (b : Blob)
| VFun (blob : Blob)
| VNative (f : builtin)
| VArr (l : list value)
| VObj (order : option (list string)) (fields : list (string * value)).

(** The array [bb] the writer pushes to. *)
Definition sink : Type := list value.

Inductive exn : Type :=
| MissingOrder                       (* throw "Structured data must have '_order'" *)
| UnknownDataType (fieldName : string) (* throw "Unknown data type: "+fieldName *)
| TypeError                          (* raised by the host *)
| InvalidCharacterError.             (* raised by atob *)

(** Normal completion or an exception.  What was pushed or assigned
    before an exception is not kept: nothing in the builder catches one. *)
Inductive result (A : Type) : Type :=
| Ok (a : A)
| Throw (e : exn).
Arguments Ok {A} a.
Arguments Throw {A} e.

Definition bind {A B : Type} (r : result A) (k : A -> result B) : result B :=
  match r with
  | Ok a => k a
  | Throw e => Throw e
  end.

Notation "x <- r ;; k" := (bind r (fun x => k))
  (at level 61, r at next level, right associativity).

(** [s[name]] where [name] is no own property of [s]: a property of
    [Object.prototype], or [undefined]. *)
Definition inherited (name : string) : value :=
  if String.eqb name "constructor" then VNative Object_
  else if String.eqb name "__defineGetter__" then VNative defineGetter
  else if String.eqb name "__defineSetter__" then VNative defineSetter
  else if String.eqb name "hasOwnProperty" then VNative hasOwnProperty
  else if String.eqb name "__lookupGetter__" then VNative lookupGetter
  else if String.eqb name "__lookupSetter__" then VNative lookupSetter
  else if String.eqb name "isPrototypeOf" then VNative isPrototypeOf
  else if String.eqb name "propertyIsEnumerable" then VNative propertyIsEnumerable
  else if String.eqb name "toString" then VNative toString
  else if String.eqb name "valueOf" then VNative valueOf
  else if String.eqb name "toLocaleString" then VNative toLocaleString
  else if String.eqb name "__proto__" then VNative Object_prototype
  else VUndefined.

(** [s[name]] where [name] is none of the properties listed in [fields]:
    the field-order list itself for [_order], else what is inherited. *)
Definition not_own (order : option (list string)) (name : string) : value :=
  if String.eqb name "_order" then
    match order with
    | Some od => VArr (map VStr od)
    | None => VUndefined
    end
  else inherited name.

(** [s[name]] on the object literal with the field-order list [order]
    and the other own properties [fields]. *)
Fixpoint get_field (order : option (list string)) (fields : list (string * value))
  (name : string) : value :=
  match fields with
  | [] => not_own order name
  | (k, v) :: rest => if String.eqb k name then v else get_field order rest name
  end.

(** [s.name = v] for a name other than [_order], which is kept apart
    from [fields], and [__proto__], which is no property of [s] but sets
    its prototype: the own property is overwritten, or added last.  The
    builder assigns to neither of the two. *)
Fixpoint set_field (fields : list (string * value)) (name : string) (v : value)
  : list (string * value) :=
  match fields with
  | [] => [(name, v)]
  | (k, x) :: rest =>
      if String.eqb k name then (k, v) :: rest
      else (k, x) :: set_field rest name v
  end.

(** ** Host string functions used by [addFrame] *)

(** [u.slice(n)] for a non-negative [n]. *)
Fixpoint slice (n : nat) (u : string) : string :=
  match n, u with
  | O, _ => u
  | S _, EmptyString => EmptyString
  | S k, String _ rest => slice k rest
  end.

(** [frame.charCodeAt(i)]: [NaN] past the end. *)
Definition charCodeAt (frame : string) (i : nat) : number :=
  match String.get i frame with
  | Some c => ofZ (Z.of_N (N_of_ascii c))
  | None => NonFinite
  end.

(** [atob]: the forgiving base64 decoding of the HTML standard.  White
    space is dropped, one or two closing [=] are dropped when the length
    is a multiple of four, and a length of 1 modulo 4 or a character out
    of the alphabet raises [InvalidCharacterError]. *)

Definition is_ascii_whitespace (c : ascii) : bool :=
  let n := Z.of_N (N_of_ascii c) in
  (n =? 9) || (n =? 10) || (n =? 12) || (n =? 13) || (n =? 32).

Definition base64_digit (c : ascii) : option Z :=
  let n := Z.of_N (N_of_ascii c) in
  if (65 <=? n) && (n <=? 90) then Some (n - 65)
  else if (97 <=? n) && (n <=? 122) then Some (n - 71)
  else if (48 <=? n) && (n <=? 57) then Some (n + 4)
  else if n =? 43 then Some 62
  else if n =? 47 then Some 63
  else None.

Fixpoint base64_digits (l : list ascii) : option (list Z) :=
  match l with
  | [] => Some []
  | c :: rest =>
      match base64_digit c, base64_digits rest with
      | Some d, Some ds => Some (d :: ds)
      | _, _ => None
      end
  end.

Definition strip_padding (l : list ascii) : list ascii :=
  if (Nat.modulo (List.length l) 4 =? 0)%nat then
    match rev l with
    | "="%char :: "="%char :: r => rev r
    | "="%char :: r => rev r
    | _ => l
    end
  else l.

Fixpoint decode_sextets (l : list Z) : list ascii :=
  match l with
  | a :: b :: c :: d :: rest =>
      let n := ((a * 64 + b) * 64 + c) * 64 + d in
      ascii_of_N (Z.to_N (n / 65536))
        :: ascii_of_N (Z.to_N ((n / 256) mod 256))
        :: ascii_of_N (Z.to_N (n mod 256))
        :: decode_sextets rest
  | [a; b; c] =>
      let n := (a * 64 + b) * 64 + c in
      [ascii_of_N (Z.to_N (n / 1024)); ascii_of_N (Z.to_N ((n / 4) mod 256))]
  | [a; b] => [ascii_of_N (Z.to_N ((a * 64 + b) / 16))]
  | _ => []
  end.

Definition atob (data : string) : result string :=
  let l := filter (fun c => negb (is_ascii_whitespace c)) (list_ascii_of_string data) in
  let l := strip_padding l in
  if (Nat.modulo (List.length l) 4 =? 1)%nat then Throw InvalidCharacterError
  else match base64_digits l with
       | Some ds => Ok (string_of_list_ascii (decode_sextets ds))
       | None => Throw InvalidCharacterError
       end.

(** ** A host for the examples

    The conversions the writer leaves to the host are never reached on
    the builder's own descriptors; these are the ones of a string that is
    no numeral and of a plain object. *)

Definition host_StringToNumber (s : string) : number := NonFinite.

Definition host_ToString (v : value) : string := "[object Object]".

(** ** The structured writer *)

Section Host.

(** The host's conversions that the builder never reaches on its own
    descriptors: a string read as a number, and a value other than a
    string printed as one. *)
Variable StringToNumber : string -> number.
Variable ToString : value -> string.

Definition ToNumber (v : value) : number :=
  match v with
  | VUndefined => NonFinite
  | VNull => ofZ 0
  | VNum n => n
  | VStr s => StringToNumber s
  | other => StringToNumber (ToString other)
  end.

(** The [ArrayBuffer]s of the scalar cases. *)
Definition BYTE (val : value) : list byte :=
  [byte_of_Z (ToUint8 (ToNumber val))].

Definition DWORD (val : value) : list byte :=
  let v := ToInt32 (ToNumber val) in
  [byte_of_Z (Z.land v 255);
   byte_of_Z (Z.land (Z.shiftr v 8) 255);
   byte_of_Z (Z.land (Z.shiftr v 16) 255);
   byte_of_Z (Z.land (Z.shiftr v 24) 255)].

Definition WORD (val : value) : list byte :=
  let v := ToInt32 (ToNumber val) in
  [byte_of_Z (Z.land v 255);
   byte_of_Z (Z.land (Z.shiftr v 8) 255)].

Definition WORD_BE (val : value) : list byte :=
  let v := ToInt32 (ToNumber val) in
  [byte_of_Z (Z.land (Z.shiftr v 8) 255);
   byte_of_Z (Z.land v 255)].

(** [for (j = 0; j < dlen; j++) appendStruct(bb, val[j], nest+1)] *)
Definition appendArray (rec : sink -> value -> result sink)
  : sink -> list value -> result sink :=
  fix go (bb : sink) (l : list value) {struct l} : result sink :=
    match l with
    | [] => Ok bb
    | x :: rest => bb' <- rec bb x ;; go bb' rest
    end.

(** The body of the [switch (fieldName.charAt(0))]; [rec] is the writer
    itself. *)
Definition appendField (rec : sink -> value -> result sink)
  (bb : sink) (fieldName : string) (val : value) : result sink :=
  match fieldName with
  | String "b" _ => Ok (bb ++ [VBuf (BYTE val)])
  | String "c" _ => Ok (bb ++ [val])
  | String "d" _ => Ok (bb ++ [VBuf (DWORD val)])
  | String "w" _ => Ok (bb ++ [VBuf (WORD val)])
  | String "W" _ => Ok (bb ++ [VBuf (WORD_BE val)])
  | String "a" _ =>
      match val with
      | VArr l => appendArray rec bb l
      | VUndefined | VNull => Throw TypeError      (* val.length *)
      | VStr EmptyString => Ok bb
      | VStr _ => Throw MissingOrder               (* a character has no _order *)
      | VFun _ => Throw TypeError                  (* length 1, val[0] undefined *)
      | VNative f =>
          match builtin_length f with
          | Some 0 | None => Ok bb
          | Some _ => Throw TypeError              (* val[0] undefined *)
          end
      | VNum _ | VBuf _ | VBlob _ | VObj _ _ => Ok bb   (* val.length undefined *)
      end
  | String "r" _ => Ok (bb ++ [val])
  | String "s" _ => rec bb val
  | String "h" _ =>
      match val with
      | VFun blob => Ok (bb ++ [VBlob blob])
      | VNative f => if builtin_returns f then Ok bb else Throw TypeError
      | _ => Throw TypeError                       (* val is not a function *)
      end
  | _ => Throw (UnknownDataType fieldName)
  end.

(** The writer on a value that holds no field-order list: [s._order] on
    [undefined] or [null] raises the [TypeError], and is [undefined] on
    any other such value. *)
Definition appendNoRecord (bb : sink) (s : value) : result sink :=
  match s with
  | VUndefined | VNull => Throw TypeError
  | _ => Throw MissingOrder
  end.

(** [MJPEGBuilder.appendStruct]: for each name of [s._order] in turn,
    [field] reads [s[fieldName]], as [get_field] does, and runs the
    [switch] on it.  What is read of a property that is not the object's
    own holds no record, so that the writer, called again on it, is
    [appendNoRecord]. *)
Fixpoint appendStruct (bb : sink) (s : value) {struct s} : result sink :=
  match s with
  | VUndefined | VNull => Throw TypeError          (* s._order *)
  | VObj (Some od) fields =>
      (fix loop (rest : list string) (bb : sink) {struct rest} : result sink :=
         match rest with
         | [] => Ok bb
         | fieldName :: rest' =>
             bb' <- (fix field (fs : list (string * value)) : result sink :=
                       match fs with
                       | [] => appendField appendNoRecord
                                 bb fieldName (not_own (Some od) fieldName)
                       | (k, v) :: fs' =>
                           if String.eqb k fieldName
                           then appendField appendStruct bb fieldName v
                           else field fs'
                       end) fields ;;
             loop rest' bb'
         end) od bb
  | _ => Throw MissingOrder
  end.

(** ** Blobs

    [new Blob(parts, {type: t})]: strings are stored in UTF-8, buffers
    and blobs as they are, anything else as its string. *)

Definition utf8_char (c : ascii) : list byte :=
  let n := Z.of_N (N_of_ascii c) in
  if n <? 128 then [byte_of_Z n]
  else [byte_of_Z (192 + n / 64); byte_of_Z (128 + n mod 64)].

Fixpoint utf8 (s : string) : list byte :=
  match s with
  | EmptyString => []
  | String c rest => utf8_char c ++ utf8 rest
  end.

Definition part_bytes (part : value) : list byte :=
  match part with
  | VStr s => utf8 s
  | VBuf b => b
  | VBlob b => blob_bytes b
  | other => utf8 (ToString other)
  end.

Definition new_Blob (parts : list value) (type : string) : Blob :=
  mkBlob (flat_map part_bytes parts) type.

(** ** The builder's descriptors *)

Definition AVIF_HASINDEX : Z := 16.
Definition AVIIF_KEYFRAME : Z := 16.
Definition RateBase : Z := 1000000.

(** An object literal: its [_order] and its other properties. *)
Definition object : Type := (option (list string) * list (string * value))%type.

Definition obj (o : object) : value := VObj (fst o) (snd o).

(** [o.name] and [o.name = v] *)
Definition prop (o : object) (name : string) : value := get_field (fst o) (snd o) name.

Definition assign (o : object) (name : string) (v : value) : object :=
  (fst o, set_field (snd o) name v).

(** A property read back as a number; [finish] does so only for the
    sizes it has set, which are integers. *)
Definition int_prop (o : object) (name : string) : Z :=
  match prop o name with
  | VNum (Finite q) => Qfloor q
  | _ => 0
  end.

Definition int (z : Z) : value := VNum (ofZ z).

Definition createAVIStruct : object :=
  (Some ["chRIFF"; "dwSize"; "chFourCC"; "aData"],
   [("chRIFF", VStr "RIFF"); ("chFourCC", VStr "AVI "); ("dwSize", int 0);
    ("aData", VNull)]).

Definition createAVIMainHeader : object :=
  (Some ["chFourCC"; "dwSize";
         "dwMicroSecPerFrame"; "dwMaxBytesPerSec"; "dwPaddingGranularity"; "dwFlags";
         "dwTotalFrames"; "dwInitialFrames"; "dwStreams"; "dwSuggestedBufferSize";
         "dwWidth"; "dwHeight"; "dwReserved1"; "dwReserved2"; "dwReserved3"; "dwReserved4"],
   [("chFourCC", VStr "avih"); ("dwSize", int 56);
    ("dwMicroSecPerFrame", int 66666); ("dwMaxBytesPerSec", int 1000);
    ("dwPaddingGranularity", int 0); ("dwFlags", int AVIF_HASINDEX);
    ("dwTotalFrames", int 1); ("dwInitialFrames", int 0); ("dwStreams", int 2);
    ("dwSuggestedBufferSize", int 0); ("dwWidth", int 10); ("dwHeight", int 20);
    ("dwReserved1", int 0); ("dwReserved2", int 0); ("dwReserved3", int 0);
    ("dwReserved4", int 0)]).

Definition createHeaderLIST : object :=
  (Some ["chLIST"; "dwSize"; "chFourCC"; "aData"],
   [("chLIST", VStr "LIST"); ("dwSize", int 0); ("chFourCC", VStr "hdrl");
    ("aData", VNull)]).

Definition createMoviLIST : object :=
  (Some ["chLIST"; "dwSize"; "chFourCC"; "aStreams"],
   [("chLIST", VStr "LIST"); ("dwSize", int 0); ("chFourCC", VStr "movi");
    ("aStreams", VNull)]).

Definition createMoviStream : object :=
  (Some ["chType"; "dwSize"; "handler"],
   [("chType", VStr "00dc"); ("dwSize", int 0); ("handler", VNull)]).

Definition createStreamHeaderLIST : object :=
  (Some ["chLIST"; "dwSize"; "chFourCC"; "aList"],
   [("chLIST", VStr "LIST"); ("dwSize", int 0); ("chFourCC", VStr "strl");
    ("aList", VNull)]).

Definition createStreamFormat : object :=
  (Some ["chFourCC"; "dwSize"; "sContent"],
   [("chFourCC", VStr "strf"); ("dwSize", int 0); ("sContent", VNull)]).

Definition createStreamHeader : object :=
  (Some ["chFourCC"; "dwSize"; "chTypeFourCC"; "chHandlerFourCC";
         "dwFlags"; "wPriority"; "wLanguage"; "dwInitialFrames"; "dwScale";
         "dwRate"; "dwStart"; "dwLength"; "dwSuggestedBufferSize";
         "dwQuality"; "dwSampleSize"; "wLeft"; "wTop"; "wRight"; "wBottom"],
   [("chFourCC", VStr "strh"); ("dwSize", int 56); ("chTypeFourCC", VStr "vids");
    ("chHandlerFourCC", VStr "mjpg"); ("dwFlags", int 0); ("wPriority", int 0);
    ("wLanguage", int 0); ("dwInitialFrames", int 0); ("dwScale", int 66666);
    ("dwRate", int RateBase); ("dwStart", int 0); ("dwLength", int 0);
    ("dwSuggestedBufferSize", int 0); ("dwQuality", int 10000);
    ("dwSampleSize", int 0); ("wLeft", int 0); ("wTop", int 0);
    ("wRight", int 0); ("wBottom", int 0)]).

Definition createBitmapHeader : object :=
  (Some ["dwSize"; "dwWidth"; "dwHeight"; "wPlanes"; "wBitcount"; "chCompression";
         "dwSizeImage"; "dwXPelsPerMeter"; "dwYPelsPerMeter"; "dwClrUsed";
         "dwClrImportant"],
   [("dwSize", int 40); ("dwWidth", int 10); ("dwHeight", int 20);
    ("wPlanes", int 1); ("wBitcount", int 24); ("chCompression", VStr "MJPG");
    ("dwSizeImage", int 600); ("dwXPelsPerMeter", int 0);
    ("dwYPelsPerMeter", int 0); ("dwClrUsed", int 0); ("dwClrImportant", int 0)]).

Definition createWavHeader : object :=
  (Some ["wFormatTag"; "wnChannels"; "dwnSamplesPerSec"; "dwnAvgBytesPerSec";
         "wnBlockAlign"; "wBitsPerSample"; "wcbSize"],
   [("wFormatTag", int 1); ("wnChannels", int 0); ("dwnSamplesPerSec", int 0);
    ("dwnAvgBytesPerSec", int 0); ("wnBlockAlign", int 2);
    ("wBitsPerSample", int 16); ("wcbSize", int 0)]).

(** ** The accumulator *)

(** [this.movieDesc]: width and height are integers, numbers of
    pixels; the frame rate is any finite number, 29.97 as well as 10. *)
Record MovieDesc : Type := mkMovieDesc {
  w : Z;
  h : Z;
  fps : Q;
  videoStreamSize : Z;
  maxJPEGSize : Z
}.

(** The three properties [addAudio] assigns together; the number of
    channels and the sample rate are integers. *)
Record AudioTrack : Type := mkAudioTrack {
  audioBlob : Blob;
  audioNumChannels : Z;
  audioSampleRate : Z
}.

(** [this]: the audio properties are absent until [addAudio]. *)
Record MJPEGBuilder : Type := mkMJPEGBuilder {
  movieDesc : MovieDesc;
  avi : object;
  headerLIST : object;
  moviLIST : object;
  frameList : list Blob;
  audio : option AudioTrack
}.

(** [new MJPEGBuilder()] *)
Definition new_MJPEGBuilder : MJPEGBuilder :=
  {| movieDesc := mkMovieDesc 0 0 0 0 0;
     avi := createAVIStruct;
     headerLIST := createHeaderLIST;
     moviLIST := createMoviLIST;
     frameList := [];
     audio := None |}.

Definition setup (frameWidth frameHeight : Z) (fps : Q) (this : MJPEGBuilder)
  : MJPEGBuilder :=
  {| movieDesc := mkMovieDesc frameWidth frameHeight fps
                    (videoStreamSize (movieDesc this)) (maxJPEGSize (movieDesc this));
     avi := avi this;
     headerLIST := headerLIST this;
     moviLIST := moviLIST this;
     frameList := frameList this;
     audio := audio this |}.

(** The [Uint8Array] of [addFrame]: [len] is the decoded length, made
    even; the store past the end of [frame] writes [NaN], that is 0. *)
Definition frame_array (frame : string) : list byte :=
  let len := String.length frame in
  let len := if Nat.eqb (Nat.modulo len 2) 0 then len else S len in
  map (fun i => byte_of_Z (ToUint8 (charCodeAt frame i))) (seq 0 len).

Definition addFrame (u : string) (this : MJPEGBuilder) : result MJPEGBuilder :=
  frame <- atob (slice 23 u) ;;
  let arr := frame_array frame in
  let blob := new_Blob [VBuf arr] "image/jpeg" in
  let bsize := size blob in
  let d := movieDesc this in
  Ok {| movieDesc := mkMovieDesc (w d) (h d) (fps d)
                       (videoStreamSize d + bsize)
                       (if maxJPEGSize d <? bsize then bsize else maxJPEGSize d);
        avi := avi this;
        headerLIST := headerLIST this;
        moviLIST := moviLIST this;
        frameList := frameList this ++ [blob];
        audio := audio this |}.

Definition addAudio (blob : Blob) (numChannels sampleRate : Z) (this : MJPEGBuilder)
  : MJPEGBuilder :=
  {| movieDesc := movieDesc this;
     avi := avi this;
     headerLIST := headerLIST this;
     moviLIST := moviLIST this;
     frameList := frameList this;
     audio := Some (mkAudioTrack blob numChannels sampleRate) |}.

(** ** The assembler *)

(** Both return the list with the stream pushed and [stream.dwSize + 8]. *)
Definition addVideoStreamData (list_ : list value) (blob : Blob) : list value * Z :=
  let stream := createMoviStream in
  let stream := assign stream "dwSize" (int (size blob)) in
  let stream := assign stream "handler" (VFun blob) in
  (list_ ++ [obj stream], size blob + 8).

Definition addAudioStreamData (list_ : list value) (blob : Blob) : list value * Z :=
  let stream := createMoviStream in
  let stream := assign stream "chType" (VStr "01wb") in
  let stream := assign stream "dwSize" (int (size blob)) in
  let stream := assign stream "handler" (VFun blob) in
  (list_ ++ [obj stream], size blob + 8).

Definition IndexEntryOrder : list string := ["chId"; "dwFlags"; "dwOffset"; "dwLength"].

Definition IndexEntry (chId : string) (dwOffset dwLength : Z) : value :=
  VObj (Some IndexEntryOrder)
    [("chId", VStr chId); ("dwFlags", int AVIIF_KEYFRAME);
     ("dwOffset", int dwOffset); ("dwLength", int dwLength)].

(** The variables the two loops of [finish] update. *)
Record Streams : Type := mkStreams {
  aStreams : list value;
  frameIndices : list value;
  frOffset : Z;
  streamSize : Z
}.

(** [for (i = 0; i < frameCount; i++)] over [this.frameList] *)
Fixpoint video_streams (frames : list Blob) (s : Streams) : Streams :=
  match frames with
  | [] => s
  | blob :: rest =>
      let (list_, frsize) := addVideoStreamData (aStreams s) blob in
      video_streams rest
        {| aStreams := list_;
           frameIndices := frameIndices s ++ [IndexEntry "00dc" (frOffset s) (frsize - 8)];
           frOffset := frOffset s + frsize;
           streamSize := streamSize s + frsize |}
  end.

(** [if (this.audioBlob)] *)
Definition audio_stream (a : option AudioTrack) (s : Streams) : Streams :=
  match a with
  | Some t =>
      let (list_, frsize) := addAudioStreamData (aStreams s) (audioBlob t) in
      {| aStreams := list_;
         frameIndices := frameIndices s ++ [IndexEntry "01wb" (frOffset s) (frsize - 8)];
         frOffset := frOffset s;
         streamSize := streamSize s + frsize |}
  | None => s
  end.

Definition all_streams (this : MJPEGBuilder) : Streams :=
  audio_stream (audio this)
    (video_streams (frameList this) (mkStreams [] [] 4 0)).

(** The local variables of [finish], each with the assignments made to it. *)

Definition frameCount (this : MJPEGBuilder) : Z := Z.of_nat (List.length (frameList this)).

Definition frameDu (this : MJPEGBuilder) : number :=
  Math_floor (js_div (ofZ RateBase) (fps (movieDesc this))).

Definition strh (this : MJPEGBuilder) : object :=
  let strh := createStreamHeader in
  let strh := assign strh "wRight" (int (w (movieDesc this))) in
  let strh := assign strh "wBottom" (int (h (movieDesc this))) in
  let strh := assign strh "dwLength" (int (frameCount this)) in
  assign strh "dwScale" (VNum (frameDu this)).

Definition bi (this : MJPEGBuilder) : object :=
  let bi := createBitmapHeader in
  let bi := assign bi "dwWidth" (int (w (movieDesc this))) in
  let bi := assign bi "dwHeight" (int (h (movieDesc this))) in
  assign bi "dwSizeImage"
    (VNum (js_mul (js_mul (ofZ 3) (ofZ (w (movieDesc this)))) (ofZ (h (movieDesc this))))).

Definition strf (this : MJPEGBuilder) : object :=
  let strf := createStreamFormat in
  let strf := assign strf "dwSize" (prop (bi this) "dwSize") in
  assign strf "sContent" (obj (bi this)).

Definition strl (this : MJPEGBuilder) : object :=
  let strl := createStreamHeaderLIST in
  let strl := assign strl "dwSize"
                (int (4 + (int_prop (strh this) "dwSize" + 8)
                        + (int_prop (strf this) "dwSize" + 8))) in
  assign strl "aList" (VArr [obj (strh this); obj (strf this)]).

Definition strh_audio (this : MJPEGBuilder) (t : AudioTrack) : object :=
  let strh_audio := createStreamHeader in
  let strh_audio := assign strh_audio "chTypeFourCC" (VStr "auds") in
  let strh_audio := assign strh_audio "chHandlerFourCC"
                      (VStr (String zero (String zero (String zero (String zero "")))))
  in
  let strh_audio := assign strh_audio "dwScale" (int 1) in
  let strh_audio := assign strh_audio "dwRate"
                      (VNum (js_mul (ofZ (audioNumChannels t))
                               (ofZ (audioSampleRate t)))) in
  let strh_audio := assign strh_audio "dwLength"
                      (VNum (js_div
                               (js_mul (js_mul (ofZ (audioNumChannels t))
                                          (ofZ (audioSampleRate t)))
                                  (ofZ (frameCount this)))
                               (fps (movieDesc this)))) in
  let strh_audio := assign strh_audio "dwSampleSize" (int 2) in
  let strh_audio := assign strh_audio "wRight" (int 0) in
  assign strh_audio "wBottom" (int 0).

Definition wh (t : AudioTrack) : object :=
  let wh := createWavHeader in
  let wh := assign wh "wnChannels" (int (audioNumChannels t)) in
  let wh := assign wh "dwnSamplesPerSec" (int (audioSampleRate t)) in
  assign wh "dwnAvgBytesPerSec"
    (VNum (js_mul (ofZ (audioSampleRate t)) (ofZ (audioNumChannels t)))).

Definition strf_audio (t : AudioTrack) : object :=
  let strf_audio := createStreamFormat in
  let strf_audio := assign strf_audio "dwSize" (int 18) in
  assign strf_audio "sContent" (obj (wh t)).

Definition strl_audio (this : MJPEGBuilder) (t : AudioTrack) : object :=
  let strl_audio := createStreamHeaderLIST in
  let strl_audio := assign strl_audio "dwSize"
                      (int (4 + (int_prop (strh this) "dwSize" + 8)
                              + (int_prop (strf_audio t) "dwSize" + 8))) in
  assign strl_audio "aList" (VArr [obj (strh_audio this t); obj (strf_audio t)]).

Definition avih (this : MJPEGBuilder) : object :=
  let avih := createAVIMainHeader in
  let avih := assign avih "dwMicroSecPerFrame" (VNum (frameDu this)) in
  let avih := assign avih "dwMaxBytesPerSec"
                (VNum (js_mul (ofZ (maxJPEGSize (movieDesc this)))
                         (Finite (fps (movieDesc this))))) in
  let avih := assign avih "dwTotalFrames" (int (frameCount this)) in
  let avih := assign avih "dwWidth" (int (w (movieDesc this))) in
  let avih := assign avih "dwHeight" (int (h (movieDesc this))) in
  assign avih "dwSuggestedBufferSize" (int 0).

Definition hdrlSize (this : MJPEGBuilder) : Z :=
  let hdrlSize := 4 in
  let hdrlSize := hdrlSize + (int_prop (avih this) "dwSize" + 8) in
  let hdrlSize := hdrlSize + (int_prop (strl this) "dwSize" + 8) in
  match audio this with
  | Some t => hdrlSize + (int_prop (strl_audio this t) "dwSize" + 8)
  | None => hdrlSize
  end.

Definition indexChunk (this : MJPEGBuilder) : object :=
  (Some ["chFourCC"; "dwSize"; "aData"],
   [("chFourCC", VStr "idx1");
    ("dwSize", int (Z.of_nat (List.length (frameIndices (all_streams this))) * 16));
    ("aData", VArr (frameIndices (all_streams this)))]).

(** [this.moviLIST], [this.headerLIST] and [this.avi] as [finish] leaves
    them.  [this.avi.aData] refers to the other two, which are not
    assigned to after it is set. *)

Definition finish_moviLIST (this : MJPEGBuilder) : object :=
  let moviLIST := assign (moviLIST this) "aStreams" (VArr (aStreams (all_streams this))) in
  assign moviLIST "dwSize" (int (streamSize (all_streams this) + 4)).

Definition finish_headerLIST (this : MJPEGBuilder) : object :=
  let headerLIST := assign (headerLIST this) "dwSize" (int (hdrlSize this)) in
  assign headerLIST "aData"
    (VArr match audio this with
          | Some t => [obj (avih this); obj (strl this); obj (strl_audio this t)]
          | None => [obj (avih this); obj (strl this)]
          end).

Definition finish_avi (this : MJPEGBuilder) : object :=
  let aviSize := 0 in
  let aviSize := aviSize + (8 + int_prop (finish_headerLIST this) "dwSize") in
  let aviSize := aviSize + (8 + int_prop (finish_moviLIST this) "dwSize") in
  let aviSize := aviSize + (8 + int_prop (indexChunk this) "dwSize") in
  let avi := assign (avi this) "dwSize" (int (aviSize + 4)) in
  assign avi "aData"
    (VArr [obj (finish_headerLIST this); obj (finish_moviLIST this); obj (indexChunk this)]).

(** [finish]: the blob returned, and [this] afterwards. *)
Definition finish (this : MJPEGBuilder) : result (Blob * MJPEGBuilder) :=
  let this' := {| movieDesc := movieDesc this;
                  avi := finish_avi this;
                  headerLIST := finish_headerLIST this;
                  moviLIST := finish_moviLIST this;
                  frameList := frameList this;
                  audio := audio this |} in
  chunks <- appendStruct [] (obj (avi this')) ;;
  Ok (new_Blob chunks "video/avi", this').

(** The states a caller can bring a builder into. *)
Inductive reachable : MJPEGBuilder -> Prop :=
| reach_new : reachable new_MJPEGBuilder
| reach_setup this frameWidth frameHeight fps :
    reachable this -> reachable (setup frameWidth frameHeight fps this)
| reach_addFrame this u this' :
    reachable this -> addFrame u this = Ok this' -> reachable this'
| reach_addAudio this blob numChannels sampleRate :
    reachable this -> reachable (addAudio blob numChannels sampleRate this)
| reach_finish this blob this' :
    reachable this -> finish this = Ok (blob, this') -> reachable this'.

(** The loop of [appendStruct] over [_order], and what a whole call
    leaves in a fresh sink. *)
Fixpoint appendFields (bb : sink) (order : option (list string))
  (fields : list (string * value)) (rest : list string) : result sink :=
  match rest with
  | [] => Ok bb
  | fieldName :: rest' =>
      bb' <- appendField appendStruct bb fieldName (get_field order fields fieldName) ;;
      appendFields bb' order fields rest'
  end.

(** [appended r bb]: the outcome [r] of writing to a fresh sink, moved
    behind [bb]. *)
Definition appended (r : result sink) (bb : sink) : result sink :=
  out <- r ;; Ok (bb ++ out).

(** The bytes a descriptor, or an array of descriptors, is written as. *)
Definition serialized (s : value) : result (list byte) :=
  chunks <- appendStruct [] s ;; Ok (flat_map part_bytes chunks).

Definition serialized_all (l : list value) : result (list byte) :=
  chunks <- appendArray appendStruct [] l ;; Ok (flat_map part_bytes chunks).

(** ** Closed forms of the loops of [finish] *)

(** The stream pushed for one frame, and for the audio track. *)
Definition video_chunk (blob : Blob) : value :=
  obj (assign (assign createMoviStream "dwSize" (int (size blob))) "handler" (VFun blob)).

Definition audio_chunk (blob : Blob) : value :=
  obj (assign (assign (assign createMoviStream "chType" (VStr "01wb"))
                 "dwSize" (int (size blob))) "handler" (VFun blob)).

(** Tag, size and payload of every chunk of a list of blobs. *)
Fixpoint chunks_size (blobs : list Blob) : Z :=
  match blobs with
  | [] => 0
  | blob :: rest => (size blob + 8) + chunks_size rest
  end.

(** The offset of the chunk of frame [i]. *)
Definition chunk_offset (frames : list Blob) (i : nat) : Z :=
  4 + chunks_size (firstn i frames).

Fixpoint video_index (dwOffset : Z) (frames : list Blob) : list value :=
  match frames with
  | [] => []
  | blob :: rest =>
      IndexEntry "00dc" dwOffset (size blob)
        :: video_index (dwOffset + (size blob + 8)) rest
  end.

(** The children of a list node. *)
Definition children (o : object) (name : string) : list value :=
  match prop o name with
  | VArr l => l
  | _ => []
  end.

(** ** Reading the output back *)

Definition u32_at (off : nat) (bytes : list byte) : option Z :=
  match skipn off bytes with
  | b0 :: b1 :: b2 :: b3 :: _ =>
      Some (Z_of_byte b0 + 256 * Z_of_byte b1 + 65536 * Z_of_byte b2
            + 16777216 * Z_of_byte b3)
  | _ => None
  end.

Definition u16_at (off : nat) (bytes : list byte) : option Z :=
  match skipn off bytes with
  | b0 :: b1 :: _ => Some (Z_of_byte b0 + 256 * Z_of_byte b1)
  | _ => None
  end.

(** ** What [finish] writes, in closed form *)

(** What a descriptor leaves in a fresh sink. *)
Definition written (s : value) : sink :=
  match appendStruct [] s with
  | Ok out => out
  | Throw _ => []
  end.

Definition entries (this : MJPEGBuilder) : Z :=
  Z.of_nat (List.length (frameList this)) + match audio this with Some _ => 1 | None => 0 end.

Definition moviSize (this : MJPEGBuilder) : Z :=
  4 + chunks_size (frameList this)
    + match audio this with Some t => size (audioBlob t) + 8 | None => 0 end.

Definition aviSize (this : MJPEGBuilder) : Z :=
  4 + (8 + hdrlSize this) + (8 + moviSize this) + (8 + 16 * entries this).

Definition hdrl_chunks (this : MJPEGBuilder) : sink :=
  [VStr "LIST"; VBuf (DWORD (int (hdrlSize this))); VStr "hdrl"]
    ++ written (obj (avih this)) ++ written (obj (strl this))
    ++ match audio this with
       | Some t => written (obj (strl_audio this t))
       | None => []
       end.

Definition movi_chunks (this : MJPEGBuilder) : sink :=
  [VStr "LIST"; VBuf (DWORD (int (moviSize this))); VStr "movi"]
    ++ flat_map (fun blob => [VStr "00dc"; VBuf (DWORD (int (size blob))); VBlob blob])
         (frameList this)
    ++ match audio this with
       | Some t => [VStr "01wb"; VBuf (DWORD (int (size (audioBlob t)))); VBlob (audioBlob t)]
       | None => []
       end.

Definition idx1_chunks (this : MJPEGBuilder) : sink :=
  [VStr "idx1"; VBuf (DWORD (int (16 * entries this)))]
    ++ flat_map written (frameIndices (all_streams this)).

Definition riff_chunks (this : MJPEGBuilder) : sink :=
  [VStr "RIFF"; VBuf (DWORD (int (aviSize this))); VStr "AVI "]
    ++ hdrl_chunks this ++ movi_chunks this ++ idx1_chunks this.

(** The three descriptors made by the constructor keep their [_order] and
    their tags; [finish] assigns to their size and to their children. *)
Definition shaped (this : MJPEGBuilder) : Prop :=
  (exists d a, avi this = assign (assign createAVIStruct "dwSize" d) "aData" a)
  /\ (exists d a, headerLIST this = assign (assign createHeaderLIST "dwSize" d) "aData" a)
  /\ (exists d a, moviLIST this = assign (assign createMoviLIST "dwSize" d) "aStreams" a).

(** ** Statements about nodes and accumulated frames *)

(** The node [o] declares, in [dwSize], [extra] bytes plus what the
    children it holds in [name] are written as. *)
Definition declares (o : object) (name : string) (extra : Z) : Prop :=
  exists bytes,
    serialized_all (children o name) = Ok bytes
    /\ int_prop o "dwSize" = extra + Z.of_nat (List.length bytes).

Fixpoint total_size (blobs : list Blob) : Z :=
  match blobs with
  | [] => 0
  | blob :: rest => size blob + total_size rest
  end.

Fixpoint max_size (blobs : list Blob) : Z :=
  match blobs with
  | [] => 0
  | blob :: rest => Z.max (size blob) (max_size rest)
  end.

(** What [addFrame] maintains. *)
Definition accumulated (this : MJPEGBuilder) : Prop :=
  videoStreamSize (movieDesc this) = total_size (frameList this)
  /\ maxJPEGSize (movieDesc this) = max_size (frameList this)
  /\ Forall (fun blob => Z.even (size blob) = true) (frameList this).

(** [frame.charCodeAt(i)] stored into the array, for [i] inside [frame]. *)
Definition char_byte (c : ascii) : byte := byte_of_Z (Z.of_N (N_of_ascii c)).

(** The decoded bytes, with a zero after an odd number of them. *)
Definition padded (frame : string) : list byte :=
  let decoded := map char_byte (list_ascii_of_string frame) in
  if Nat.even (List.length decoded) then decoded else decoded ++ [x00].

(** The cases of the [switch], named. *)
Inductive kind : Type :=
| KByte | KChars | KDword | KWord | KWordBE | KArray | KRaw | KStruct | KHandler
| KUnknown.

Definition field_kind (fieldName : string) : kind :=
  match fieldName with
  | String "b" _ => KByte
  | String "c" _ => KChars
  | String "d" _ => KDword
  | String "w" _ => KWord
  | String "W" _ => KWordBE
  | String "a" _ => KArray
  | String "r" _ => KRaw
  | String "s" _ => KStruct
  | String "h" _ => KHandler
  | _ => KUnknown
  end.

(** [val.length] and [val[j]] of the array case, on a value that is not
    an array. *)
Definition appendNonArray (bb : sink) (val : value) : result sink :=
  match val with
  | VUndefined | VNull | VFun _ => Throw TypeError
  | VNative f =>
      match builtin_length f with
      | Some 0 | None => Ok bb
      | Some _ => Throw TypeError
      end
  | VStr (String _ _) => Throw MissingOrder
  | _ => Ok bb
  end.

(** ** The writer's contract, after the table of encodings

    [encode] is the serialized form a record should have: a scalar as
    its bytes, least significant first (most significant first for the
    big-endian word), characters and raw bytes as they are, a nested
    record in place, an array element after element, a handler's buffer
    as it is. *)

(** The integer a scalar field holds, rounded toward zero. *)
Definition int_part (val : value) : Z :=
  match val with
  | VNum (Finite q) => truncate q
  | _ => 0
  end.

Fixpoint le_bytes (k : nat) (z : Z) : list byte :=
  match k with
  | O => []
  | S k' => byte_of_Z (z mod 256) :: le_bytes k' (z / 256)
  end.

Definition encode_field (rec : value -> sink) (fieldName : string) (val : value) : sink :=
  match field_kind fieldName with
  | KByte => [VBuf (le_bytes 1 (int_part val))]
  | KWord => [VBuf (le_bytes 2 (int_part val))]
  | KWordBE => [VBuf (rev (le_bytes 2 (int_part val)))]
  | KDword => [VBuf (le_bytes 4 (int_part val))]
  | KChars | KRaw => [val]
  | KArray => match val with VArr l => flat_map rec l | _ => [] end
  | KStruct => rec val
  | KHandler => match val with VFun blob => [VBlob blob] | _ => [] end
  | KUnknown => []
  end.

Fixpoint encode (s : value) {struct s} : sink :=
  match s with
  | VObj (Some od) fields =>
      flat_map
        (fun fieldName =>
           (fix field (fs : list (string * value)) : sink :=
              match fs with
              | [] => encode_field (fun _ => []) fieldName (not_own (Some od) fieldName)
              | (k, v) :: fs' =>
                  if String.eqb k fieldName then encode_field encode fieldName v
                  else field fs'
              end) fields) od
  | _ => []
  end.

(** A field holds what its tag announces. *)
Definition field_ok (rec : value -> bool) (fieldName : string) (val : value) : bool :=
  match field_kind fieldName, val with
  | (KByte | KWord | KWordBE | KDword), VNum _ => true
  | KChars, VStr _ => true
  | KRaw, VBuf _ => true
  | KArray, VArr l => forallb rec l
  | KStruct, _ => rec val
  | KHandler, VFun _ => true
  | _, _ => false
  end.

(** A record with its field-order list, all of whose fields, and those
    of the records below it, hold what their tags announce. *)
Fixpoint well_formed (s : value) {struct s} : bool :=
  match s with
  | VObj (Some od) fields =>
      forallb
        (fun fieldName =>
           (fix field (fs : list (string * value)) : bool :=
              match fs with
              | [] => field_ok (fun _ => false) fieldName (not_own (Some od) fieldName)
              | (k, v) :: fs' =>
                  if String.eqb k fieldName then field_ok well_formed fieldName v
                  else field fs'
              end) fields) od
  | _ => false
  end.

(** No schema defect under a field: its tag is recognized and what it
    holds in place of records has field-order lists. *)
Definition field_schema_ok (rec : value -> bool) (fieldName : string) (val : value) : bool :=
  match field_kind fieldName with
  | KUnknown => false
  | KArray =>
      match val with
      | VArr l => forallb rec l
      | VStr (String _ _) => false
      | _ => true
      end
  | KStruct => rec val
  | _ => true
  end.

(** [schema_ok] on a value that holds no record. *)
Definition schema_none (s : value) : bool :=
  match s with
  | VUndefined | VNull => true
  | _ => false
  end.

(** No schema defect in [s]: every record the field-order lists lead to
    has such a list, and every tag listed is recognized.  [null] and
    [undefined] are no records at all. *)
Fixpoint schema_ok (s : value) {struct s} : bool :=
  match s with
  | VUndefined | VNull => true
  | VObj (Some od) fields =>
      forallb
        (fun fieldName =>
           (fix field (fs : list (string * value)) : bool :=
              match fs with
              | [] => field_schema_ok schema_none fieldName (not_own (Some od) fieldName)
              | (k, v) :: fs' =>
                  if String.eqb k fieldName then field_schema_ok schema_ok fieldName v
                  else field fs'
              end) fields) od
  | _ => false
  end.

Definition is_schema_error (e : exn) : bool :=
  match e with
  | MissingOrder | UnknownDataType _ => true
  | _ => false
  end.

(** ** A recording

    [CamRecorder.prototype.stop] without [MediaRecorder]: the data URLs
    captured are added in order, then the audio track when one was
    recorded. *)

Fixpoint addFrames (frames : list string) (mjpeg : MJPEGBuilder) : result MJPEGBuilder :=
  match frames with
  | [] => Ok mjpeg
  | u :: rest => mjpeg' <- addFrame u mjpeg ;; addFrames rest mjpeg'
  end.

(** Base64 of [n] zero bytes, and a data URL holding them. *)
Fixpoint zeros_base64 (n : nat) : string :=
  match n with
  | O => ""
  | 1%nat => "AA=="
  | 2%nat => "AAA="
  | S (S (S k)) => "AAAA" ++ zeros_base64 k
  end%string.

Definition data_url (n : nat) : string :=
  ("data:image/jpeg;base64," ++ zeros_base64 n)%string.

(** 320 x 240 at 10 frames per second, three frames of 100, 150 and 120
    bytes; then the same with 4000 bytes of mono PCM at 8000 Hz. *)
Definition recording : MJPEGBuilder :=
  match addFrames [data_url 100; data_url 150; data_url 120]
          (setup 320 240 10 new_MJPEGBuilder) with
  | Ok mjpeg => mjpeg
  | Throw _ => new_MJPEGBuilder
  end.

Definition recording_audio : MJPEGBuilder :=
  addAudio (mkBlob (repeat x00 4000) "") 1 8000 recording.

(** 29.97 frames per second: the double nearest to it. *)
Definition ntsc : Q := 1054475631502295 # 35184372088832.

(** One frame of 6 bytes at a given frame rate. *)
Definition short_clip (fps : Q) : MJPEGBuilder :=
  match addFrames [data_url 6] (setup 320 240 fps new_MJPEGBuilder) with
  | Ok mjpeg => mjpeg
  | Throw _ => new_MJPEGBuilder
  end.

(** The recording with a track of 3 channels at a sample rate of
    4503599761588225, so that their product has more than 53 bits. *)
Definition recording_wide : MJPEGBuilder :=
  addAudio (mkBlob (repeat x00 4000) "") 3 4503599761588225 recording.

(** ** CamRecorder (js/camrecorder.js)

    What the recorder computes, without the camera, the canvas and the
    timers around it. *)

(** [window.MediaRecorder]: absent, present without [isTypeSupported]
    (taken to be Safari's experimental one), or present with it. *)
Inductive MediaRecorderAPI : Type :=
| NoMediaRecorder
| PlainMediaRecorder
| TypedMediaRecorder (isTypeSupported : string -> bool).

(** [this._frames]: not set before [start]; then data URLs pushed by the
    canvas timer, or the blobs of the [dataavailable] events. *)
Inductive Frames : Type :=
| NotStarted
| Urls (l : list string)
| Chunks (l : list Blob).

Record CamRecorder : Type := mkCamRecorder {
  _hasMediaRecorder : bool;
  _videoWidth : Z;
  _videoHeight : Z;
  _fps : Q;
  _audio : bool;
  _container : string;
  _mimeType : string;
  _frames : Frames;
  _blob : option Blob
}.

(** The container and MIME type the constructor settles on. *)
Definition select_format (api : MediaRecorderAPI) (recordAudio : bool) : string * string :=
  match api with
  | TypedMediaRecorder isTypeSupported =>
      let mimeType := ("video/webm;codecs=vp9" ++ (if recordAudio then ",opus" else ""))%string in
      if negb (isTypeSupported mimeType) then
        let mimeType := ("video/webm;codecs=vp8" ++ (if recordAudio then ",opus" else ""))%string in
        if negb (isTypeSupported mimeType) then
          let mimeType := "video/webm" in
          if negb (isTypeSupported mimeType) then ("webm", "")
          else ("webm", mimeType)
        else ("webm", mimeType)
      else ("webm", mimeType)
  | PlainMediaRecorder => ("mp4", "video/mp4")
  | NoMediaRecorder =>
      ("avi", ("video/avi;codec=mjpg" ++ (if recordAudio then ",pcm" else ""))%string)
  end.

(** [new CamRecorder(videoElement, recordAudio, videoWidth, videoHeight, fps)] *)
Definition new_CamRecorder (api : MediaRecorderAPI) (recordAudio : bool)
  (videoWidth videoHeight : Z) (fps : Q) : CamRecorder :=
  {| _hasMediaRecorder := match api with NoMediaRecorder => false | _ => true end;
     _videoWidth := videoWidth;
     _videoHeight := videoHeight;
     _fps := fps;
     _audio := recordAudio;
     _container := fst (select_format api recordAudio);
     _mimeType := snd (select_format api recordAudio);
     _frames := NotStarted;
     _blob := None |}.

Definition set_frames (frames : Frames) (this : CamRecorder) : CamRecorder :=
  {| _hasMediaRecorder := _hasMediaRecorder this;
     _videoWidth := _videoWidth this;
     _videoHeight := _videoHeight this;
     _fps := _fps this;
     _audio := _audio this;
     _container := _container this;
     _mimeType := _mimeType this;
     _frames := frames;
     _blob := _blob this |}.

Definition set_blob (blob : Blob) (this : CamRecorder) : CamRecorder :=
  {| _hasMediaRecorder := _hasMediaRecorder this;
     _videoWidth := _videoWidth this;
     _videoHeight := _videoHeight this;
     _fps := _fps this;
     _audio := _audio this;
     _container := _container this;
     _mimeType := _mimeType this;
     _frames := _frames this;
     _blob := Some blob |}.

(** [start]: [this._frames = []] *)
Definition start (this : CamRecorder) : CamRecorder :=
  set_frames (if _hasMediaRecorder this then Chunks [] else Urls []) this.

(** One tick of the canvas timer, which [start] sets up without
    [MediaRecorder]: the data URL of the frame is pushed. *)
Definition capture (url : string) (this : CamRecorder) : CamRecorder :=
  match _frames this with
  | Urls l => set_frames (Urls (l ++ [url])) this
  | _ => this
  end.

(** [ondataavailable]: [e.data] is kept when it is there and not empty. *)
Definition ondataavailable (data : option Blob) (this : CamRecorder) : CamRecorder :=
  match data, _frames this with
  | Some blob, Chunks l =>
      if 0 <? size blob then set_frames (Chunks (l ++ [blob])) this else this
  | _, _ => this
  end.

(** [onstop]: [new Blob(this._frames, {type: this._mimeType})] *)
Definition onstop (this : CamRecorder) : CamRecorder :=
  match _frames this with
  | Chunks l => set_blob (new_Blob (map VBlob l) (_mimeType this)) this
  | _ => this
  end.

(** [stop] without [MediaRecorder]: the captured frames are packed by a
    fresh builder; [data] is what [exportRaw] hands over when audio is
    recorded: the blob, the number of channels and the sample rate.
    Before [start] there is no [this._frames] to take the length of.
    (With [MediaRecorder] this branch is not taken; a blob in place of a
    data URL would not pass [atob].) *)
Definition stop_canvas (data : Blob * Z * Z) (this : CamRecorder) : result CamRecorder :=
  let mjpeg := new_MJPEGBuilder in
  let mjpeg := setup (_videoWidth this) (_videoHeight this) (_fps this) mjpeg in
  frames <- match _frames this with
            | Urls frames => Ok frames
            | NotStarted => Throw TypeError
            | Chunks [] => Ok []
            | Chunks (_ :: _) => Throw InvalidCharacterError
            end ;;
  mjpeg <- addFrames frames mjpeg ;;
  let mjpeg := if _audio this
               then addAudio (fst (fst data)) (snd (fst data)) (snd data) mjpeg
               else mjpeg in
  r <- finish mjpeg ;;
  Ok (set_blob (fst r) this).

(** [getVideoContainer] and the file name of [saveAsFile] and [upload]. *)
Definition getVideoContainer (this : CamRecorder) : string := _container this.

Definition file_name (basename : option string) (this : CamRecorder) : string :=
  let basename := match basename with
                  | None | Some EmptyString => "recording"
                  | Some b => b
                  end in
  (basename ++ "." ++ _container this)%string.

(** * Properties *)

(** ** [atob] on small inputs *)

Example atob_jpeg_start :
  atob "/9j/4AAQ"
  = Ok (String "255" (String "216" (String "255" (String "224"
          (String "000" (String "016" EmptyString)))))).
Proof. reflexivity. Qed.

Example atob_padding :
  atob "TQ==" = Ok "M" /\ atob "TWE=" = Ok "Ma" /\ atob "TWE" = Ok "Ma"
  /\ atob "TWFu" = Ok "Man" /\ atob " TW Fu " = Ok "Man" /\ atob "" = Ok "".
Proof. repeat split. Qed.

Example atob_rejects :
  atob "TWFuT" = Throw InvalidCharacterError
  /\ atob "TW=u" = Throw InvalidCharacterError
  /\ atob "T===" = Throw InvalidCharacterError
  /\ atob "TW-u" = Throw InvalidCharacterError.
Proof. repeat split. Qed.


(** ** Doubles

    Integers of at most 53 bits are doubles, so their sums and products
    are exact as long as they stay within; and the double of a quotient
    of integers has the integer part of the exact quotient. *)

Lemma nearest_even_exact c b : 0 < b -> nearest_even (c * b) b = c.
Proof.
  intros Hb. unfold nearest_even. rewrite Z.div_mul, Z.mod_mul by lia.
  destruct (Z.ltb_spec (2 * 0) b); [reflexivity | lia].
Qed.

Lemma nearest_even_1 c : nearest_even c 1 = c.
Proof.
  pose proof (nearest_even_exact c 1 ltac:(lia)) as H. rewrite Z.mul_1_r in H. exact H.
Qed.

Lemma nearest_even_cases a b :
  0 < b ->
  nearest_even a b = a / b
  \/ (nearest_even a b = a / b + 1 /\ b <= 2 * (a mod b)).
Proof.
  intros Hb. unfold nearest_even.
  destruct (Z.ltb_spec (2 * (a mod b)) b); [left; reflexivity|].
  destruct (Z.ltb_spec b (2 * (a mod b))); [right; split; [reflexivity | lia]|].
  destruct (Z.even (a / b)); [left; reflexivity | right; split; [reflexivity | lia]].
Qed.

Lemma exponent_spec a b :
  0 < a -> 0 < b ->
  let k := exponent a b in
  (0 <= k -> b * 2 ^ k <= a < b * 2 ^ (k + 1))
  /\ (k < 0 -> b <= a * 2 ^ (- k) < 2 * b).
Proof.
  intros Ha Hb. cbv zeta. unfold exponent.
  pose proof (Z.log2_nonneg a) as Na. pose proof (Z.log2_nonneg b) as Nb.
  pose proof (Z.log2_spec a Ha) as [La Ua]. pose proof (Z.log2_spec b Hb) as [Lb Ub].
  rewrite Z.pow_succ_r in Ua, Ub by assumption.
  set (ka := Z.log2 a) in *. set (kb := Z.log2 b) in *.
  assert (Pa : 0 < 2 ^ ka) by (apply Z.pow_pos_nonneg; lia).
  assert (Pb : 0 < 2 ^ kb) by (apply Z.pow_pos_nonneg; lia).
  destruct (Z.leb_spec 0 (ka - kb)) as [Hk|Hk].
  - assert (E : 2 ^ ka = 2 ^ kb * 2 ^ (ka - kb))
      by (rewrite <- Z.pow_add_r by lia; f_equal; lia).
    assert (P : 0 < 2 ^ (ka - kb)) by (apply Z.pow_pos_nonneg; lia).
    destruct (Z.ltb_spec a (b * 2 ^ (ka - kb))) as [Hlt|Hge].
    + split.
      * intros Hn. replace (ka - kb - 1 + 1) with (ka - kb) by lia. split; [|exact Hlt].
        assert (E' : 2 ^ (ka - kb) = 2 * 2 ^ (ka - kb - 1))
          by (rewrite <- Z.pow_succ_r by lia; f_equal; lia).
        assert (P' : 0 < 2 ^ (ka - kb - 1)) by (apply Z.pow_pos_nonneg; lia).
        nia.
      * intros Hn. assert (D : ka - kb = 0) by lia.
        replace (- (ka - kb - 1)) with 1 by lia. change (2 ^ 1) with 2.
        rewrite D in *. change (2 ^ 0) with 1 in *. lia.
    + split; [|lia]. intros _. split; [exact Hge|].
      rewrite Z.pow_add_r by lia. change (2 ^ 1) with 2. nia.
  - assert (E : 2 ^ kb = 2 ^ ka * 2 ^ (- (ka - kb)))
      by (rewrite <- Z.pow_add_r by lia; f_equal; lia).
    assert (P : 0 < 2 ^ (- (ka - kb))) by (apply Z.pow_pos_nonneg; lia).
    destruct (Z.ltb_spec (a * 2 ^ (- (ka - kb))) b) as [Hlt|Hge].
    + split; [lia|]. intros _.
      replace (- (ka - kb - 1)) with (- (ka - kb) + 1) by lia.
      rewrite Z.pow_add_r by lia. change (2 ^ 1) with 2. nia.
    + split; [lia|]. intros _. split; [exact Hge|]. nia.
Qed.

Lemma Qred_inject_Z z : Qred (inject_Z z) = inject_Z z.
Proof. apply Qcanon.Qred_identity. cbn. apply Z.gcd_1_r. Qed.

Lemma Qle_bool_false x y : (y < x)%Q -> Qle_bool x y = false.
Proof.
  intros H. destruct (Qle_bool x y) eqn:E; [|reflexivity].
  apply Qle_bool_iff in E. exfalso. exact (Qlt_not_le _ _ H E).
Qed.

Lemma round_pos_int z : 0 < z <= 2 ^ 53 -> round_pos z 1 = Some (inject_Z z).
Proof.
  intros [Hz Hu]. unfold round_pos.
  destruct (exponent_spec z 1 Hz ltac:(lia)) as [Hk Hk'].
  set (k := exponent z 1) in *.
  assert (Kn : 0 <= k).
  { destruct (Z.leb_spec 0 k) as [|Hn]; [assumption|]. exfalso.
    specialize (Hk' Hn).
    assert (2 <= 2 ^ (- k)) by (change 2 with (2 ^ 1) at 1; apply Z.pow_le_mono_r; lia).
    nia. }
  specialize (Hk Kn). rewrite !Z.mul_1_l in Hk.
  assert (Ku : k <= 53).
  { destruct (Z.leb_spec k 53) as [|Hn]; [assumption|]. exfalso.
    assert (2 ^ 54 <= 2 ^ k) by (apply Z.pow_le_mono_r; lia). lia. }
  rewrite Z.max_l by lia.
  assert (V : ((if 0 <=? k - 52
                then inject_Z (nearest_even z (1 * 2 ^ (k - 52)) * 2 ^ (k - 52))
                else nearest_even (z * 2 ^ (- (k - 52))) 1 # Z.to_pos (2 ^ (- (k - 52))))
               == inject_Z z)%Q).
  { destruct (Z.leb_spec 0 (k - 52)) as [He|He].
    - assert (Hc : k = 52 \/ k = 53) by lia. destruct Hc as [-> | ->].
      + change (52 - 52) with 0. change (2 ^ 0) with 1.
        change (1 * 1) with 1. rewrite nearest_even_1, Z.mul_1_r. reflexivity.
      + change (53 - 52) with 1. change (2 ^ 1) with 2.
        assert (z = 2 ^ 53) by (change (2 ^ 53) with 9007199254740992 in *; lia). subst z.
        reflexivity.
    - assert (P : 0 < 2 ^ (- (k - 52))) by (apply Z.pow_pos_nonneg; lia).
      rewrite nearest_even_1.
      unfold Qeq. cbn [Qnum Qden inject_Z]. rewrite Z2Pos.id by exact P. lia. }
  rewrite Qle_bool_false.
  - rewrite (Qred_complete _ _ V), Qred_inject_Z. reflexivity.
  - rewrite V. rewrite <- Zlt_Qlt.
    apply Z.le_lt_trans with (2 ^ 53); [exact Hu | reflexivity].
Qed.

(** Integers of at most 53 bits are doubles. *)
Lemma round_double_int z : Z.abs z <= 2 ^ 53 -> round_double (inject_Z z) = ofZ z.
Proof.
  intros Hz. unfold round_double, ofZ. cbn [Qnum Qden inject_Z].
  destruct z as [|p|p]; [reflexivity| |].
  - rewrite round_pos_int by lia. reflexivity.
  - rewrite round_pos_int by lia. reflexivity.
Qed.

Lemma js_mul_int a b :
  Z.abs (a * b) <= 2 ^ 53 -> js_mul (ofZ a) (ofZ b) = ofZ (a * b).
Proof.
  intros H. unfold js_mul, ofZ.
  change (inject_Z a * inject_Z b)%Q with (inject_Z (a * b)).
  apply round_double_int. exact H.
Qed.

Lemma truncate_nonneg q : (0 <= q)%Q -> truncate q = Qfloor q.
Proof.
  destruct q as [n d]. unfold Qle, truncate, Qfloor. cbn [Qnum Qden].
  rewrite Z.mul_1_r. intros H. apply Z.quot_div_nonneg; lia.
Qed.

Lemma div_between a s n : 0 < s -> n * s <= a < (n + 1) * s -> a / s = n.
Proof.
  intros Hs H. symmetry. apply (Z.div_unique a s n (a - n * s)); lia.
Qed.

Lemma round_pos_floor a b :
  0 < a < 2 ^ 53 -> 0 < b ->
  exists r, round_pos a b = Some r /\ Qfloor r = a / b /\ (0 <= r)%Q.
Proof.
  intros [Ha Hu] Hb. unfold round_pos.
  destruct (exponent_spec a b Ha Hb) as [Hk Hk'].
  set (k := exponent a b) in *.
  pose proof (Z.div_mod a b ltac:(lia)) as Ea.
  pose proof (Z.mod_pos_bound a b Hb) as Ra.
  set (n := a / b) in *.
  assert (Hn : 0 <= n) by (apply Z.div_pos; lia).
  destruct (Z.leb_spec 0 (Z.max (k - 52) (- 1074))) as [He|He].
  - (* at least 2^52: the quotient is an integer *)
    assert (K : 52 <= k) by lia. specialize (Hk ltac:(lia)).
    assert (P : 2 ^ 52 <= 2 ^ k) by (apply Z.pow_le_mono_r; lia).
    assert (B : b = 1) by (change (2 ^ 53) with (2 * 2 ^ 52) in Hu; nia).
    assert (K' : k = 52).
    { destruct (Z.eq_dec k 52) as [|N]; [assumption|]. exfalso.
      assert (2 ^ 53 <= 2 ^ k) by (apply Z.pow_le_mono_r; lia). nia. }
    subst b. rewrite K'. change (Z.max (52 - 52) (- 1074)) with 0.
    change (1 * 2 ^ 0) with 1. change (2 ^ 0) with 1.
    rewrite nearest_even_1, Z.mul_1_r.
    rewrite Qle_bool_false
      by (rewrite <- Zlt_Qlt; apply Z.lt_trans with (2 ^ 53); [exact Hu | reflexivity]).
    eexists. split; [reflexivity|]. rewrite Qred_inject_Z. split.
    + rewrite Qfloor_Z. unfold n. rewrite Z.div_1_r. reflexivity.
    + unfold Qle. cbn [Qnum Qden inject_Z]. lia.
  - set (e := Z.max (k - 52) (- 1074)) in *.
    set (S := 2 ^ (- e)).
    assert (PS : 0 < S) by (apply Z.pow_pos_nonneg; lia).
    assert (S2 : 2 <= S)
      by (change 2 with (2 ^ 1) at 1; apply Z.pow_le_mono_r; lia).
    pose proof (Z.div_mod (a * S) b ltac:(lia)) as ED.
    pose proof (Z.mod_pos_bound (a * S) b Hb) as RD.
    pose proof (nearest_even_cases (a * S) b Hb) as Hcases.
    assert (EaS : a * S = n * S * b + a mod b * S).
    { replace (a * S) with ((b * n + a mod b) * S) by (rewrite <- Ea; reflexivity).
      ring. }
    assert (RS : 0 <= a mod b * S < b * S)
      by (split; [apply Z.mul_nonneg_nonneg; lia | apply Z.mul_lt_mono_pos_r; lia]).
    assert (DS : n * S <= a * S / b < (n + 1) * S).
    { rewrite EaS, Z.div_add_l by lia.
      assert (0 <= a mod b * S / b) by (apply Z.div_pos; lia).
      assert (a mod b * S / b < S) by (apply Z.div_lt_upper_bound; lia).
      lia. }
    assert (NS : 0 <= n * S) by (apply Z.mul_nonneg_nonneg; lia).
    assert (Na : n <= a).
    { unfold n. apply Z.div_le_upper_bound; [exact Hb|].
      replace a with (1 * a) at 1 by ring. apply Z.mul_le_mono_nonneg_r; lia. }
    remember (a * S / b) as D eqn:HD. remember ((a * S) mod b) as R' eqn:HR.
    assert (Hm : n * S <= nearest_even (a * S) b < (n + 1) * S).
    { destruct Hcases as [-> | [-> Hhalf]]; [exact DS|].
      split; [lia|].
      destruct (Z.eq_dec (D + 1) ((n + 1) * S)) as [Eq|]; [exfalso | lia].
      assert (B : 2 * S <= b).
      { assert (E1 : a * S = b * ((n + 1) * S) - (b - a mod b) * S).
        { replace (a * S) with ((b * n + a mod b) * S) by (rewrite <- Ea; reflexivity).
          ring. }
        rewrite <- Eq in E1.
        assert (E2 : 1 * S <= (b - a mod b) * S)
          by (apply Z.mul_le_mono_nonneg_r; lia).
        clear - E1 E2 ED RD Hhalf. lia. }
      destruct (Z.max_spec (k - 52) (- 1074)) as [[Hlt Ee] | [Hge Ee]]; fold e in Ee.
      + (* subnormal *)
        assert (K : k < - 1022) by lia. specialize (Hk' ltac:(lia)).
        assert (P : 2 ^ 1023 <= 2 ^ (- k)) by (apply Z.pow_le_mono_r; lia).
        assert (ES : S = 2 ^ 1074) by (unfold S; rewrite Ee; reflexivity).
        assert (Hab : a * 2 ^ 1023 < 2 * b).
        { apply Z.le_lt_trans with (a * 2 ^ (- k)); [|apply Hk'].
          apply Z.mul_le_mono_nonneg_l; [lia | exact P]. }
        assert (N0 : n = 0).
        { unfold n. apply Z.div_small. split; [lia|].
          assert (a * 2 <= a * 2 ^ 1023)
            by (apply Z.mul_le_mono_nonneg_l; [lia | discriminate]).
          lia. }
        rewrite N0, ES in Eq. rewrite ES in ED, B.
        assert (HD' : D = 2 ^ 1074 - 1) by (clear - Eq; lia).
        rewrite HD' in ED.
        assert (Hb' : (a * 2 ^ 1023 + 1) * (2 ^ 1074 - 1) <= 2 * b * (2 ^ 1074 - 1))
          by (apply Z.mul_le_mono_nonneg_r; [discriminate | lia]).
        assert (Ha' : 1 * (2 ^ 1023 * (2 ^ 1074 - 1) - 2 * 2 ^ 1074)
                      <= a * (2 ^ 1023 * (2 ^ 1074 - 1) - 2 * 2 ^ 1074))
          by (apply Z.mul_le_mono_nonneg_r; [discriminate | lia]).
        assert (T : 0 < 2 ^ 1023 * (2 ^ 1074 - 1) - 2 * 2 ^ 1074) by reflexivity.
        set (c := 2 ^ 1023 * (2 ^ 1074 - 1) - 2 * 2 ^ 1074) in *.
        assert (Ec : a * c = a * 2 ^ 1023 * (2 ^ 1074 - 1) - 2 * (a * 2 ^ 1074))
          by (unfold c; ring).
        assert (Eb : (a * 2 ^ 1023 + 1) * (2 ^ 1074 - 1)
                     = a * 2 ^ 1023 * (2 ^ 1074 - 1) + (2 ^ 1074 - 1)) by ring.
        assert (Ec' : 2 * b * (2 ^ 1074 - 1) = 2 * (b * (2 ^ 1074 - 1))) by ring.
        assert (T' : 0 < 2 ^ 1074 - 1) by reflexivity.
        set (u := a * 2 ^ 1023 * (2 ^ 1074 - 1)) in *.
        set (v := b * (2 ^ 1074 - 1)) in *.
        set (x := a * 2 ^ 1074) in *.
        set (y := 2 ^ 1074 - 1) in *.
        set (z := a * c) in *.
        clear - Hb' Ha' T Ec Eb Ec' T' ED RD. lia.
      + (* normal *)
        assert (ES : S * 2 ^ k = 2 ^ 52 \/ (k < 0 /\ S = 2 ^ 52 * 2 ^ (- k))).
        { destruct (Z.leb_spec 0 k).
          - left. unfold S. rewrite Ee, <- Z.pow_add_r by lia. f_equal. lia.
          - right. split; [assumption|]. unfold S.
            rewrite Ee, <- Z.pow_add_r by lia. f_equal. lia. }
        destruct ES as [ES | [Kn ES]].
        * destruct (Z.leb_spec 0 k) as [Kp|Kn].
          -- specialize (Hk Kp).
             assert (Pk : 0 < 2 ^ k) by (apply Z.pow_pos_nonneg; lia).
             assert (H2 : 2 * S * 2 ^ k <= b * 2 ^ k)
               by (apply Z.mul_le_mono_nonneg_r; lia).
             replace (2 * S * 2 ^ k) with (2 * (S * 2 ^ k)) in H2 by ring.
             rewrite ES in H2. change (2 * 2 ^ 52) with (2 ^ 53) in H2.
             clear - H2 Hk Hu. lia.
          -- exfalso. assert (Z : 2 ^ k = 0) by (apply Z.pow_neg_r; exact Kn).
             rewrite Z in ES. change (2 ^ 52) with 4503599627370496 in ES. lia.
        * specialize (Hk' Kn).
          assert (Pk : 0 < 2 ^ (- k)) by (apply Z.pow_pos_nonneg; lia).
          assert (H2 : a * 2 ^ (- k) < 2 ^ 53 * 2 ^ (- k))
            by (apply Z.mul_lt_mono_pos_r; lia).
          rewrite ES in B.
          replace (2 * (2 ^ 52 * 2 ^ (- k))) with (2 ^ 53 * 2 ^ (- k)) in B
            by (change (2 ^ 53) with (2 * 2 ^ 52); ring).
          clear - H2 B Hk'. lia. }
    set (m := nearest_even (a * S) b) in *.
    rewrite Qle_bool_false.
    + eexists. split; [reflexivity|]. split.
      * rewrite (Qfloor_comp _ _ (Qred_correct _)). unfold Qfloor.
        rewrite Z2Pos.id by exact PS. apply div_between; [exact PS | exact Hm].
      * rewrite Qred_correct. unfold Qle. cbn [Qnum Qden]. lia.
    + unfold Qlt. cbn [Qnum Qden inject_Z]. rewrite Z2Pos.id by exact PS.
      assert (H1 : (n + 1) * S <= 2 ^ 53 * S)
        by (apply Z.mul_le_mono_nonneg_r; lia).
      assert (H2 : 2 ^ 53 * S < 2 ^ 1024 * S)
        by (apply Z.mul_lt_mono_pos_r; [exact PS | reflexivity]).
      lia.
Qed.

(** The double of a quotient of integers has the integer part of the
    quotient when the dividend has at most 53 bits. *)
Lemma round_double_quotient a b :
  0 <= a < 2 ^ 53 -> 0 < b ->
  exists r, round_double (inject_Z a / inject_Z b) = Finite r
            /\ Qfloor r = a / b /\ truncate r = a / b.
Proof.
  intros [Ha Hu] Hb.
  destruct b as [|pb|pb]; try lia.
  destruct a as [|pa|pa]; try lia.
  - exists 0%Q. repeat split.
  - unfold round_double. cbn [Qnum Qden inject_Z Qdiv Qinv Qmult].
    rewrite Z.mul_1_r. cbn [Z.mul Pos.mul].
    destruct (round_pos_floor (Zpos pa) (Zpos pb) ltac:(lia) ltac:(lia))
      as (r & -> & Hf & Hp).
    exists r. repeat split; [exact Hf|]. rewrite truncate_nonneg by exact Hp. exact Hf.
Qed.

Example ntsc_double : round_double (2997 # 100) = Finite ntsc.
Proof. vm_compute. reflexivity. Qed.

(** Products and quotients that are not exact. *)
Example inexact :
  js_mul (ofZ 3) (ofZ 4503599761588225) = ofZ 13510799284764676
  /\ js_mul (ofZ 6) (ofZ (2 ^ 52 + 1)) = ofZ (6 * 2 ^ 52 + 8)
  /\ js_mul (ofZ (2 ^ 53 + 1)) (ofZ 1) = ofZ (2 ^ 53)
  /\ js_mul (ofZ (2 ^ 1000)) (ofZ (2 ^ 24)) = NonFinite
  /\ js_div (ofZ 1) (1 # 10) = ofZ 10
  /\ js_div (ofZ 1) 3 = Finite (6004799503160661 # 18014398509481984)
  /\ js_div (ofZ 1) 0 = NonFinite.
Proof. repeat split; vm_compute; reflexivity. Qed.

(** ** Induction over values *)

Lemma value_nested_ind (P : value -> Prop) :
  (forall v,
      match v with
      | VArr l => Forall P l
      | VObj _ fields => Forall (fun kv => P (snd kv)) fields
      | _ => True
      end -> P v) ->
  forall v, P v.
Proof.
  intros step.
  fix IH 1.
  intros v. apply step. destruct v; try exact I.
  - induction l as [|x l IHl]; constructor; [apply IH | exact IHl].
  - induction fields as [|[k x] fs IHfs]; constructor; [apply IH | exact IHfs].
Qed.

(** ** The writer only appends *)

Lemma bind_ext {A B : Type} (r r' : result A) (k k' : A -> result B) :
  r = r' -> (forall a, k a = k' a) -> bind r k = bind r' k'.
Proof. intros -> E. destruct r'; [apply E | reflexivity]. Qed.

Lemma inherited_no_record name :
  inherited name = VUndefined \/ exists f, inherited name = VNative f.
Proof.
  unfold inherited.
  repeat match goal with
         | |- context [if ?c then _ else _] => destruct c; [right; eexists; reflexivity|]
         end.
  left. reflexivity.
Qed.

Lemma appendField_not_own bb od name :
  appendField appendNoRecord bb name (not_own (Some od) name)
  = appendField appendStruct bb name (not_own (Some od) name).
Proof.
  unfold not_own. destruct (String.eqb_spec name "_order") as [-> | _]; [reflexivity|].
  destruct (inherited_no_record name) as [-> | [f ->]];
    (destruct name as [|c name]; [reflexivity|]);
    unfold appendField; destruct c as [[] [] [] [] [] [] [] []]; reflexivity.
Qed.

Lemma appendStruct_unfold bb od fields :
  appendStruct bb (VObj (Some od) fields) = appendFields bb (Some od) fields od.
Proof.
  cbn [appendStruct]. generalize od at 1 3 as od0. intros od0.
  revert bb. induction od as [|name od IH]; intros bb; [reflexivity|].
  cbn [appendFields]. apply bind_ext; [|intros bb'; exact (IH bb')].
  clear IH. induction fields as [|[k v] fs IHfs]; cbn [get_field].
  - apply appendField_not_own.
  - destruct (String.eqb k name); [reflexivity | exact IHfs].
Qed.

Lemma appendField_kind rec bb fieldName val :
  appendField rec bb fieldName val =
  match field_kind fieldName with
  | KByte => Ok (bb ++ [VBuf (BYTE val)])
  | KChars | KRaw => Ok (bb ++ [val])
  | KDword => Ok (bb ++ [VBuf (DWORD val)])
  | KWord => Ok (bb ++ [VBuf (WORD val)])
  | KWordBE => Ok (bb ++ [VBuf (WORD_BE val)])
  | KArray =>
      match val with
      | VArr l => appendArray rec bb l
      | _ => appendNonArray bb val
      end
  | KStruct => rec bb val
  | KHandler =>
      match val with
      | VFun blob => Ok (bb ++ [VBlob blob])
      | VNative f => if builtin_returns f then Ok bb else Throw TypeError
      | _ => Throw TypeError
      end
  | KUnknown => Throw (UnknownDataType fieldName)
  end.
Proof.
  destruct fieldName as [|c name]; [reflexivity|].
  destruct c as [[] [] [] [] [] [] [] []]; cbn; try reflexivity;
    destruct val as [| | | [|] | | | | | |]; reflexivity.
Qed.

Lemma appendArray_app (l : list value) :
  Forall (fun x => forall bb, appendStruct bb x = appended (appendStruct [] x) bb) l ->
  forall bb, appendArray appendStruct bb l = appended (appendArray appendStruct [] l) bb.
Proof.
  intros Hl. enough (G : forall pre bb,
    appendArray appendStruct (bb ++ pre) l
    = appended (appendArray appendStruct pre l) bb).
  { intros bb. rewrite <- (G [] bb), app_nil_r. reflexivity. }
  induction Hl as [|x l Hx _ IH]; intros pre bb; [reflexivity|].
  cbn [appendArray]. rewrite (Hx (bb ++ pre)), (Hx pre).
  destruct (appendStruct [] x) as [out|e]; [|reflexivity].
  cbn. rewrite <- app_assoc. apply IH.
Qed.

Lemma appendFields_app order fields od :
  (forall name bb,
      appendField appendStruct bb name (get_field order fields name)
      = appended (appendField appendStruct [] name (get_field order fields name)) bb) ->
  forall bb, appendFields bb order fields od = appended (appendFields [] order fields od) bb.
Proof.
  intros Hf. enough (G : forall pre bb,
    appendFields (bb ++ pre) order fields od
    = appended (appendFields pre order fields od) bb).
  { intros bb. rewrite <- (G [] bb), app_nil_r. reflexivity. }
  induction od as [|name od IH]; intros pre bb; [reflexivity|].
  cbn [appendFields]. rewrite (Hf name (bb ++ pre)), (Hf name pre).
  destruct (appendField appendStruct [] name (get_field order fields name)) as [out|e];
    [|reflexivity].
  cbn. rewrite <- app_assoc. apply IH.
Qed.

Lemma get_field_Forall (P : value -> Prop) order fields name :
  P (not_own order name) -> Forall (fun kv => P (snd kv)) fields ->
  P (get_field order fields name).
Proof.
  intros Hu Hf. induction Hf as [|[k v] fs Hv _ IH]; cbn; [exact Hu|].
  destruct (String.eqb k name); [exact Hv | exact IH].
Qed.

(** What is read of a property that is not the object's own: the list
    of names under [_order], a built-in, or [undefined]. *)
Lemma not_own_cases order name :
  (name = "_order" /\ exists od, not_own order name = VArr (map VStr od))
  \/ not_own order name = VUndefined
  \/ exists f, not_own order name = VNative f.
Proof.
  unfold not_own. destruct (String.eqb_spec name "_order") as [-> | _].
  - destruct order as [od|]; [left; split; [reflexivity | exists od; reflexivity]|].
    right. left. reflexivity.
  - right. apply inherited_no_record.
Qed.

Lemma appendStruct_app_field (s : value) :
  (forall bb, appendStruct bb s = appended (appendStruct [] s) bb)
  /\ (forall name bb, appendField appendStruct bb name s
                      = appended (appendField appendStruct [] name s) bb).
Proof.
  induction s as [s IH] using value_nested_ind.
  assert (Hs : forall bb, appendStruct bb s = appended (appendStruct [] s) bb).
  { destruct s as [| | | | | | | f | l | [od|] fields]; try reflexivity.
    intros bb. rewrite !appendStruct_unfold. apply appendFields_app.
    intros name. apply (get_field_Forall
      (fun v => forall bb, appendField appendStruct bb name v
                           = appended (appendField appendStruct [] name v) bb)).
    - intros bb'. rewrite !appendField_kind.
      destruct (not_own_cases (Some od) name) as [[-> _] | [-> | [f ->]]];
        [reflexivity | destruct (field_kind name); reflexivity |].
      destruct (field_kind name); try reflexivity.
      + cbn [appendNonArray]. destruct (builtin_length f) as [[|p|p]|]; try reflexivity;
          cbn; rewrite app_nil_r; reflexivity.
      + destruct (builtin_returns f); [cbn; rewrite app_nil_r|]; reflexivity.
    - eapply Forall_impl; [|exact IH]. intros [k v] [_ Hv]. apply Hv. }
  split; [exact Hs|].
  intros name bb. rewrite !appendField_kind.
  destruct (field_kind name); try reflexivity; try apply Hs.
  - destruct s as [| | | [|] | | | | f | l |]; try reflexivity;
      try (cbn; rewrite app_nil_r; reflexivity).
    + cbn [appendNonArray]. destruct (builtin_length f) as [[|p|p]|]; try reflexivity;
        cbn; rewrite app_nil_r; reflexivity.
    + apply appendArray_app. eapply Forall_impl; [|exact IH]. intros x [Hx _]. exact Hx.
  - destruct s as [| | | | | | | f | |]; try reflexivity.
    destruct (builtin_returns f); [cbn; rewrite app_nil_r|]; reflexivity.
Qed.

Lemma appendStruct_app (s : value) :
  forall bb, appendStruct bb s = appended (appendStruct [] s) bb.
Proof. apply appendStruct_app_field. Qed.

Lemma appendArray_app_nil (l : list value) (bb : sink) :
  appendArray appendStruct bb l = appended (appendArray appendStruct [] l) bb.
Proof.
  apply appendArray_app. apply Forall_forall. intros x _. apply appendStruct_app.
Qed.

Lemma appendArray_cons x l o1 o2 :
  appendStruct [] x = Ok o1 ->
  appendArray appendStruct [] l = Ok o2 ->
  appendArray appendStruct [] (x :: l) = Ok (o1 ++ o2).
Proof.
  intros Hx Hl. cbn [appendArray]. rewrite Hx. cbn [bind].
  rewrite appendArray_app_nil, Hl. reflexivity.
Qed.

Lemma appendArray_concat l1 l2 o1 o2 :
  appendArray appendStruct [] l1 = Ok o1 ->
  appendArray appendStruct [] l2 = Ok o2 ->
  appendArray appendStruct [] (l1 ++ l2) = Ok (o1 ++ o2).
Proof.
  revert o1. induction l1 as [|x l1 IH]; intros o1 H1 H2.
  - cbn in H1. injection H1 as <-. exact H2.
  - cbn [appendArray] in H1.
    destruct (appendStruct [] x) as [ox|e] eqn:Hx; [|discriminate].
    cbn [bind] in H1. rewrite appendArray_app_nil in H1.
    destruct (appendArray appendStruct [] l1) as [o1'|e] eqn:Hl1; [|discriminate].
    cbn in H1. injection H1 as <-.
    rewrite <- app_assoc. cbn [app].
    apply appendArray_cons; [exact Hx | exact (IH o1' eq_refl H2)].
Qed.

(** ** The loops of [finish] *)

Lemma video_streams_closed frames s :
  video_streams frames s =
  {| aStreams := aStreams s ++ map video_chunk frames;
     frameIndices := frameIndices s ++ video_index (frOffset s) frames;
     frOffset := frOffset s + chunks_size frames;
     streamSize := streamSize s + chunks_size frames |}.
Proof.
  revert s. induction frames as [|blob rest IH]; intros s.
  - cbn. rewrite !app_nil_r, !Z.add_0_r. destruct s; reflexivity.
  - cbn [video_streams addVideoStreamData]. rewrite IH.
    cbn [aStreams frameIndices frOffset streamSize map video_index chunks_size].
    rewrite <- !app_assoc, !Z.add_assoc, Z.add_simpl_r. reflexivity.
Qed.

Lemma all_streams_closed this :
  all_streams this =
  match audio this with
  | Some t =>
      {| aStreams := map video_chunk (frameList this) ++ [audio_chunk (audioBlob t)];
         frameIndices := video_index 4 (frameList this)
                           ++ [IndexEntry "01wb" (4 + chunks_size (frameList this))
                                 (size (audioBlob t))];
         frOffset := 4 + chunks_size (frameList this);
         streamSize := chunks_size (frameList this) + (size (audioBlob t) + 8) |}
  | None =>
      {| aStreams := map video_chunk (frameList this);
         frameIndices := video_index 4 (frameList this);
         frOffset := 4 + chunks_size (frameList this);
         streamSize := chunks_size (frameList this) |}
  end.
Proof.
  unfold all_streams. rewrite video_streams_closed.
  destruct (audio this) as [t|]; cbn; [rewrite Z.add_simpl_r|]; reflexivity.
Qed.

Lemma reachable_shaped this : reachable this -> shaped this.
Proof.
  induction 1 as [| this fw fh f _ IH | this u this' _ IH Hadd
                  | this blob c r _ IH | this blob this' _ IH Hfin].
  - repeat split; exists (int 0), VNull; reflexivity.
  - exact IH.
  - unfold addFrame in Hadd. destruct (atob (slice 23 u)); [|discriminate].
    cbn in Hadd. injection Hadd as <-. exact IH.
  - exact IH.
  - unfold finish in Hfin.
    destruct (appendStruct [] _) as [chunks|e]; [|discriminate].
    cbn in Hfin. injection Hfin as _ <-.
    destruct IH as ((d1 & a1 & E1) & (d2 & a2 & E2) & (d3 & a3 & E3)).
    unfold shaped, finish_avi, finish_headerLIST, finish_moviLIST.
    cbn [avi headerLIST moviLIST]. rewrite E1, E2, E3.
    repeat split; eexists; eexists; reflexivity.
Qed.

(** ** What each descriptor writes *)

Lemma avi_written d l out :
  appendArray appendStruct [] l = Ok out ->
  appendStruct [] (obj (assign (assign createAVIStruct "dwSize" d) "aData" (VArr l)))
  = Ok ([VStr "RIFF"; VBuf (DWORD d); VStr "AVI "] ++ out).
Proof.
  intros H. cbn -[DWORD]. rewrite appendArray_app_nil, H. reflexivity.
Qed.

Lemma hdrl_written d l out :
  appendArray appendStruct [] l = Ok out ->
  appendStruct [] (obj (assign (assign createHeaderLIST "dwSize" d) "aData" (VArr l)))
  = Ok ([VStr "LIST"; VBuf (DWORD d); VStr "hdrl"] ++ out).
Proof.
  intros H. cbn -[DWORD]. rewrite appendArray_app_nil, H. reflexivity.
Qed.

Lemma movi_written d l out :
  appendArray appendStruct [] l = Ok out ->
  appendStruct [] (obj (assign (assign createMoviLIST "dwSize" d) "aStreams" (VArr l)))
  = Ok ([VStr "LIST"; VBuf (DWORD d); VStr "movi"] ++ out).
Proof.
  intros H. cbn -[DWORD]. rewrite appendArray_app_nil, H. reflexivity.
Qed.

Lemma idx1_written d l out :
  appendArray appendStruct [] l = Ok out ->
  appendStruct [] (VObj (Some ["chFourCC"; "dwSize"; "aData"])
                     [("chFourCC", VStr "idx1"); ("dwSize", d); ("aData", VArr l)])
  = Ok ([VStr "idx1"; VBuf (DWORD d)] ++ out).
Proof.
  intros H. cbn -[DWORD]. rewrite appendArray_app_nil, H. reflexivity.
Qed.

Lemma appendArray_written l :
  Forall (fun x => appendStruct [] x = Ok (written x)) l ->
  appendArray appendStruct [] l = Ok (flat_map written l).
Proof.
  induction 1 as [|x l Hx _ IH]; [reflexivity|].
  cbn [flat_map]. apply appendArray_cons; assumption.
Qed.

Lemma video_index_written dwOffset frames :
  Forall (fun x => appendStruct [] x = Ok (written x)) (video_index dwOffset frames).
Proof.
  revert dwOffset. induction frames as [|blob rest IH]; intros dwOffset; cbn.
  - constructor.
  - constructor; [reflexivity | apply IH].
Qed.

Lemma video_index_length dwOffset frames :
  List.length (video_index dwOffset frames) = List.length frames.
Proof.
  revert dwOffset. induction frames as [|blob rest IH]; intros dwOffset; cbn;
    [reflexivity | rewrite IH; reflexivity].
Qed.

Lemma frameIndices_written this :
  appendArray appendStruct [] (frameIndices (all_streams this))
  = Ok (flat_map written (frameIndices (all_streams this))).
Proof.
  apply appendArray_written. rewrite all_streams_closed.
  destruct (audio this) as [t|]; cbn [frameIndices].
  - apply Forall_app. split; [apply video_index_written|].
    constructor; [reflexivity | constructor].
  - apply video_index_written.
Qed.

Lemma frameIndices_length this :
  Z.of_nat (List.length (frameIndices (all_streams this))) = entries this.
Proof.
  rewrite all_streams_closed. unfold entries.
  destruct (audio this) as [t|]; cbn [frameIndices].
  - rewrite length_app, video_index_length. cbn. lia.
  - rewrite video_index_length. lia.
Qed.

Lemma video_chunks_written frames :
  appendArray appendStruct [] (map video_chunk frames)
  = Ok (flat_map (fun blob => [VStr "00dc"; VBuf (DWORD (int (size blob))); VBlob blob])
          frames).
Proof.
  induction frames as [|blob rest IH]; [reflexivity|].
  cbn [map flat_map]. apply appendArray_cons; [reflexivity | exact IH].
Qed.

Lemma aStreams_written this :
  appendArray appendStruct [] (aStreams (all_streams this))
  = Ok (flat_map (fun blob => [VStr "00dc"; VBuf (DWORD (int (size blob))); VBlob blob])
          (frameList this)
        ++ match audio this with
           | Some t => [VStr "01wb"; VBuf (DWORD (int (size (audioBlob t))));
                        VBlob (audioBlob t)]
           | None => []
           end).
Proof.
  rewrite all_streams_closed.
  destruct (audio this) as [t|]; cbn [aStreams].
  - apply appendArray_concat; [apply video_chunks_written | reflexivity].
  - rewrite app_nil_r. apply video_chunks_written.
Qed.

Lemma streamSize_closed this : streamSize (all_streams this) + 4 = moviSize this.
Proof.
  rewrite all_streams_closed. unfold moviSize.
  destruct (audio this); cbn [streamSize]; lia.
Qed.

Lemma hdrl_children_written this :
  appendArray appendStruct []
    match audio this with
    | Some t => [obj (avih this); obj (strl this); obj (strl_audio this t)]
    | None => [obj (avih this); obj (strl this)]
    end
  = Ok (written (obj (avih this)) ++ written (obj (strl this))
        ++ match audio this with
           | Some t => written (obj (strl_audio this t))
           | None => []
           end).
Proof.
  destruct (audio this) as [t|].
  - apply appendArray_cons; [reflexivity|].
    apply appendArray_cons; [reflexivity|].
    rewrite <- (app_nil_r (written _)). apply appendArray_cons; reflexivity.
  - apply appendArray_cons; [reflexivity|].
    rewrite <- (app_nil_r (written _)). apply appendArray_cons; reflexivity.
Qed.

Lemma int_prop_int o name z : prop o name = int z -> int_prop o name = z.
Proof. unfold int_prop. intros ->. apply Qfloor_Z. Qed.

Lemma finish_headerLIST_closed this :
  shaped this ->
  finish_headerLIST this
  = assign (assign createHeaderLIST "dwSize" (int (hdrlSize this))) "aData"
      (VArr match audio this with
            | Some t => [obj (avih this); obj (strl this); obj (strl_audio this t)]
            | None => [obj (avih this); obj (strl this)]
            end).
Proof.
  intros (_ & (d & a & E) & _). unfold finish_headerLIST. rewrite E. reflexivity.
Qed.

Lemma finish_moviLIST_closed this :
  shaped this ->
  finish_moviLIST this
  = assign (assign createMoviLIST "dwSize" (int (moviSize this))) "aStreams"
      (VArr (aStreams (all_streams this))).
Proof.
  intros (_ & _ & (d & a & E)). unfold finish_moviLIST.
  rewrite E, streamSize_closed. reflexivity.
Qed.

Lemma finish_avi_closed this :
  shaped this ->
  finish_avi this
  = assign (assign createAVIStruct "dwSize" (int (aviSize this))) "aData"
      (VArr [obj (finish_headerLIST this); obj (finish_moviLIST this);
             obj (indexChunk this)]).
Proof.
  intros Hs. pose proof Hs as ((d & a & E) & _). unfold finish_avi.
  rewrite E.
  replace (int_prop (finish_headerLIST this) "dwSize") with (hdrlSize this)
    by (symmetry; apply int_prop_int; rewrite (finish_headerLIST_closed this Hs);
        reflexivity).
  replace (int_prop (finish_moviLIST this) "dwSize") with (moviSize this)
    by (symmetry; apply int_prop_int; rewrite (finish_moviLIST_closed this Hs);
        reflexivity).
  replace (int_prop (indexChunk this) "dwSize") with (16 * entries this)
    by (symmetry; apply int_prop_int; unfold indexChunk, prop; cbn [snd get_field];
        rewrite frameIndices_length, Z.mul_comm; reflexivity).
  replace (0 + (8 + hdrlSize this) + (8 + moviSize this) + (8 + 16 * entries this) + 4)
    with (aviSize this) by (unfold aviSize; lia).
  reflexivity.
Qed.

Lemma avi_children_written this :
  shaped this ->
  appendArray appendStruct []
    [obj (finish_headerLIST this); obj (finish_moviLIST this); obj (indexChunk this)]
  = Ok (hdrl_chunks this ++ movi_chunks this ++ idx1_chunks this).
Proof.
  intros Hs. apply appendArray_cons.
  { rewrite (finish_headerLIST_closed this Hs). apply hdrl_written.
    apply hdrl_children_written. }
  apply appendArray_cons.
  { rewrite (finish_moviLIST_closed this Hs). apply movi_written.
    apply aStreams_written. }
  rewrite <- (app_nil_r (idx1_chunks this)).
  apply appendArray_cons; [|reflexivity].
  unfold indexChunk, obj, idx1_chunks. cbn [fst snd].
  rewrite frameIndices_length, Z.mul_comm. apply idx1_written.
  apply frameIndices_written.
Qed.

Lemma finish_written this :
  shaped this -> appendStruct [] (obj (finish_avi this)) = Ok (riff_chunks this).
Proof.
  intros Hs. rewrite (finish_avi_closed this Hs).
  unfold riff_chunks. apply avi_written. apply (avi_children_written this Hs).
Qed.

Lemma finish_closed this :
  shaped this ->
  finish this = Ok (new_Blob (riff_chunks this) "video/avi",
                    {| movieDesc := movieDesc this;
                       avi := finish_avi this;
                       headerLIST := finish_headerLIST this;
                       moviLIST := finish_moviLIST this;
                       frameList := frameList this;
                       audio := audio this |}).
Proof.
  intros Hs. unfold finish. cbn [avi]. rewrite (finish_written this Hs). reflexivity.
Qed.

(** ** Scalars read back *)

Lemma Z_of_byte_of_Z z : Z_of_byte (byte_of_Z z) = z mod 256.
Proof.
  unfold Z_of_byte, byte_of_Z.
  assert (Hr : 0 <= z mod 256 < 256) by (apply Z.mod_pos_bound; lia).
  destruct (Byte.of_N (Z.to_N (z mod 256))) as [b|] eqn:E.
  - apply Byte.to_of_N in E. rewrite E. apply Z2N.id. lia.
  - apply Byte.of_N_None_iff in E. lia.
Qed.

Lemma wrap32_mod z : wrap32 z mod 2 ^ 32 = z mod 2 ^ 32.
Proof.
  unfold wrap32. destruct (2 ^ 31 <=? z mod 2 ^ 32).
  - rewrite <- (Z.mod_add (z mod 2 ^ 32 - 2 ^ 32) 1 (2 ^ 32)) by lia.
    replace (z mod 2 ^ 32 - 2 ^ 32 + 1 * 2 ^ 32) with (z mod 2 ^ 32) by lia.
    apply Z.mod_mod. lia.
  - apply Z.mod_mod. lia.
Qed.

Lemma land_255 v : Z.land v 255 = v mod 256.
Proof. change 255 with (Z.ones 8). rewrite Z.land_ones by lia. reflexivity. Qed.

Lemma le32_bytes v :
  v mod 256 + 256 * ((v / 2 ^ 8) mod 256) + 65536 * ((v / 2 ^ 16) mod 256)
  + 16777216 * ((v / 2 ^ 24) mod 256) = v mod 2 ^ 32.
Proof.
  change (2 ^ 8) with 256. change (2 ^ 16) with (256 * 256).
  change (2 ^ 24) with (256 * 256 * 256).
  rewrite <- !Z.div_div by lia.
  pose proof (Z.div_mod v 256 ltac:(lia)) as E0.
  pose proof (Z.div_mod (v / 256) 256 ltac:(lia)) as E1.
  pose proof (Z.div_mod (v / 256 / 256) 256 ltac:(lia)) as E2.
  pose proof (Z.div_mod (v / 256 / 256 / 256) 256 ltac:(lia)) as E3.
  pose proof (Z.mod_pos_bound v 256 ltac:(lia)).
  pose proof (Z.mod_pos_bound (v / 256) 256 ltac:(lia)).
  pose proof (Z.mod_pos_bound (v / 256 / 256) 256 ltac:(lia)).
  pose proof (Z.mod_pos_bound (v / 256 / 256 / 256) 256 ltac:(lia)).
  apply (Z.mod_unique v (2 ^ 32) (v / 256 / 256 / 256 / 256)); [lia|].
  change (2 ^ 32) with (256 * 256 * 256 * 256). lia.
Qed.

Lemma le16_bytes v : v mod 256 + 256 * ((v / 2 ^ 8) mod 256) = v mod 2 ^ 16.
Proof.
  change (2 ^ 8) with 256.
  pose proof (Z.div_mod v 256 ltac:(lia)) as E0.
  pose proof (Z.div_mod (v / 256) 256 ltac:(lia)) as E1.
  pose proof (Z.mod_pos_bound v 256 ltac:(lia)).
  pose proof (Z.mod_pos_bound (v / 256) 256 ltac:(lia)).
  apply (Z.mod_unique v (2 ^ 16) (v / 256 / 256)); [lia|].
  change (2 ^ 16) with (256 * 256). lia.
Qed.

Lemma truncate_div a b : b <> 0 -> truncate (inject_Z a / inject_Z b) = Z.quot a b.
Proof.
  intros Hb. unfold truncate. destruct b as [|p|p]; [congruence| |]; cbn.
  - rewrite Z.mul_1_r. reflexivity.
  - rewrite <- Z.opp_eq_mul_m1, Z.quot_opp_l by lia.
    change (Z.neg p) with (- Z.pos p). rewrite Z.quot_opp_r by lia. reflexivity.
Qed.

Lemma truncate_int z : truncate (inject_Z z) = z.
Proof. unfold truncate. cbn. apply Z.quot_1_r. Qed.

(** A number written as a DWORD reads back as its integer part modulo 2^32. *)
Lemma u32_DWORD n rest :
  u32_at 0 (DWORD (VNum n) ++ rest) = Some (ToInt32 n mod 2 ^ 32).
Proof.
  unfold u32_at, DWORD. cbn [skipn app ToNumber].
  rewrite !Z_of_byte_of_Z, !land_255, !Z.shiftr_div_pow2 by lia.
  rewrite !Z.mod_mod by lia. rewrite le32_bytes. reflexivity.
Qed.

Lemma u32_DWORD_int z rest : u32_at 0 (DWORD (int z) ++ rest) = Some (z mod 2 ^ 32).
Proof.
  unfold int. rewrite u32_DWORD. cbn [ToInt32 ofZ].
  rewrite truncate_int, wrap32_mod. reflexivity.
Qed.

Lemma wrap32_mod16 z : wrap32 z mod 2 ^ 16 = z mod 2 ^ 16.
Proof.
  assert (D : (2 ^ 16 | 2 ^ 32)) by (exists (2 ^ 16); reflexivity).
  rewrite <- (Z.mod_mod_divide (wrap32 z) (2 ^ 32) (2 ^ 16) D).
  rewrite wrap32_mod. apply Z.mod_mod_divide. exact D.
Qed.

Lemma u16_WORD_int z rest : u16_at 0 (WORD (int z) ++ rest) = Some (z mod 2 ^ 16).
Proof.
  unfold u16_at, WORD, int. cbn [skipn app ToNumber ToInt32 ofZ].
  rewrite !Z_of_byte_of_Z, !land_255, !Z.shiftr_div_pow2 by lia.
  rewrite !Z.mod_mod by lia. rewrite le16_bytes, truncate_int, wrap32_mod16. reflexivity.
Qed.

Lemma u32_at_skipn off bytes z rest :
  skipn off bytes = DWORD (int z) ++ rest -> u32_at off bytes = Some (z mod 2 ^ 32).
Proof.
  intros E. rewrite <- (u32_DWORD_int z rest), <- E. unfold u32_at.
  rewrite skipn_O. reflexivity.
Qed.

Lemma u32_at_skipn_num off bytes n rest :
  skipn off bytes = DWORD (VNum n) ++ rest -> u32_at off bytes = Some (ToInt32 n mod 2 ^ 32).
Proof.
  intros E. rewrite <- (u32_DWORD n rest), <- E. unfold u32_at.
  rewrite skipn_O. reflexivity.
Qed.

Lemma u16_at_skipn off bytes z rest :
  skipn off bytes = WORD (int z) ++ rest -> u16_at off bytes = Some (z mod 2 ^ 16).
Proof.
  intros E. rewrite <- (u16_WORD_int z rest), <- E. unfold u16_at.
  rewrite skipn_O. reflexivity.
Qed.

(** A scalar of the output, read at an offset that lies in the headers. *)
Ltac read_u32 :=
  first [ eapply u32_at_skipn; reflexivity
        | erewrite u32_at_skipn by reflexivity; reflexivity ].

Ltac read_u16 :=
  first [ eapply u16_at_skipn; reflexivity
        | erewrite u16_at_skipn by reflexivity; reflexivity ].

(** The same behind the video stream list, once the audio track is known. *)
Ltac audio_header Ha := unfold riff_chunks, hdrl_chunks; rewrite Ha.

(** ** Lengths of what is written *)

Lemma declares_intro o name extra l chunks z :
  children o name = l ->
  appendArray appendStruct [] l = Ok chunks ->
  prop o "dwSize" = int z ->
  z = extra + Z.of_nat (List.length (flat_map part_bytes chunks)) ->
  declares o name extra.
Proof.
  intros Hc Hw Hd Hz. exists (flat_map part_bytes chunks). split.
  - unfold serialized_all. rewrite Hc, Hw. reflexivity.
  - rewrite (int_prop_int o "dwSize" z Hd). exact Hz.
Qed.

Lemma video_chunks_length frames :
  Z.of_nat (List.length (flat_map part_bytes
    (flat_map (fun blob => [VStr "00dc"; VBuf (DWORD (int (size blob))); VBlob blob]) frames)))
  = chunks_size frames.
Proof.
  induction frames as [|blob rest IH]; [reflexivity|].
  cbn [flat_map chunks_size]. rewrite !flat_map_app, !length_app, !Nat2Z.inj_add, IH.
  cbn [flat_map part_bytes app]. rewrite app_nil_r, !length_app, !Nat2Z.inj_add.
  change (List.length (utf8 "00dc")) with 4%nat.
  unfold size, DWORD. cbn [List.length]. lia.
Qed.

Lemma movi_children_length this :
  Z.of_nat (List.length (flat_map part_bytes
    (flat_map (fun blob => [VStr "00dc"; VBuf (DWORD (int (size blob))); VBlob blob])
       (frameList this)
     ++ match audio this with
        | Some t => [VStr "01wb"; VBuf (DWORD (int (size (audioBlob t))));
                     VBlob (audioBlob t)]
        | None => []
        end)))
  = moviSize this - 4.
Proof.
  rewrite flat_map_app, length_app, Nat2Z.inj_add, video_chunks_length.
  unfold moviSize. destruct (audio this) as [t|].
  - cbn [flat_map part_bytes app]. rewrite app_nil_r, !length_app, !Nat2Z.inj_add.
    change (List.length (utf8 "01wb")) with 4%nat.
    unfold size, DWORD. cbn [List.length]. lia.
  - cbn [flat_map List.length]. lia.
Qed.

Lemma video_index_bytes dwOffset frames :
  Z.of_nat (List.length (flat_map part_bytes (flat_map written (video_index dwOffset frames))))
  = 16 * Z.of_nat (List.length frames).
Proof.
  revert dwOffset. induction frames as [|blob rest IH]; intros dwOffset; [reflexivity|].
  cbn [video_index flat_map]. rewrite flat_map_app, length_app, Nat2Z.inj_add, IH.
  cbn [List.length]. rewrite Nat2Z.inj_succ.
  replace (List.length (flat_map part_bytes (written (IndexEntry "00dc" dwOffset (size blob)))))
    with 16%nat by reflexivity.
  lia.
Qed.

Lemma idx1_children_length this :
  Z.of_nat (List.length (flat_map part_bytes
    (flat_map written (frameIndices (all_streams this)))))
  = 16 * entries this.
Proof.
  rewrite all_streams_closed. unfold entries.
  destruct (audio this) as [t|]; cbn [frameIndices].
  - rewrite !flat_map_app, length_app, Nat2Z.inj_add, video_index_bytes.
    replace (List.length (flat_map part_bytes (flat_map written
               [IndexEntry "01wb" (4 + chunks_size (frameList this)) (size (audioBlob t))])))
      with 16%nat by reflexivity.
    lia.
  - rewrite video_index_bytes. lia.
Qed.

Lemma hdrl_children_length this :
  Z.of_nat (List.length (flat_map part_bytes
    (written (obj (avih this)) ++ written (obj (strl this))
     ++ match audio this with
        | Some t => written (obj (strl_audio this t))
        | None => []
        end)))
  = hdrlSize this - 4.
Proof.
  unfold hdrlSize. destruct (audio this) as [t|]; reflexivity.
Qed.

Lemma hdrl_chunks_length this :
  Z.of_nat (List.length (flat_map part_bytes (hdrl_chunks this))) = 8 + hdrlSize this.
Proof.
  unfold hdrl_chunks. rewrite flat_map_app, length_app, Nat2Z.inj_add, hdrl_children_length.
  replace (List.length (flat_map part_bytes
             [VStr "LIST"; VBuf (DWORD (int (hdrlSize this))); VStr "hdrl"]))
    with 12%nat by reflexivity.
  lia.
Qed.

Lemma movi_chunks_length this :
  Z.of_nat (List.length (flat_map part_bytes (movi_chunks this))) = 8 + moviSize this.
Proof.
  unfold movi_chunks. rewrite flat_map_app, length_app, Nat2Z.inj_add, movi_children_length.
  replace (List.length (flat_map part_bytes
             [VStr "LIST"; VBuf (DWORD (int (moviSize this))); VStr "movi"]))
    with 12%nat by reflexivity.
  lia.
Qed.

Lemma idx1_chunks_length this :
  Z.of_nat (List.length (flat_map part_bytes (idx1_chunks this))) = 8 + 16 * entries this.
Proof.
  unfold idx1_chunks. rewrite flat_map_app, length_app, Nat2Z.inj_add, idx1_children_length.
  replace (List.length (flat_map part_bytes
             [VStr "idx1"; VBuf (DWORD (int (16 * entries this)))]))
    with 8%nat by reflexivity.
  lia.
Qed.

Lemma riff_chunks_length this :
  Z.of_nat (List.length (flat_map part_bytes (riff_chunks this))) = 8 + aviSize this.
Proof.
  unfold riff_chunks.
  rewrite !flat_map_app, !length_app, !Nat2Z.inj_add,
    hdrl_chunks_length, movi_chunks_length, idx1_chunks_length.
  replace (List.length (flat_map part_bytes
             [VStr "RIFF"; VBuf (DWORD (int (aviSize this))); VStr "AVI "]))
    with 12%nat by reflexivity.
  unfold aviSize. lia.
Qed.

(** ** The accumulator *)

Lemma map_get_seq {A : Type} (g : option ascii -> A) (s : string) :
  map (fun i => g (String.get i s)) (seq 0 (String.length s))
  = map (fun c => g (Some c)) (list_ascii_of_string s).
Proof.
  induction s as [|c s IH]; [reflexivity|].
  cbn [String.length seq map list_ascii_of_string String.get].
  rewrite <- seq_shift, map_map. cbn [String.get]. rewrite IH. reflexivity.
Qed.

Lemma get_length (s : string) : String.get (String.length s) s = None.
Proof. induction s as [|c s IH]; [reflexivity | exact IH]. Qed.

Lemma length_list_ascii (s : string) :
  List.length (list_ascii_of_string s) = String.length s.
Proof. induction s as [|c s IH]; [reflexivity | cbn; rewrite IH; reflexivity]. Qed.

Lemma stored_char c :
  byte_of_Z (ToUint8 (ofZ (Z.of_N (N_of_ascii c)))) = char_byte c.
Proof.
  unfold char_byte, ToUint8, ofZ. rewrite truncate_int.
  unfold byte_of_Z. rewrite Z.mod_mod by lia. reflexivity.
Qed.

Lemma even_mod2 n : Nat.eqb (Nat.modulo n 2) 0 = Nat.even n.
Proof.
  destruct (Nat.even n) eqn:E.
  - apply Nat.even_spec in E. destruct E as [k ->].
    rewrite Nat.mul_comm, Nat.Div0.mod_mul. reflexivity.
  - assert (O : Nat.odd n = true) by (rewrite <- Nat.negb_even, E; reflexivity).
    apply Nat.odd_spec in O. destruct O as [k ->].
    rewrite Nat.add_comm, Nat.mul_comm, Nat.Div0.mod_add. reflexivity.
Qed.

Lemma frame_array_padded frame : frame_array frame = padded frame.
Proof.
  unfold frame_array, padded, charCodeAt.
  rewrite length_map, length_list_ascii, even_mod2.
  destruct (Nat.even (String.length frame)).
  - rewrite (map_get_seq (fun o => byte_of_Z (ToUint8 match o with
                                    | Some c => ofZ (Z.of_N (N_of_ascii c))
                                    | None => NonFinite
                                    end))).
    apply map_ext. intros c. apply stored_char.
  - rewrite seq_S, map_app. cbn [map Nat.add]. rewrite get_length.
    rewrite (map_get_seq (fun o => byte_of_Z (ToUint8 match o with
                                    | Some c => ofZ (Z.of_N (N_of_ascii c))
                                    | None => NonFinite
                                    end))).
    f_equal. apply map_ext. intros c. apply stored_char.
Qed.

Lemma padded_even frame : Nat.even (List.length (padded frame)) = true.
Proof.
  unfold padded.
  destruct (Nat.even (List.length (map char_byte (list_ascii_of_string frame)))) eqn:E;
    [exact E|].
  rewrite length_app, Nat.add_comm. cbn [List.length Nat.add].
  rewrite Nat.even_succ, <- Nat.negb_even, E. reflexivity.
Qed.

Lemma addFrame_closed u this frame :
  atob (slice 23 u) = Ok frame ->
  addFrame u this =
  Ok {| movieDesc :=
          mkMovieDesc (w (movieDesc this)) (h (movieDesc this)) (fps (movieDesc this))
            (videoStreamSize (movieDesc this) + Z.of_nat (List.length (padded frame)))
            (Z.max (maxJPEGSize (movieDesc this)) (Z.of_nat (List.length (padded frame))));
        avi := avi this;
        headerLIST := headerLIST this;
        moviLIST := moviLIST this;
        frameList := frameList this ++ [mkBlob (padded frame) "image/jpeg"];
        audio := audio this |}.
Proof.
  intros E. unfold addFrame. rewrite E. cbn [bind].
  unfold new_Blob, size. cbn [flat_map part_bytes blob_bytes].
  rewrite app_nil_r, frame_array_padded.
  replace (if maxJPEGSize (movieDesc this) <? Z.of_nat (List.length (padded frame))
           then Z.of_nat (List.length (padded frame)) else maxJPEGSize (movieDesc this))
    with (Z.max (maxJPEGSize (movieDesc this)) (Z.of_nat (List.length (padded frame))));
    [reflexivity|].
  destruct (Z.ltb_spec (maxJPEGSize (movieDesc this))
              (Z.of_nat (List.length (padded frame)))); lia.
Qed.

Lemma total_size_snoc blobs blob :
  total_size (blobs ++ [blob]) = total_size blobs + size blob.
Proof. induction blobs as [|b r IH]; cbn; [lia | rewrite IH; lia]. Qed.

Lemma max_size_snoc blobs blob :
  max_size (blobs ++ [blob]) = Z.max (max_size blobs) (size blob).
Proof.
  induction blobs as [|b r IH]; cbn [app max_size].
  - unfold size. lia.
  - rewrite IH. lia.
Qed.

Lemma reachable_accumulated this : reachable this -> accumulated this.
Proof.
  induction 1 as [| this fw fh f _ IH | this u this' _ IH Hadd
                  | this blob c r _ IH | this blob this' _ IH Hfin].
  - repeat split. constructor.
  - exact IH.
  - destruct (atob (slice 23 u)) as [frame|e] eqn:E.
    + rewrite (addFrame_closed u this frame E) in Hadd. injection Hadd as <-.
      destruct IH as (Hv & Hm & He). unfold accumulated.
      cbn [movieDesc frameList videoStreamSize maxJPEGSize].
      rewrite total_size_snoc, max_size_snoc, Hv, Hm. repeat split.
      apply Forall_app. split; [exact He|]. constructor; [|constructor].
      unfold size. cbn [blob_bytes]. rewrite Z.even_spec.
      pose proof (padded_even frame) as Hp. apply Nat.even_spec in Hp.
      destruct Hp as [k ->]. exists (Z.of_nat k). lia.
    + unfold addFrame in Hadd. rewrite E in Hadd. discriminate.
  - exact IH.
  - unfold finish in Hfin.
    destruct (appendStruct [] _) as [chunks|e]; [|discriminate].
    cbn in Hfin. injection Hfin as _ <-. exact IH.
Qed.

Lemma max_size_nonneg blobs : 0 <= max_size blobs.
Proof. induction blobs as [|b r IH]; cbn [max_size]; lia. Qed.

(** * The container produced by [finish] *)

Lemma u32_at_app pre n z rest :
  Z.of_nat (List.length pre) = n ->
  u32_at (Z.to_nat n) (pre ++ DWORD (int z) ++ rest) = Some (z mod 2 ^ 32).
Proof.
  intros <-. rewrite Nat2Z.id. eapply u32_at_skipn.
  rewrite skipn_app, Nat.sub_diag, skipn_all. reflexivity.
Qed.

(** C1. In every built output each list node declares the exact length
    of what its children are written as: the [movi] list 4 plus tag, size
    and payload of every data chunk, the [hdrl] list 4 plus the main
    header and each [strl] list (which declare their own children the same
    way), the [idx1] chunk 16 bytes per index entry, and the root RIFF
    chunk 4 plus header list, movie list and index chunk.  The sizes are
    found again in the bytes of the blob, modulo 2^32, behind the tags of
    the four nodes, and the root's is the length of the blob short of the
    8 bytes of its own tag and size. *)
Theorem C1_declared_sizes this :
  reachable this ->
  exists blob this',
    let riff := int_prop (avi this') "dwSize" in
    let hdrl := int_prop (headerLIST this') "dwSize" in
    let movi := int_prop (moviLIST this') "dwSize" in
    let idx1 := int_prop (indexChunk this) "dwSize" in
    finish this = Ok (blob, this')
    /\ declares (moviLIST this') "aStreams" 4
    /\ movi = 4 + chunks_size (frameList this
                               ++ match audio this with Some t => [audioBlob t] | None => [] end)
    /\ declares (headerLIST this') "aData" 4
    /\ children (headerLIST this') "aData"
       = match audio this with
         | Some t => [obj (avih this); obj (strl this); obj (strl_audio this t)]
         | None => [obj (avih this); obj (strl this)]
         end
    /\ declares (strl this) "aList" 4
    /\ (forall t, audio this = Some t -> declares (strl_audio this t) "aList" 4)
    /\ declares (indexChunk this) "aData" 0
    /\ idx1 = 16 * Z.of_nat (List.length (children (indexChunk this) "aData"))
    /\ declares (avi this') "aData" 4
    /\ children (avi this') "aData"
       = [obj (headerLIST this'); obj (moviLIST this'); obj (indexChunk this)]
    /\ serialized (obj (avi this')) = Ok (blob_bytes blob)
    /\ Z.of_nat (List.length (blob_bytes blob)) = 8 + riff
    /\ u32_at 4 (blob_bytes blob) = Some (riff mod 2 ^ 32)
    /\ u32_at 16 (blob_bytes blob) = Some (hdrl mod 2 ^ 32)
    /\ u32_at (Z.to_nat (24 + hdrl)) (blob_bytes blob) = Some (movi mod 2 ^ 32)
    /\ u32_at (Z.to_nat (32 + hdrl + movi)) (blob_bytes blob) = Some (idx1 mod 2 ^ 32).
Proof.
  intros Hr. pose proof (reachable_shaped this Hr) as Hs.
  eexists. eexists. cbv zeta. split; [apply (finish_closed this Hs)|].
  cbn [moviLIST headerLIST avi blob_bytes new_Blob].
  assert (Havi : int_prop (finish_avi this) "dwSize" = aviSize this).
  { apply int_prop_int. rewrite (finish_avi_closed this Hs). reflexivity. }
  assert (Hhdrl : int_prop (finish_headerLIST this) "dwSize" = hdrlSize this).
  { apply int_prop_int. rewrite (finish_headerLIST_closed this Hs). reflexivity. }
  assert (Hmovi : int_prop (finish_moviLIST this) "dwSize" = moviSize this).
  { apply int_prop_int. rewrite (finish_moviLIST_closed this Hs). reflexivity. }
  assert (Hidx : int_prop (indexChunk this) "dwSize" = 16 * entries this).
  { rewrite (int_prop_int _ _ (Z.of_nat (List.length (frameIndices (all_streams this))) * 16))
      by reflexivity.
    rewrite frameIndices_length. lia. }
  rewrite Havi, Hhdrl, Hmovi, Hidx. repeat apply conj.
  - eapply declares_intro.
    + rewrite (finish_moviLIST_closed this Hs). reflexivity.
    + apply aStreams_written.
    + rewrite (finish_moviLIST_closed this Hs). reflexivity.
    + rewrite movi_children_length. lia.
  - unfold moviSize. destruct (audio this) as [t|].
    + induction (frameList this) as [|b r IH]; cbn [chunks_size app] in *; lia.
    + rewrite app_nil_r. lia.
  - eapply declares_intro.
    + rewrite (finish_headerLIST_closed this Hs). reflexivity.
    + apply hdrl_children_written.
    + rewrite (finish_headerLIST_closed this Hs). reflexivity.
    + rewrite hdrl_children_length. lia.
  - rewrite (finish_headerLIST_closed this Hs). reflexivity.
  - eapply declares_intro; reflexivity.
  - intros t _. eapply declares_intro; reflexivity.
  - eapply declares_intro.
    + reflexivity.
    + apply frameIndices_written.
    + reflexivity.
    + rewrite idx1_children_length, frameIndices_length. lia.
  - change (children (indexChunk this) "aData") with (frameIndices (all_streams this)).
    rewrite frameIndices_length. reflexivity.
  - eapply declares_intro.
    + rewrite (finish_avi_closed this Hs). reflexivity.
    + apply (avi_children_written this Hs).
    + rewrite (finish_avi_closed this Hs). reflexivity.
    + rewrite !flat_map_app, !length_app, !Nat2Z.inj_add.
      rewrite hdrl_chunks_length, movi_chunks_length, idx1_chunks_length.
      unfold aviSize. lia.
  - rewrite (finish_avi_closed this Hs). reflexivity.
  - unfold serialized. rewrite (finish_written this Hs). reflexivity.
  - rewrite riff_chunks_length. reflexivity.
  - eapply u32_at_skipn. reflexivity.
  - eapply u32_at_skipn. reflexivity.
  - replace (flat_map part_bytes (riff_chunks this))
      with ((flat_map part_bytes
               ([VStr "RIFF"; VBuf (DWORD (int (aviSize this))); VStr "AVI "]
                ++ hdrl_chunks this) ++ utf8 "LIST")
            ++ DWORD (int (moviSize this))
            ++ flat_map part_bytes (tl (tl (movi_chunks this)) ++ idx1_chunks this)).
    + apply u32_at_app. rewrite length_app, flat_map_app, length_app, !Nat2Z.inj_add.
      rewrite hdrl_chunks_length.
      replace (Z.of_nat (List.length (flat_map part_bytes
                 [VStr "RIFF"; VBuf (DWORD (int (aviSize this))); VStr "AVI "])))
        with 12 by reflexivity.
      replace (Z.of_nat (List.length (utf8 "LIST"))) with 4 by reflexivity.
      lia.
    + unfold riff_chunks, movi_chunks. rewrite !flat_map_app.
      cbn [flat_map part_bytes tl app]. rewrite ?flat_map_app, <- ?app_assoc.
      cbn [app]. reflexivity.
  - replace (flat_map part_bytes (riff_chunks this))
      with ((flat_map part_bytes
               ([VStr "RIFF"; VBuf (DWORD (int (aviSize this))); VStr "AVI "]
                ++ hdrl_chunks this ++ movi_chunks this) ++ utf8 "idx1")
            ++ DWORD (int (16 * entries this))
            ++ flat_map part_bytes (tl (tl (idx1_chunks this)))).
    + apply u32_at_app.
      rewrite length_app, !flat_map_app, !length_app, !Nat2Z.inj_add.
      rewrite hdrl_chunks_length, movi_chunks_length.
      replace (Z.of_nat (List.length (flat_map part_bytes
                 [VStr "RIFF"; VBuf (DWORD (int (aviSize this))); VStr "AVI "])))
        with 12 by reflexivity.
      replace (Z.of_nat (List.length (utf8 "idx1"))) with 4 by reflexivity.
      lia.
    + unfold riff_chunks, idx1_chunks. rewrite !flat_map_app.
      cbn [flat_map part_bytes tl app]. rewrite ?flat_map_app, <- ?app_assoc.
      cbn [app]. reflexivity.
Qed.

Lemma nth_video_index i frames dwOffset dflt :
  (i < List.length frames)%nat ->
  nth i (video_index dwOffset frames) VUndefined
  = IndexEntry "00dc" (dwOffset + chunks_size (firstn i frames)) (size (nth i frames dflt)).
Proof.
  revert i dwOffset. induction frames as [|blob rest IH]; intros i dwOffset Hi;
    [cbn in Hi; lia|].
  destruct i as [|i].
  - cbn. rewrite Z.add_0_r. reflexivity.
  - rewrite firstn_cons. cbn [video_index nth chunks_size].
    rewrite (IH i) by (cbn in Hi; lia). rewrite !Z.add_assoc. reflexivity.
Qed.

Lemma chunks_size_step i frames dflt :
  (i < List.length frames)%nat ->
  chunks_size (firstn (S i) frames)
  = chunks_size (firstn i frames) + size (nth i frames dflt) + 8.
Proof.
  revert i. induction frames as [|blob rest IH]; intros i Hi; [cbn in Hi; lia|].
  destruct i as [|i].
  - cbn. lia.
  - rewrite !firstn_cons. cbn [chunks_size nth].
    rewrite (IH i) by (cbn in Hi; lia). lia.
Qed.

Lemma size_nonneg blob : 0 <= size blob.
Proof. unfold size. lia. Qed.

Lemma chunk_offset_increasing frames i j :
  (i < j <= List.length frames)%nat -> chunk_offset frames i < chunk_offset frames j.
Proof.
  unfold chunk_offset. intros [Hij Hj]. induction Hij as [|j Hij IH].
  - rewrite (chunks_size_step i frames (mkBlob [] "")) by lia.
    pose proof (size_nonneg (nth i frames (mkBlob [] ""))). lia.
  - rewrite (chunks_size_step j frames (mkBlob [] "")) by lia.
    pose proof (size_nonneg (nth j frames (mkBlob [] ""))).
    specialize (IH ltac:(lia)). lia.
Qed.

Lemma Qeq_bool_inject_Z f : f <> 0 -> Qeq_bool (inject_Z f) 0 = false.
Proof.
  intros Hf. destruct (Qeq_bool (inject_Z f) 0) eqn:E; [|reflexivity].
  apply Qeq_bool_eq in E. unfold Qeq in E. cbn in E. lia.
Qed.

(** The frame duration at an integral frame rate. *)
Lemma frameDu_floor this f :
  fps (movieDesc this) = inject_Z f -> 0 < f ->
  frameDu this = ofZ (1000000 / f).
Proof.
  intros E Hf. unfold frameDu, js_div, RateBase, ofZ. rewrite E.
  rewrite Qeq_bool_inject_Z by lia.
  destruct (round_double_quotient 1000000 f ltac:(split; [lia | reflexivity]) Hf)
    as (r & -> & Hr & _).
  cbn [Math_floor]. rewrite Hr. reflexivity.
Qed.

Lemma frameDu_zero this :
  (fps (movieDesc this) == 0)%Q -> frameDu this = NonFinite.
Proof.
  intros E. unfold frameDu, js_div, ofZ.
  apply Qeq_bool_iff in E. rewrite E. reflexivity.
Qed.

Lemma ToInt32_int_mod z : ToInt32 (ofZ z) mod 2 ^ 32 = z mod 2 ^ 32.
Proof. cbn [ToInt32 ofZ]. rewrite truncate_int. apply wrap32_mod. Qed.

(** C3, as the code has it. [finish] checks neither the frame rate nor
    the number of frames: in every state it returns a blob of type
    [video/avi] and raises nothing; with a frame rate of zero the frame
    duration is written as 0, and with no frames the frame count is. *)
Theorem C3_finish_returns this :
  reachable this ->
  exists blob this',
    finish this = Ok (blob, this')
    /\ blob_type blob = "video/avi"
    /\ ((fps (movieDesc this) == 0)%Q -> u32_at 32 (blob_bytes blob) = Some 0)
    /\ (frameList this = [] -> u32_at 48 (blob_bytes blob) = Some 0).
Proof.
  intros Hr. pose proof (reachable_shaped this Hr) as Hs.
  eexists. eexists. split; [apply (finish_closed this Hs)|].
  cbn [blob_type blob_bytes new_Blob]. repeat apply conj.
  - reflexivity.
  - intros Hf. erewrite u32_at_skipn_num by reflexivity.
    rewrite (frameDu_zero this Hf). reflexivity.
  - intros Hn. erewrite u32_at_skipn by reflexivity.
    unfold frameCount. rewrite Hn. reflexivity.
Qed.

(** C4, as the code has it.  With a positive frame rate and at least
    one frame, the main header of the output, first child of the header
    list, carries the configured width and height, the has-index flag and
    a stream count of 2, with or without an audio track; as frame
    duration the floor of the double 1000000 / fps, and as bytes per
    second the integer part of the double product of the largest frame
    size and fps, each modulo 2^32.  At an integral frame rate the
    duration is floor(1000000 / fps) exactly, and the bytes per second are
    the largest frame size times fps as long as that is at most 2^53. *)
Theorem C4_main_header this :
  reachable this ->
  (0 < fps (movieDesc this))%Q ->
  frameList this <> [] ->
  let duration := Math_floor (js_div (ofZ 1000000) (fps (movieDesc this))) in
  let rate := js_mul (ofZ (max_size (frameList this))) (Finite (fps (movieDesc this))) in
  exists blob this',
    finish this = Ok (blob, this')
    /\ nth 0 (children (headerLIST this') "aData") VUndefined = obj (avih this)
    /\ prop (avih this) "dwMicroSecPerFrame" = VNum duration
    /\ prop (avih this) "dwMaxBytesPerSec" = VNum rate
    /\ prop (avih this) "dwWidth" = int (w (movieDesc this))
    /\ prop (avih this) "dwHeight" = int (h (movieDesc this))
    /\ prop (avih this) "dwFlags" = int AVIF_HASINDEX
    /\ prop (avih this) "dwStreams" = int 2
    /\ u32_at 32 (blob_bytes blob) = Some (ToInt32 duration mod 2 ^ 32)
    /\ u32_at 36 (blob_bytes blob) = Some (ToInt32 rate mod 2 ^ 32)
    /\ u32_at 44 (blob_bytes blob) = Some 16
    /\ u32_at 56 (blob_bytes blob) = Some 2
    /\ u32_at 64 (blob_bytes blob) = Some (w (movieDesc this) mod 2 ^ 32)
    /\ u32_at 68 (blob_bytes blob) = Some (h (movieDesc this) mod 2 ^ 32)
    /\ (forall f,
          fps (movieDesc this) = inject_Z f ->
          duration = ofZ (1000000 / f)
          /\ u32_at 32 (blob_bytes blob) = Some ((1000000 / f) mod 2 ^ 32)
          /\ (max_size (frameList this) * f <= 2 ^ 53 ->
              rate = ofZ (max_size (frameList this) * f)
              /\ u32_at 36 (blob_bytes blob)
                 = Some ((max_size (frameList this) * f) mod 2 ^ 32))).
Proof.
  intros Hr Hf _. cbv zeta. pose proof (reachable_shaped this Hr) as Hs.
  destruct (reachable_accumulated this Hr) as (_ & Hm & _).
  eexists. eexists. split; [apply (finish_closed this Hs)|].
  cbn [headerLIST blob_bytes new_Blob]. rewrite <- Hm.
  assert (H32 : u32_at 32 (flat_map part_bytes (riff_chunks this))
                = Some (ToInt32 (frameDu this) mod 2 ^ 32))
    by (erewrite u32_at_skipn_num by reflexivity; reflexivity).
  assert (H36 : u32_at 36 (flat_map part_bytes (riff_chunks this))
                = Some (ToInt32 (js_mul (ofZ (maxJPEGSize (movieDesc this)))
                                   (Finite (fps (movieDesc this)))) mod 2 ^ 32))
    by (erewrite u32_at_skipn_num by reflexivity; reflexivity).
  repeat apply conj.
  - rewrite (finish_headerLIST_closed this Hs). destruct (audio this); reflexivity.
  - reflexivity.
  - reflexivity.
  - reflexivity.
  - reflexivity.
  - reflexivity.
  - reflexivity.
  - exact H32.
  - exact H36.
  - read_u32.
  - read_u32.
  - read_u32.
  - read_u32.
  - intros f E.
    assert (Hp : 0 < f).
    { rewrite E in Hf. unfold Qlt in Hf. cbn in Hf. lia. }
    pose proof (frameDu_floor this f E Hp) as Hdu. unfold frameDu, RateBase in Hdu.
    pose proof (max_size_nonneg (frameList this)) as Hmax. rewrite <- Hm in Hmax.
    repeat apply conj.
    + exact Hdu.
    + rewrite H32. unfold frameDu, RateBase. rewrite Hdu. f_equal. apply ToInt32_int_mod.
    + intros Hb.
      assert (Hb' : Z.abs (maxJPEGSize (movieDesc this) * f) <= 2 ^ 53)
        by (rewrite Z.abs_eq by nia; exact Hb).
      rewrite H36, E. change (Finite (inject_Z f)) with (ofZ f).
      rewrite (js_mul_int _ _ Hb'). split; [reflexivity|].
      f_equal. apply ToInt32_int_mod.
Qed.

(** C5. For any number N of frames and any frame rate, the main header's
    [dwTotalFrames] and the video stream header's [dwLength] are both N,
    in the descriptors and in the bytes of the output. *)
Theorem C5_frame_counts this :
  reachable this ->
  exists blob this',
    finish this = Ok (blob, this')
    /\ nth 0 (children (headerLIST this') "aData") VUndefined = obj (avih this)
    /\ nth 1 (children (headerLIST this') "aData") VUndefined = obj (strl this)
    /\ nth 0 (children (strl this) "aList") VUndefined = obj (strh this)
    /\ prop (avih this) "dwTotalFrames" = int (Z.of_nat (List.length (frameList this)))
    /\ prop (strh this) "dwLength" = int (Z.of_nat (List.length (frameList this)))
    /\ u32_at 48 (blob_bytes blob)
       = Some (Z.of_nat (List.length (frameList this)) mod 2 ^ 32)
    /\ u32_at 140 (blob_bytes blob)
       = Some (Z.of_nat (List.length (frameList this)) mod 2 ^ 32).
Proof.
  intros Hr. pose proof (reachable_shaped this Hr) as Hs.
  eexists. eexists. split; [apply (finish_closed this Hs)|].
  cbn [headerLIST blob_bytes new_Blob]. repeat apply conj.
  - rewrite (finish_headerLIST_closed this Hs). destruct (audio this); reflexivity.
  - rewrite (finish_headerLIST_closed this Hs). destruct (audio this); reflexivity.
  - reflexivity.
  - reflexivity.
  - reflexivity.
  - read_u32.
  - read_u32.
Qed.

(** The length of the audio stream at an integral frame rate, the
    number of samples having at most 53 bits. *)
Lemma js_div_int a f :
  0 <= a < 2 ^ 53 -> 0 < f ->
  exists r, js_div (ofZ a) (inject_Z f) = Finite r
            /\ Qfloor r = a / f
            /\ ToInt32 (Finite r) mod 2 ^ 32 = (a / f) mod 2 ^ 32.
Proof.
  intros Ha Hf. unfold js_div, ofZ. rewrite Qeq_bool_inject_Z by lia.
  destruct (round_double_quotient a f Ha Hf) as (r & -> & Hfl & Htr).
  exists r. repeat split; [exact Hfl|].
  cbn [ToInt32]. rewrite Htr. apply wrap32_mod.
Qed.

(** C6, as the code has it.  With an audio track, the audio stream
    header of the output has
    scale 1 and sample size 2; its rate is the double product
    channels * sampleRate and its length the double quotient of
    channels * sampleRate * frameCount by fps, written as their integer
    parts modulo 2^32.  With a positive integral frame rate, and
    channels * sampleRate and channels * sampleRate * frameCount not
    negative and below 2^53, the rate is channels * sampleRate and the
    length the integer quotient of channels * sampleRate * frameCount by
    fps. *)
Theorem C6_audio_stream_header this t :
  reachable this ->
  audio this = Some t ->
  let frames := Z.of_nat (List.length (frameList this)) in
  let rate := js_mul (ofZ (audioNumChannels t)) (ofZ (audioSampleRate t)) in
  let length := js_div (js_mul rate (ofZ frames)) (fps (movieDesc this)) in
  exists blob this',
    finish this = Ok (blob, this')
    /\ nth 2 (children (headerLIST this') "aData") VUndefined = obj (strl_audio this t)
    /\ nth 0 (children (strl_audio this t) "aList") VUndefined = obj (strh_audio this t)
    /\ prop (strh_audio this t) "dwScale" = int 1
    /\ prop (strh_audio this t) "dwRate" = VNum rate
    /\ prop (strh_audio this t) "dwSampleSize" = int 2
    /\ prop (strh_audio this t) "dwLength" = VNum length
    /\ u32_at 252 (blob_bytes blob) = Some 1
    /\ u32_at 256 (blob_bytes blob) = Some (ToInt32 rate mod 2 ^ 32)
    /\ u32_at 264 (blob_bytes blob) = Some (ToInt32 length mod 2 ^ 32)
    /\ u32_at 276 (blob_bytes blob) = Some 2
    /\ (forall f,
          fps (movieDesc this) = inject_Z f -> 0 < f ->
          0 <= audioNumChannels t * audioSampleRate t < 2 ^ 53 ->
          0 <= audioNumChannels t * audioSampleRate t * frames < 2 ^ 53 ->
          let samples := audioNumChannels t * audioSampleRate t * frames in
          rate = ofZ (audioNumChannels t * audioSampleRate t)
          /\ (exists r, length = Finite r /\ Qfloor r = samples / f)
          /\ u32_at 256 (blob_bytes blob)
             = Some ((audioNumChannels t * audioSampleRate t) mod 2 ^ 32)
          /\ u32_at 264 (blob_bytes blob) = Some ((samples / f) mod 2 ^ 32)).
Proof.
  intros Hr Ha. cbv zeta. pose proof (reachable_shaped this Hr) as Hs.
  eexists. eexists. split; [apply (finish_closed this Hs)|].
  cbn [headerLIST blob_bytes new_Blob].
  assert (H256 : u32_at 256 (flat_map part_bytes (riff_chunks this))
                 = Some (ToInt32 (js_mul (ofZ (audioNumChannels t))
                                    (ofZ (audioSampleRate t))) mod 2 ^ 32))
    by (audio_header Ha; erewrite u32_at_skipn_num by reflexivity; reflexivity).
  assert (H264 : u32_at 264 (flat_map part_bytes (riff_chunks this))
                 = Some (ToInt32
                           (js_div (js_mul (js_mul (ofZ (audioNumChannels t))
                                              (ofZ (audioSampleRate t)))
                                      (ofZ (frameCount this)))
                              (fps (movieDesc this))) mod 2 ^ 32))
    by (audio_header Ha; erewrite u32_at_skipn_num by reflexivity; reflexivity).
  repeat apply conj.
  - rewrite (finish_headerLIST_closed this Hs), Ha. reflexivity.
  - reflexivity.
  - reflexivity.
  - reflexivity.
  - reflexivity.
  - reflexivity.
  - audio_header Ha. read_u32.
  - exact H256.
  - exact H264.
  - audio_header Ha. read_u32.
  - intros f E Hf Hcs Hsamples.
    assert (Erate : js_mul (ofZ (audioNumChannels t)) (ofZ (audioSampleRate t))
                    = ofZ (audioNumChannels t * audioSampleRate t))
      by (apply js_mul_int; rewrite Z.abs_eq by lia; lia).
    assert (Esamples : js_mul (ofZ (audioNumChannels t * audioSampleRate t))
                         (ofZ (Z.of_nat (List.length (frameList this))))
                       = ofZ (audioNumChannels t * audioSampleRate t
                              * Z.of_nat (List.length (frameList this))))
      by (apply js_mul_int; rewrite Z.abs_eq by lia; lia).
    destruct (js_div_int _ f Hsamples Hf) as (r & Er & Hfl & Hbytes).
    repeat apply conj.
    + exact Erate.
    + exists r. rewrite Erate, Esamples, E. split; [exact Er | exact Hfl].
    + rewrite H256, Erate. f_equal. apply ToInt32_int_mod.
    + rewrite H264. unfold frameCount. rewrite Erate, Esamples, E, Er. f_equal. exact Hbytes.
Qed.

(** C7, as the code has it.  With an audio track, the audio format
    record of the output
    reports the given channel count and sample rate, 16 bits per sample,
    a block alignment of 2, the PCM format code 1, and as average bytes
    per second the double product sampleRate * channels, written as its
    integer part modulo 2^32: sampleRate * channels itself as long as
    that is at most 2^53 in absolute value. *)
Theorem C7_audio_format this t :
  reachable this ->
  audio this = Some t ->
  let rate := js_mul (ofZ (audioSampleRate t)) (ofZ (audioNumChannels t)) in
  exists blob this',
    finish this = Ok (blob, this')
    /\ nth 2 (children (headerLIST this') "aData") VUndefined = obj (strl_audio this t)
    /\ nth 1 (children (strl_audio this t) "aList") VUndefined = obj (strf_audio t)
    /\ prop (strf_audio t) "sContent" = obj (wh t)
    /\ prop (wh t) "wFormatTag" = int 1
    /\ prop (wh t) "wnChannels" = int (audioNumChannels t)
    /\ prop (wh t) "dwnSamplesPerSec" = int (audioSampleRate t)
    /\ prop (wh t) "dwnAvgBytesPerSec" = VNum rate
    /\ prop (wh t) "wnBlockAlign" = int 2
    /\ prop (wh t) "wBitsPerSample" = int 16
    /\ u16_at 296 (blob_bytes blob) = Some 1
    /\ u16_at 298 (blob_bytes blob) = Some (audioNumChannels t mod 2 ^ 16)
    /\ u32_at 300 (blob_bytes blob) = Some (audioSampleRate t mod 2 ^ 32)
    /\ u32_at 304 (blob_bytes blob) = Some (ToInt32 rate mod 2 ^ 32)
    /\ u16_at 308 (blob_bytes blob) = Some 2
    /\ u16_at 310 (blob_bytes blob) = Some 16
    /\ (Z.abs (audioSampleRate t * audioNumChannels t) <= 2 ^ 53 ->
        rate = ofZ (audioSampleRate t * audioNumChannels t)
        /\ u32_at 304 (blob_bytes blob)
           = Some ((audioSampleRate t * audioNumChannels t) mod 2 ^ 32)).
Proof.
  intros Hr Ha. cbv zeta. pose proof (reachable_shaped this Hr) as Hs.
  eexists. eexists. split; [apply (finish_closed this Hs)|].
  cbn [headerLIST blob_bytes new_Blob].
  assert (H304 : u32_at 304 (flat_map part_bytes (riff_chunks this))
                 = Some (ToInt32 (js_mul (ofZ (audioSampleRate t))
                                    (ofZ (audioNumChannels t))) mod 2 ^ 32))
    by (audio_header Ha; erewrite u32_at_skipn_num by reflexivity; reflexivity).
  repeat apply conj.
  - rewrite (finish_headerLIST_closed this Hs), Ha. reflexivity.
  - reflexivity.
  - reflexivity.
  - reflexivity.
  - reflexivity.
  - reflexivity.
  - reflexivity.
  - reflexivity.
  - reflexivity.
  - audio_header Ha. read_u16.
  - audio_header Ha. read_u16.
  - audio_header Ha. read_u32.
  - exact H304.
  - audio_header Ha. read_u16.
  - audio_header Ha. read_u16.
  - intros Hb. rewrite H304, (js_mul_int _ _ Hb). split; [reflexivity|].
    f_equal. apply ToInt32_int_mod.
Qed.

(** ** [finish] reads only what was accumulated *)

Lemma riff_chunks_ext this1 this2 :
  movieDesc this1 = movieDesc this2 ->
  frameList this1 = frameList this2 ->
  audio this1 = audio this2 ->
  riff_chunks this1 = riff_chunks this2.
Proof.
  destruct this1, this2. cbn [movieDesc frameList audio]. intros -> -> ->. reflexivity.
Qed.

Lemma finish_state_ext this1 this2 :
  shaped this1 -> shaped this2 ->
  movieDesc this1 = movieDesc this2 ->
  frameList this1 = frameList this2 ->
  audio this1 = audio this2 ->
  finish_avi this1 = finish_avi this2
  /\ finish_headerLIST this1 = finish_headerLIST this2
  /\ finish_moviLIST this1 = finish_moviLIST this2.
Proof.
  intros H1 H2 Em Ef Ea.
  assert (Eh : finish_headerLIST this1 = finish_headerLIST this2).
  { rewrite (finish_headerLIST_closed this1 H1), (finish_headerLIST_closed this2 H2).
    destruct this1, this2. cbn [movieDesc frameList audio] in *. subst. reflexivity. }
  assert (Ev : finish_moviLIST this1 = finish_moviLIST this2).
  { rewrite (finish_moviLIST_closed this1 H1), (finish_moviLIST_closed this2 H2).
    destruct this1, this2. cbn [movieDesc frameList audio] in *. subst. reflexivity. }
  repeat apply conj; [|exact Eh|exact Ev].
  rewrite (finish_avi_closed this1 H1), (finish_avi_closed this2 H2), Eh, Ev.
  destruct this1, this2. cbn [movieDesc frameList audio] in *. subst. reflexivity.
Qed.

(** C8. A second [finish] on the state the first one left returns the
    same bytes and leaves the state as it was; and two builders holding
    the same frames, audio track and configuration return the same bytes,
    whatever earlier calls left in their descriptors. *)
Theorem C8_finish_idempotent :
  (forall this blob this',
      reachable this -> finish this = Ok (blob, this') -> finish this' = Ok (blob, this'))
  /\ (forall this1 this2,
         reachable this1 -> reachable this2 ->
         movieDesc this1 = movieDesc this2 ->
         frameList this1 = frameList this2 ->
         audio this1 = audio this2 ->
         exists blob this1' this2',
           finish this1 = Ok (blob, this1') /\ finish this2 = Ok (blob, this2')).
Proof.
  split.
  - intros this blob this' Hr Hfin.
    pose proof (reachable_shaped this Hr) as Hs.
    pose proof (reachable_shaped this' (reach_finish this blob this' Hr Hfin)) as Hs'.
    rewrite (finish_closed this Hs) in Hfin. injection Hfin as Eb Et.
    assert (Em : movieDesc this' = movieDesc this) by (rewrite <- Et; reflexivity).
    assert (Ef : frameList this' = frameList this) by (rewrite <- Et; reflexivity).
    assert (Ea : audio this' = audio this) by (rewrite <- Et; reflexivity).
    rewrite (finish_closed this' Hs'), (riff_chunks_ext this' this Em Ef Ea).
    destruct (finish_state_ext this' this Hs' Hs Em Ef Ea) as (-> & -> & ->).
    rewrite Em, Ef, Ea, Eb, Et. reflexivity.
  - intros this1 this2 Hr1 Hr2 Em Ef Ea.
    pose proof (reachable_shaped this1 Hr1) as Hs1.
    pose proof (reachable_shaped this2 Hr2) as Hs2.
    eexists. eexists. eexists. split; [apply (finish_closed this1 Hs1)|].
    rewrite (finish_closed this2 Hs2), (riff_chunks_ext this1 this2 Em Ef Ea).
    reflexivity.
Qed.

(** * The accumulator *)

Lemma slice_append (prefix rest : string) :
  slice (String.length prefix) (prefix ++ rest)%string = rest.
Proof. induction prefix as [|c p IH]; [destruct rest; reflexivity | exact IH]. Qed.

(** C10. [addFrame] drops the first 23 characters of its argument and
    decodes the rest as base64; the frame it stores is the decoded bytes,
    followed by one zero byte when their number is odd, so of even length;
    the running stream size grows by that length and the largest frame
    size is taken over it; the chunk later made for the frame declares
    that length and pushes those bytes.  When the rest is not base64 the
    exception of [atob] propagates.  So in every state reached, all frames
    have an even length, and the stream size and largest size are those of
    the stored frames. *)
Theorem C10_addFrame_padding :
  (forall prefix rest, String.length prefix = 23%nat -> slice 23 (prefix ++ rest)%string = rest)
  /\ (forall u this,
         match atob (slice 23 u) with
         | Throw e => addFrame u this = Throw e
         | Ok frame =>
             let decoded := map char_byte (list_ascii_of_string frame) in
             let stored := if Nat.even (List.length decoded) then decoded
                           else decoded ++ [x00] in
             let blob := mkBlob stored "image/jpeg" in
             exists this',
               addFrame u this = Ok this'
               /\ frameList this' = frameList this ++ [blob]
               /\ Nat.even (List.length stored) = true
               /\ videoStreamSize (movieDesc this')
                  = videoStreamSize (movieDesc this) + Z.of_nat (List.length stored)
               /\ maxJPEGSize (movieDesc this')
                  = Z.max (maxJPEGSize (movieDesc this)) (Z.of_nat (List.length stored))
               /\ addVideoStreamData [] blob
                  = ([video_chunk blob], Z.of_nat (List.length stored) + 8)
               /\ written (video_chunk blob)
                  = [VStr "00dc"; VBuf (DWORD (int (Z.of_nat (List.length stored))));
                     VBlob blob]
         end)
  /\ (forall this,
         reachable this ->
         Forall (fun blob => Z.even (size blob) = true) (frameList this)
         /\ videoStreamSize (movieDesc this) = total_size (frameList this)
         /\ maxJPEGSize (movieDesc this) = max_size (frameList this)).
Proof.
  repeat apply conj.
  - intros prefix rest <-. apply slice_append.
  - intros u this. destruct (atob (slice 23 u)) as [frame|e] eqn:E.
    + cbv zeta. fold (padded frame). eexists.
      split; [apply (addFrame_closed u this frame E)|].
      cbn [frameList movieDesc videoStreamSize maxJPEGSize]. repeat apply conj.
      * reflexivity.
      * apply padded_even.
      * reflexivity.
      * reflexivity.
      * reflexivity.
      * reflexivity.
    + unfold addFrame. rewrite E. reflexivity.
  - intros this Hr. destruct (reachable_accumulated this Hr) as (Hv & Hm & He).
    repeat apply conj; assumption.
Qed.

(** * The writer's contract *)

Lemma encode_unfold od fields :
  encode (VObj (Some od) fields)
  = flat_map (fun name => encode_field encode name (get_field (Some od) fields name)) od.
Proof.
  cbn [encode]. apply flat_map_ext. intros name.
  induction fields as [|[k v] fs IH]; cbn [get_field].
  - unfold encode_field.
    destruct (not_own_cases (Some od) name) as [[-> _] | [-> | [f ->]]];
      [reflexivity | |]; destruct (field_kind name); reflexivity.
  - destruct (String.eqb k name); [reflexivity | exact IH].
Qed.

Lemma forallb_ext' {A : Type} (f g : A -> bool) l :
  (forall x, f x = g x) -> forallb f l = forallb g l.
Proof. intros E. induction l as [|x l IH]; cbn; [reflexivity | rewrite E, IH; reflexivity]. Qed.

Lemma well_formed_unfold od fields :
  well_formed (VObj (Some od) fields)
  = forallb (fun name => field_ok well_formed name (get_field (Some od) fields name)) od.
Proof.
  cbn [well_formed]. apply forallb_ext'. intros name.
  induction fields as [|[k v] fs IH]; cbn [get_field].
  - unfold field_ok.
    destruct (not_own_cases (Some od) name) as [[-> _] | [-> | [f ->]]];
      [reflexivity | |]; destruct (field_kind name); reflexivity.
  - destruct (String.eqb k name); [reflexivity | exact IH].
Qed.

Lemma schema_ok_unfold od fields :
  schema_ok (VObj (Some od) fields)
  = forallb (fun name => field_schema_ok schema_ok name (get_field (Some od) fields name)) od.
Proof.
  cbn [schema_ok]. apply forallb_ext'. intros name.
  induction fields as [|[k v] fs IH]; cbn [get_field].
  - unfold field_schema_ok.
    destruct (not_own_cases (Some od) name) as [[-> _] | [-> | [f ->]]];
      [reflexivity | |]; destruct (field_kind name); reflexivity.
  - destruct (String.eqb k name); [reflexivity | exact IH].
Qed.

Lemma appendFields_app_nil bb order fields od :
  appendFields bb order fields od = appended (appendFields [] order fields od) bb.
Proof.
  apply appendFields_app. intros name bb'.
  apply (proj2 ((fun s => appendStruct_app_field s) (get_field order fields name))).
Qed.

(** ** Scalars, against their bytes by division *)

Lemma byte_of_Z_mod x y : x mod 256 = y mod 256 -> byte_of_Z x = byte_of_Z y.
Proof. unfold byte_of_Z. intros ->. reflexivity. Qed.

Lemma wrap32_shift z : exists m, wrap32 z = z + m * 2 ^ 32.
Proof.
  unfold wrap32. pose proof (Z.div_mod z (2 ^ 32) ltac:(lia)) as E.
  destruct (2 ^ 31 <=? z mod 2 ^ 32).
  - exists (- (z / 2 ^ 32) - 1). lia.
  - exists (- (z / 2 ^ 32)). lia.
Qed.

Lemma shifted_byte z m d e :
  0 < d -> d * e * 256 = 2 ^ 32 ->
  ((z + m * 2 ^ 32) / d) mod 256 = (z / d) mod 256.
Proof.
  intros Hd <-.
  replace (z + m * (d * e * 256)) with (z + (m * e * 256) * d) by lia.
  rewrite Z.div_add by lia.
  replace (z / d + m * e * 256) with (z / d + (m * e) * 256) by lia.
  apply Z.mod_add. lia.
Qed.

Lemma written_byte z k d e :
  0 <= k -> d = 2 ^ k -> d * e * 256 = 2 ^ 32 ->
  byte_of_Z (Z.land (Z.shiftr (wrap32 z) k) 255) = byte_of_Z ((z / d) mod 256).
Proof.
  intros Hk -> He. apply byte_of_Z_mod.
  rewrite land_255, Z.shiftr_div_pow2, !Z.mod_mod by lia.
  destruct (wrap32_shift z) as [m ->].
  apply (shifted_byte z m (2 ^ k) e); [apply Z.pow_pos_nonneg; lia | exact He].
Qed.

Lemma written_byte0 z :
  byte_of_Z (Z.land (wrap32 z) 255) = byte_of_Z (z mod 256).
Proof.
  rewrite <- (Z.shiftr_0_r (wrap32 z)), (written_byte z 0 1 (2 ^ 24)) by lia.
  rewrite Z.div_1_r. reflexivity.
Qed.

Lemma DWORD_le_bytes n : DWORD (VNum n) = le_bytes 4 (int_part (VNum n)).
Proof.
  destruct n as [q|]; [|reflexivity].
  unfold DWORD. cbn [ToNumber ToInt32 int_part le_bytes].
  rewrite written_byte0, (written_byte _ 8 256 (2 ^ 16)),
    (written_byte _ 16 65536 (2 ^ 8)), (written_byte _ 24 16777216 1) by lia.
  rewrite !Z.div_div by lia. reflexivity.
Qed.

Lemma WORD_le_bytes n : WORD (VNum n) = le_bytes 2 (int_part (VNum n)).
Proof.
  destruct n as [q|]; [|reflexivity].
  unfold WORD. cbn [ToNumber ToInt32 int_part le_bytes].
  rewrite written_byte0, (written_byte _ 8 256 (2 ^ 16)) by lia. reflexivity.
Qed.

Lemma WORD_BE_le_bytes n : WORD_BE (VNum n) = rev (le_bytes 2 (int_part (VNum n))).
Proof.
  destruct n as [q|]; [|reflexivity].
  unfold WORD_BE. cbn [ToNumber ToInt32 int_part le_bytes rev app].
  rewrite written_byte0, (written_byte _ 8 256 (2 ^ 16)) by lia. reflexivity.
Qed.

Lemma BYTE_le_bytes n : BYTE (VNum n) = le_bytes 1 (int_part (VNum n)).
Proof.
  destruct n as [q|]; [reflexivity|reflexivity].
Qed.

Lemma well_formed_written (s : value) :
  (well_formed s = true -> appendStruct [] s = Ok (encode s))
  /\ (forall name, field_ok well_formed name s = true ->
        appendField appendStruct [] name s = Ok (encode_field encode name s)).
Proof.
  induction s as [s IH] using value_nested_ind.
  assert (Hs : well_formed s = true -> appendStruct [] s = Ok (encode s)).
  { destruct s as [| | | | | | | f | l | [od|] fields]; try discriminate.
    rewrite well_formed_unfold, appendStruct_unfold, encode_unfold.
    generalize (Some od) as order. intros order.
    induction od as [|name od IHod]; [reflexivity|].
    cbn [forallb flat_map appendFields]. intros Hw.
    apply andb_true_iff in Hw. destruct Hw as [Hn Hod].
    assert (Hf : appendField appendStruct [] name (get_field order fields name)
                 = Ok (encode_field encode name (get_field order fields name))).
    { revert Hn. apply (get_field_Forall
        (fun v => field_ok well_formed name v = true ->
                  appendField appendStruct [] name v = Ok (encode_field encode name v))).
      - unfold field_ok.
        destruct (not_own_cases order name) as [[-> _] | [-> | [f ->]]];
          [discriminate | |]; destruct (field_kind name); discriminate.
      - eapply Forall_impl; [|exact IH]. intros [k v] [_ Hv]. apply Hv. }
    rewrite Hf. cbn [bind]. rewrite appendFields_app_nil, (IHod Hod). reflexivity. }
  split; [exact Hs|].
  intros name. rewrite appendField_kind. unfold field_ok, encode_field.
  destruct (field_kind name); try discriminate.
  - destruct s; try discriminate. rewrite BYTE_le_bytes. reflexivity.
  - destruct s; try discriminate. reflexivity.
  - destruct s; try discriminate. rewrite DWORD_le_bytes. reflexivity.
  - destruct s; try discriminate. rewrite WORD_le_bytes. reflexivity.
  - destruct s; try discriminate. rewrite WORD_BE_le_bytes. reflexivity.
  - destruct s as [| | | | | | | f | l |]; try discriminate.
    clear Hs. induction IH as [|x l [Hx _] _ IHl]; [reflexivity|].
    cbn [forallb flat_map]. intros Hw.
    apply andb_true_iff in Hw. destruct Hw as [Hwx Hwl].
    apply appendArray_cons; [apply Hx; exact Hwx | apply IHl; exact Hwl].
  - destruct s; try discriminate. reflexivity.
  - exact Hs.
  - destruct s; try discriminate. reflexivity.
Qed.

Lemma appendNonArray_native_error bb f e :
  appendNonArray bb (VNative f) = Throw e -> e = TypeError.
Proof.
  cbn [appendNonArray]. destruct (builtin_length f) as [[|p|p]|]; congruence.
Qed.

Lemma schema_ok_no_schema_error (s : value) :
  (schema_ok s = true ->
   forall bb e, appendStruct bb s = Throw e -> is_schema_error e = false)
  /\ (forall name, field_schema_ok schema_ok name s = true ->
        forall bb e, appendField appendStruct bb name s = Throw e ->
                     is_schema_error e = false).
Proof.
  induction s as [s IH] using value_nested_ind.
  assert (Hs : schema_ok s = true ->
               forall bb e, appendStruct bb s = Throw e -> is_schema_error e = false).
  { destruct s as [| | | | | | | f | l | [od|] fields]; try discriminate.
    - intros _ bb e H. injection H as <-. reflexivity.
    - intros _ bb e H. injection H as <-. reflexivity.
    - rewrite schema_ok_unfold. intros Hok bb e. rewrite appendStruct_unfold.
      revert Hok. generalize (Some od) as order. intros order Hok.
      revert bb. induction od as [|name od IHod]; intros bb; [discriminate|].
      cbn [forallb] in Hok. apply andb_true_iff in Hok. destruct Hok as [Hn Hod].
      cbn [appendFields].
      destruct (appendField appendStruct bb name (get_field order fields name))
        as [bb'|e'] eqn:Hf; cbn [bind].
      + apply (IHod Hod).
      + intros H. injection H as <-. revert Hn bb Hf.
        apply (get_field_Forall
          (fun v => field_schema_ok schema_ok name v = true ->
                    forall bb, appendField appendStruct bb name v = Throw e' ->
                    is_schema_error e' = false)).
        * intros Hn bb. rewrite appendField_kind. unfold field_schema_ok in Hn.
          destruct (not_own_cases order name) as [[-> _] | [E | [f E]]];
            [cbn in Hn; discriminate Hn | |]; rewrite E in *;
            destruct (field_kind name); try discriminate Hn;
            intros H; try discriminate H; try (injection H as <-; reflexivity).
          -- rewrite (appendNonArray_native_error _ _ _ H). reflexivity.
          -- revert H. destruct (builtin_returns f); intros H; [discriminate H|].
             injection H as <-. reflexivity.
        * eapply Forall_impl; [|exact IH]. intros [k v] [_ Hv] Hn bb Hf.
          exact (Hv name Hn bb e' Hf). }
  split; [exact Hs|].
  intros name Hn bb e. rewrite appendField_kind. unfold field_schema_ok in Hn.
  destruct (field_kind name); try discriminate.
  - destruct s as [| | | [|] | | | | f | l |]; try discriminate;
      try (intros H; injection H as <-; reflexivity).
    + intros H. rewrite (appendNonArray_native_error _ _ _ H). reflexivity.
    + clear Hs. revert bb.
      induction IH as [|x l [Hx _] _ IHl]; intros bb; [discriminate|].
      cbn [forallb] in Hn. apply andb_true_iff in Hn. destruct Hn as [Hnx Hnl].
      cbn [appendArray].
      destruct (appendStruct bb x) as [bb'|e'] eqn:Hax; cbn [bind].
      * apply (IHl Hnl).
      * intros H. injection H as <-. exact (Hx Hnx bb e' Hax).
  - apply (Hs Hn).
  - destruct s as [| | | | | | | f | |]; try discriminate;
      try (intros H; injection H as <-; reflexivity).
    destruct (builtin_returns f); [discriminate|].
    intros H; injection H as <-; reflexivity.
Qed.

Lemma schema_defect_throws (s : value) :
  (schema_ok s = false -> forall bb, exists e, appendStruct bb s = Throw e)
  /\ (forall name, field_schema_ok schema_ok name s = false ->
        forall bb, exists e, appendField appendStruct bb name s = Throw e).
Proof.
  induction s as [s IH] using value_nested_ind.
  assert (Hs : schema_ok s = false -> forall bb, exists e, appendStruct bb s = Throw e).
  { destruct s as [| | | | | | | f | l | [od|] fields]; try discriminate;
      try (intros _ bb; eexists; reflexivity).
    rewrite schema_ok_unfold. intros Hok bb. rewrite appendStruct_unfold.
    revert Hok. generalize (Some od) as order. intros order Hok.
    revert bb. induction od as [|name od IHod]; intros bb; [discriminate|].
    cbn [forallb] in Hok. cbn [appendFields].
    destruct (appendField appendStruct bb name (get_field order fields name))
      as [bb'|e'] eqn:Hf; cbn [bind]; [|eexists; reflexivity].
    apply andb_false_iff in Hok. destruct Hok as [Hn|Hod]; [|apply (IHod Hod)].
    exfalso. revert Hn bb Hf.
    apply (get_field_Forall
      (fun v => field_schema_ok schema_ok name v = false ->
                forall bb, appendField appendStruct bb name v = Ok bb' -> False)).
    - intros Hn bb. rewrite appendField_kind. unfold field_schema_ok in Hn.
      destruct (not_own_cases order name) as [[-> _] | [E | [f E]]];
        [discriminate | |]; rewrite E in *;
        destruct (field_kind name); try discriminate Hn; discriminate.
    - eapply Forall_impl; [|exact IH]. intros [k v] [_ Hv] Hn bb Hf.
      destruct (Hv name Hn bb) as [e He]. congruence. }
  split; [exact Hs|].
  intros name Hn bb. rewrite appendField_kind. unfold field_schema_ok in Hn.
  destruct (field_kind name); try discriminate; try (eexists; reflexivity).
  - destruct s as [| | | [|] | | | | f | l |]; try discriminate;
      try (eexists; reflexivity).
    clear Hs. revert bb.
    induction IH as [|x l [Hx _] _ IHl]; intros bb; [discriminate|].
    cbn [forallb] in Hn. cbn [appendArray].
    destruct (appendStruct bb x) as [bb'|e'] eqn:Hax; cbn [bind];
      [|eexists; reflexivity].
    apply andb_false_iff in Hn. destruct Hn as [Hnx|Hnl]; [|apply (IHl Hnl)].
    destruct (Hx Hnx bb) as [e He]. congruence.
  - apply (Hs Hn).
Qed.

(** The writer raises its own two errors and the host's [TypeError],
    nothing else. *)
Lemma writer_exceptions (s : value) :
  (forall bb e, appendStruct bb s = Throw e -> e = TypeError \/ is_schema_error e = true)
  /\ (forall name bb e, appendField appendStruct bb name s = Throw e ->
        e = TypeError \/ is_schema_error e = true).
Proof.
  induction s as [s IH] using value_nested_ind.
  assert (Hs : forall bb e, appendStruct bb s = Throw e ->
                            e = TypeError \/ is_schema_error e = true).
  { destruct s as [| | | | | | | f | l | [od|] fields];
      try (intros bb e H; injection H as <-; auto).
    intros bb e. rewrite appendStruct_unfold.
    generalize (Some od) as order. intros order.
    revert bb. induction od as [|name od IHod]; intros bb; [discriminate|].
    cbn [appendFields].
    destruct (appendField appendStruct bb name (get_field order fields name))
      as [bb'|e'] eqn:Hf; cbn [bind]; [apply IHod|].
    intros H. injection H as <-. revert bb Hf.
    apply (get_field_Forall
      (fun v => forall bb, appendField appendStruct bb name v = Throw e' ->
                           e' = TypeError \/ is_schema_error e' = true)).
    - intros bb. rewrite appendField_kind.
      destruct (not_own_cases order name) as [[-> _] | [-> | [f ->]]].
      + cbn. intros H. injection H as <-. auto.
      + destruct (field_kind name); try discriminate;
          intros H; injection H as <-; auto.
      + destruct (field_kind name); try discriminate;
          intros H; try (injection H as <-; auto).
        * left. exact (appendNonArray_native_error _ _ _ H).
        * destruct (builtin_returns f); [discriminate|]. injection H as <-. auto.
    - eapply Forall_impl; [|exact IH]. intros [k v] [_ Hv] bb Hf.
      exact (Hv name bb e' Hf). }
  split; [exact Hs|].
  intros name bb e. rewrite appendField_kind.
  destruct (field_kind name); try discriminate;
    try (intros H; injection H as <-; auto).
  - destruct s as [| | | [|] | | | | f | l |]; try discriminate;
      try (intros H; injection H as <-; auto).
    + intros H. left. exact (appendNonArray_native_error _ _ _ H).
    + clear Hs. revert bb.
      induction IH as [|x l [Hx _] _ IHl]; intros bb; [discriminate|].
      cbn [appendArray].
      destruct (appendStruct bb x) as [bb'|e'] eqn:Hax; cbn [bind]; [apply IHl|].
      intros H. injection H as <-. exact (Hx bb e' Hax).
  - apply Hs.
  - destruct s as [| | | | | | | f | |]; try discriminate;
      try (intros H; injection H as <-; auto).
    destruct (builtin_returns f); [discriminate|].
    intros H. injection H as <-. auto.
Qed.

(** A loop that completes has completed on each of the names. *)
Lemma appendFields_each bb order fields od out name :
  appendFields bb order fields od = Ok out ->
  In name od ->
  exists bb1 bb2,
    appendField appendStruct bb1 name (get_field order fields name) = Ok bb2.
Proof.
  revert bb. induction od as [|n od IH]; intros bb H Hin; [destruct Hin|].
  cbn [appendFields] in H.
  destruct (appendField appendStruct bb n (get_field order fields n)) as [bb'|e] eqn:E;
    [|discriminate].
  destruct Hin as [-> | Hin]; [exists bb, bb'; exact E|].
  exact (IH bb' H Hin).
Qed.

(** C9, as the code has it.  A record all of whose fields hold what
    their tags announce is appended in its serialized form, after what the
    sink held, and nothing is raised.  One of the writer's own two errors
    is raised only for a record that lacks its field-order list or a field
    whose tag is not recognized, and such a defect always ends in an
    exception: the writer's, or the host's [TypeError] when it meets
    [null] or [undefined] first.  A record without such a defect, one of
    whose listed array, record or handler fields holds [null], raises the
    host's [TypeError]: so do the records of the create functions as they
    are made. *)
Theorem C9_writer_contract :
  (forall bb s, well_formed s = true -> appendStruct bb s = Ok (bb ++ encode s))
  /\ (forall bb s e,
         appendStruct bb s = Throw e -> is_schema_error e = true -> schema_ok s = false)
  /\ (forall bb s, schema_ok s = false -> exists e, appendStruct bb s = Throw e)
  /\ (forall bb fields, appendStruct bb (VObj None fields) = Throw MissingOrder)
  /\ (forall bb od fields name,
         field_kind name = KUnknown ->
         appendStruct bb (VObj (Some (name :: od)) fields) = Throw (UnknownDataType name))
  /\ (forall bb od fields name,
         schema_ok (VObj (Some od) fields) = true ->
         In name od ->
         (field_kind name = KArray \/ field_kind name = KStruct
          \/ field_kind name = KHandler) ->
         get_field (Some od) fields name = VNull ->
         appendStruct bb (VObj (Some od) fields) = Throw TypeError)
  /\ (forall bb,
         Forall (fun o => schema_ok (obj o) = true
                          /\ appendStruct bb (obj o) = Throw TypeError)
           [createAVIStruct; createHeaderLIST; createMoviLIST; createMoviStream;
            createStreamHeaderLIST; createStreamFormat]).
Proof.
  repeat apply conj.
  - intros bb s Hw. rewrite appendStruct_app.
    rewrite (proj1 (well_formed_written s) Hw). reflexivity.
  - intros bb s e Hthrow He. destruct (schema_ok s) eqn:Hok; [|reflexivity].
    rewrite (proj1 (schema_ok_no_schema_error s) Hok bb e Hthrow) in He. discriminate.
  - intros bb s Hok. apply (proj1 (schema_defect_throws s) Hok).
  - reflexivity.
  - intros bb od fields name Hk. rewrite appendStruct_unfold. cbn [appendFields].
    rewrite appendField_kind, Hk. reflexivity.
  - intros bb od fields name Hok Hin Hk Hv.
    destruct (appendStruct bb (VObj (Some od) fields)) as [out|e] eqn:E.
    + exfalso. rewrite appendStruct_unfold in E.
      destruct (appendFields_each _ _ _ _ _ name E Hin) as (bb1 & bb2 & Hf).
      rewrite appendField_kind, Hv in Hf.
      destruct Hk as [Hk | [Hk | Hk]]; rewrite Hk in Hf; discriminate.
    + f_equal.
      pose proof (proj1 (schema_ok_no_schema_error _) Hok bb e E) as Hn.
      destruct (proj1 (writer_exceptions _) bb e E) as [He | He]; [exact He | congruence].
  - intros bb. repeat constructor.
Qed.

Lemma addFrames_reachable frames this this' :
  reachable this -> addFrames frames this = Ok this' -> reachable this'.
Proof.
  revert this. induction frames as [|u rest IH]; intros this Hr H.
  - injection H as <-. exact Hr.
  - cbn [addFrames] in H. destruct (addFrame u this) as [m|e] eqn:E; [|discriminate].
    apply (IH m); [exact (reach_addFrame this u m Hr E) | exact H].
Qed.


(** * Further properties of the writer *)

(** X1. The writer only appends: what the sink held stays in front,
    what is appended is what an empty sink would receive, and the writer
    raises exactly when it would on an empty sink, with the same
    exception. *)
Theorem X1_writer_appends bb s :
  match appendStruct [] s with
  | Ok out => appendStruct bb s = Ok (bb ++ out)
  | Throw e => appendStruct bb s = Throw e
  end.
Proof.
  rewrite (appendStruct_app s bb). destruct (appendStruct [] s); reflexivity.
Qed.

Lemma wrap32_periodic z k : wrap32 (z + k * 2 ^ 32) = wrap32 z.
Proof. unfold wrap32. rewrite Z.mod_add by lia. reflexivity. Qed.

(** X2. A DWORD field holding an integer below 2^32 reads back, least
    significant byte first, as that integer, and a negative one above
    -2^31 as its two's complement; sizes of 2^32 and more are not
    detected: the field is written as for the size less 2^32. *)
Theorem X2_dword_round_trip :
  (forall z rest, 0 <= z < 2 ^ 32 -> u32_at 0 (DWORD (int z) ++ rest) = Some z)
  /\ (forall z rest, - 2 ^ 31 <= z < 0 ->
        u32_at 0 (DWORD (int z) ++ rest) = Some (z + 2 ^ 32))
  /\ (forall z k, DWORD (int (z + k * 2 ^ 32)) = DWORD (int z)).
Proof.
  repeat apply conj.
  - intros z rest Hz. rewrite u32_DWORD_int, Z.mod_small by exact Hz. reflexivity.
  - intros z rest Hz. rewrite u32_DWORD_int.
    rewrite <- (Z.mod_add z 1 (2 ^ 32)) by lia. rewrite Z.mod_small by lia.
    apply f_equal. lia.
  - intros z k. unfold DWORD, int. cbn [ToNumber ToInt32 ofZ].
    rewrite !truncate_int, wrap32_periodic. reflexivity.
Qed.

(** X3. A WORD field reads back, low byte first, as the integer it held
    modulo 2^16, the big-endian word is the same two bytes in the other
    order, and a BYTE field is the integer modulo 256. *)
Theorem X3_word_round_trip z :
  u16_at 0 (WORD (int z)) = Some (z mod 2 ^ 16)
  /\ WORD_BE (int z) = rev (WORD (int z))
  /\ u16_at 0 (rev (WORD_BE (int z))) = Some (z mod 2 ^ 16)
  /\ map Z_of_byte (BYTE (int z)) = [z mod 256].
Proof.
  repeat apply conj.
  - rewrite <- (app_nil_r (WORD (int z))). apply u16_WORD_int.
  - reflexivity.
  - change (rev (WORD_BE (int z))) with (WORD (int z) ++ []). apply u16_WORD_int.
  - unfold BYTE, int. cbn [ToNumber ToUint8 ofZ map].
    rewrite truncate_int, Z_of_byte_of_Z, Z.mod_mod by lia. reflexivity.
Qed.

Lemma zero_byte : byte_of_Z 0 = x00.
Proof. reflexivity. Qed.

Lemma get_field_absent order fields name :
  Forall (fun kv => fst kv <> name) fields ->
  get_field order fields name = not_own order name.
Proof.
  induction 1 as [|[k v] fs Hk _ IH]; [reflexivity|].
  cbn [get_field]. cbn [fst] in Hk.
  destruct (String.eqb_spec k name); [contradiction | exact IH].
Qed.

(** X4. A listed scalar field that reads as [undefined], as one the
    record lacks and does not inherit, is not an error: it is written as
    zero bytes of its width, as are [null], [NaN] and the infinities; and
    a number with a fraction is written as its integer part, rounded
    toward zero.  Of the names a record inherits a property for, two
    start with a tag: a record that lacks [constructor] has the function
    [Object] pushed for it, and one that lacks [hasOwnProperty] raises a
    [TypeError], that function refusing a call without [this]. *)
Theorem X4_scalar_edge_cases :
  (forall bb fields name,
      get_field (Some [name]) fields name = VUndefined ->
      appendStruct bb (VObj (Some [name]) fields)
      = match field_kind name with
        | KByte => Ok (bb ++ [VBuf [x00]])
        | KWord | KWordBE => Ok (bb ++ [VBuf [x00; x00]])
        | KDword => Ok (bb ++ [VBuf [x00; x00; x00; x00]])
        | KChars | KRaw => Ok (bb ++ [VUndefined])
        | KArray | KStruct | KHandler => Throw TypeError
        | KUnknown => Throw (UnknownDataType name)
        end)
  /\ (forall order fields name,
         Forall (fun kv => fst kv <> name) fields ->
         inherited name = VUndefined ->
         name <> "_order" ->
         get_field order fields name = VUndefined)
  /\ (forall bb fields,
         Forall (fun kv => fst kv <> "constructor") fields ->
         appendStruct bb (VObj (Some ["constructor"]) fields)
         = Ok (bb ++ [VNative Object_]))
  /\ (forall bb fields,
         Forall (fun kv => fst kv <> "hasOwnProperty") fields ->
         appendStruct bb (VObj (Some ["hasOwnProperty"]) fields) = Throw TypeError)
  /\ DWORD VNull = [x00; x00; x00; x00]
  /\ DWORD (VNum NonFinite) = [x00; x00; x00; x00]
  /\ (forall q, DWORD (VNum (Finite q)) = DWORD (int (truncate q)))
  /\ (forall q, WORD (VNum (Finite q)) = WORD (int (truncate q)))
  /\ (forall q, BYTE (VNum (Finite q)) = BYTE (int (truncate q))).
Proof.
  repeat apply conj.
  - intros bb fields name Hu. rewrite appendStruct_unfold. cbn [appendFields].
    rewrite appendField_kind, Hu. destruct (field_kind name); reflexivity.
  - intros order fields name Ha Hi Hn. rewrite (get_field_absent _ _ _ Ha).
    unfold not_own. destruct (String.eqb_spec name "_order"); [contradiction | exact Hi].
  - intros bb fields Ha. rewrite appendStruct_unfold. cbn [appendFields].
    rewrite (get_field_absent _ _ _ Ha). reflexivity.
  - intros bb fields Ha. rewrite appendStruct_unfold. cbn [appendFields].
    rewrite (get_field_absent _ _ _ Ha). reflexivity.
  - reflexivity.
  - reflexivity.
  - intros q. unfold DWORD, int. cbn [ToNumber ToInt32 ofZ].
    rewrite truncate_int. reflexivity.
  - intros q. unfold WORD, int. cbn [ToNumber ToInt32 ofZ].
    rewrite truncate_int. reflexivity.
  - intros q. unfold BYTE, int. cbn [ToNumber ToUint8 ofZ].
    rewrite truncate_int. reflexivity.
Qed.

Lemma get_set_other order fields name k v :
  k <> name ->
  get_field order (set_field fields k v) name = get_field order fields name.
Proof.
  intros Hk. induction fields as [|[k' x] fs IH]; cbn [set_field get_field].
  - destruct (String.eqb_spec k name); [contradiction | reflexivity].
  - destruct (String.eqb_spec k' k) as [->|Hk'].
    + cbn [get_field]. destruct (String.eqb_spec k name); [contradiction | reflexivity].
    + cbn [get_field]. rewrite IH. reflexivity.
Qed.

Lemma appendFields_ext bb order od fs1 fs2 :
  (forall name, In name od -> get_field order fs1 name = get_field order fs2 name) ->
  appendFields bb order fs1 od = appendFields bb order fs2 od.
Proof.
  revert bb. induction od as [|name od IH]; intros bb H; [reflexivity|].
  cbn [appendFields]. rewrite (H name (or_introl eq_refl)).
  apply bind_ext; [reflexivity|]. intros bb'. apply IH.
  intros n Hn. apply H. right. exact Hn.
Qed.

(** X5. Only the properties that [_order] lists are read, and only
    through their names: two records with the same field-order list that
    read alike under the names it lists are written alike, so that a
    property outside the list can be set to anything.  ([_order] and
    [__proto__] are no such properties: assigning to them changes the
    list, and what is inherited.) *)
Theorem X5_unlisted_properties_ignored bb od :
  (forall fs1 fs2,
      (forall name, In name od ->
                    get_field (Some od) fs1 name = get_field (Some od) fs2 name) ->
      appendStruct bb (VObj (Some od) fs1) = appendStruct bb (VObj (Some od) fs2))
  /\ (forall fields k v,
         ~ In k od -> k <> "_order" -> k <> "__proto__" ->
         appendStruct bb (VObj (Some od) (set_field fields k v))
         = appendStruct bb (VObj (Some od) fields)).
Proof.
  assert (H : forall fs1 fs2,
             (forall name, In name od ->
                           get_field (Some od) fs1 name = get_field (Some od) fs2 name) ->
             appendStruct bb (VObj (Some od) fs1) = appendStruct bb (VObj (Some od) fs2)).
  { intros fs1 fs2 E. rewrite !appendStruct_unfold. apply appendFields_ext. exact E. }
  split; [exact H|].
  intros fields k v Hk _ _. apply H. intros name Hn. apply get_set_other.
  intros ->. contradiction.
Qed.

(** The field-order list is read under the name [_order] only, which
    starts with no tag: which list a record has does not change what a
    field is written as. *)
Lemma appendField_order bb order1 order2 fields name :
  appendField appendStruct bb name (get_field order1 fields name)
  = appendField appendStruct bb name (get_field order2 fields name).
Proof.
  induction fields as [|[k v] fs IH]; cbn [get_field].
  - unfold not_own. destruct (String.eqb_spec name "_order") as [-> | _]; reflexivity.
  - destruct (String.eqb k name); [reflexivity | exact IH].
Qed.

Lemma appendFields_order bb order1 order2 fields od :
  appendFields bb order1 fields od = appendFields bb order2 fields od.
Proof.
  revert bb. induction od as [|name od IH]; intros bb; [reflexivity|].
  cbn [appendFields]. rewrite (appendField_order bb order1 order2).
  apply bind_ext; [reflexivity | exact IH].
Qed.

(** X6. Fields are written in the order of [_order]: a list in two parts
    writes what the first part writes, then what the second does, and
    stops at the first exception. *)
Theorem X6_order_concatenates bb od1 od2 fields :
  appendStruct bb (VObj (Some (od1 ++ od2)) fields)
  = (bb' <- appendStruct bb (VObj (Some od1) fields) ;;
     appendStruct bb' (VObj (Some od2) fields)).
Proof.
  rewrite appendStruct_unfold, (appendStruct_unfold bb od1).
  rewrite (appendFields_order bb (Some (od1 ++ od2)) (Some od1) fields).
  assert (G : forall rest bb,
             appendFields bb (Some od1) fields (rest ++ od2)
             = (bb' <- appendFields bb (Some od1) fields rest ;;
                appendStruct bb' (VObj (Some od2) fields))).
  { induction rest as [|name rest IH]; intros bb0.
    - cbn [app appendFields bind]. rewrite appendStruct_unfold.
      apply appendFields_order.
    - cbn [app appendFields].
      destruct (appendField appendStruct bb0 name (get_field (Some od1) fields name))
        as [bb'|e]; cbn [bind]; [apply IH | reflexivity]. }
  apply G.
Qed.

(** * Further properties of the container *)

Lemma slice_at (pre mid rest : list byte) n m :
  Z.of_nat (List.length pre) = n ->
  Z.of_nat (List.length mid) = m ->
  firstn (Z.to_nat m) (skipn (Z.to_nat n) (pre ++ mid ++ rest)) = mid.
Proof.
  intros <- <-. rewrite !Nat2Z.id, skipn_app, Nat.sub_diag, skipn_all.
  cbn [app skipn]. rewrite firstn_app, Nat.sub_diag, firstn_all.
  cbn [firstn]. apply app_nil_r.
Qed.

Ltac count_bytes :=
  repeat match goal with
    | |- context [Z.of_nat (List.length (utf8 ?s))] =>
        let n := eval vm_compute in (Z.of_nat (List.length (utf8 s))) in
        replace (Z.of_nat (List.length (utf8 s))) with n by reflexivity
    | |- context [Z.of_nat (List.length (DWORD ?x))] =>
        replace (Z.of_nat (List.length (DWORD x))) with 4 by reflexivity
    end.

Ltac normalize_bytes :=
  rewrite ?flat_map_app; cbn [flat_map part_bytes tl app];
  rewrite ?flat_map_app, <- ?app_assoc; cbn [app].

Lemma flat_map_split_nth {A B : Type} (f : A -> list B) (l : list A) i dflt :
  (i < List.length l)%nat ->
  flat_map f l
  = flat_map f (firstn i l) ++ f (nth i l dflt) ++ flat_map f (skipn (S i) l).
Proof.
  revert i. induction l as [|x l IH]; intros i Hi; [cbn in Hi; lia|].
  destruct i as [|i]; [reflexivity|].
  rewrite firstn_cons. cbn [flat_map nth skipn].
  rewrite (IH i) by (cbn in Hi; lia). rewrite <- app_assoc. reflexivity.
Qed.

Lemma video_index_app dwOffset l1 l2 :
  video_index dwOffset (l1 ++ l2)
  = video_index dwOffset l1 ++ video_index (dwOffset + chunks_size l1) l2.
Proof.
  revert dwOffset. induction l1 as [|b l1 IH]; intros dwOffset; cbn [app video_index chunks_size].
  - rewrite Z.add_0_r. reflexivity.
  - rewrite IH, !Z.add_assoc. reflexivity.
Qed.

Lemma split_nth {A : Type} (l : list A) i dflt :
  (i < List.length l)%nat -> l = firstn i l ++ nth i l dflt :: skipn (S i) l.
Proof.
  revert i. induction l as [|x l IH]; intros i Hi; [cbn in Hi; lia|].
  destruct i as [|i]; [reflexivity|].
  rewrite firstn_cons. cbn [nth skipn app]. f_equal. apply IH. cbn in Hi. lia.
Qed.

Lemma hdrlSize_prop this :
  shaped this -> int_prop (finish_headerLIST this) "dwSize" = hdrlSize this.
Proof.
  intros Hs. apply int_prop_int. rewrite (finish_headerLIST_closed this Hs). reflexivity.
Qed.

Lemma moviSize_prop this :
  shaped this -> int_prop (finish_moviLIST this) "dwSize" = moviSize this.
Proof.
  intros Hs. apply int_prop_int. rewrite (finish_moviLIST_closed this Hs). reflexivity.
Qed.

Lemma riff_head_length this :
  Z.of_nat (List.length (flat_map part_bytes
     ([VStr "RIFF"; VBuf (DWORD (int (aviSize this))); VStr "AVI "] ++ hdrl_chunks this)))
  = 20 + hdrlSize this.
Proof.
  rewrite flat_map_app, length_app, Nat2Z.inj_add, hdrl_chunks_length.
  replace (Z.of_nat (List.length (flat_map part_bytes
             [VStr "RIFF"; VBuf (DWORD (int (aviSize this))); VStr "AVI "])))
    with 12 by reflexivity.
  lia.
Qed.

(** X7. The offsets of the index lead to the chunks: counted from the
    [movi] tag of the output, the offset of the entry of frame [i] is
    where the bytes [00dc], the size of the frame and the frame itself
    are found, and the offset of the audio entry is where [01wb], the
    size of the PCM blob and the blob itself are. *)
Theorem X7_index_locates_chunks this :
  reachable this ->
  exists blob this',
    let movi_at := 28 + int_prop (headerLIST this') "dwSize" in
    let frames := frameList this in
    finish this = Ok (blob, this')
    /\ firstn 4 (skipn (Z.to_nat movi_at) (blob_bytes blob)) = utf8 "movi"
    /\ (forall i dflt,
          (i < List.length frames)%nat ->
          let frame := nth i frames dflt in
          nth i (children (indexChunk this) "aData") VUndefined
          = IndexEntry "00dc" (chunk_offset frames i) (size frame)
          /\ firstn (Z.to_nat (8 + size frame))
               (skipn (Z.to_nat (movi_at + chunk_offset frames i)) (blob_bytes blob))
             = utf8 "00dc" ++ DWORD (int (size frame)) ++ blob_bytes frame)
    /\ (forall t,
          audio this = Some t ->
          let off := chunk_offset frames (List.length frames) in
          nth (List.length frames) (children (indexChunk this) "aData") VUndefined
          = IndexEntry "01wb" off (size (audioBlob t))
          /\ firstn (Z.to_nat (8 + size (audioBlob t)))
               (skipn (Z.to_nat (movi_at + off)) (blob_bytes blob))
             = utf8 "01wb" ++ DWORD (int (size (audioBlob t))) ++ blob_bytes (audioBlob t)).
Proof.
  intros Hr. pose proof (reachable_shaped this Hr) as Hs.
  eexists. eexists. cbv zeta. split; [apply (finish_closed this Hs)|].
  cbn [headerLIST blob_bytes new_Blob]. rewrite (hdrlSize_prop this Hs).
  change (children (indexChunk this) "aData") with (frameIndices (all_streams this)).
  repeat apply conj.
  - replace (flat_map part_bytes (riff_chunks this))
      with ((flat_map part_bytes
               ([VStr "RIFF"; VBuf (DWORD (int (aviSize this))); VStr "AVI "]
                ++ hdrl_chunks this)
             ++ utf8 "LIST" ++ DWORD (int (moviSize this)))
            ++ utf8 "movi"
            ++ flat_map part_bytes (tl (tl (tl (movi_chunks this))) ++ idx1_chunks this)).
    + apply (slice_at _ _ _ (28 + hdrlSize this) 4); [|reflexivity].
      rewrite !length_app, !Nat2Z.inj_add, riff_head_length. count_bytes. lia.
    + unfold riff_chunks, movi_chunks. normalize_bytes. reflexivity.
  - intros i dflt H. split.
    { rewrite all_streams_closed.
      destruct (audio this); cbn [frameIndices];
        [rewrite app_nth1 by (rewrite video_index_length; exact H)|];
        apply nth_video_index; exact H. }
    replace (flat_map part_bytes (riff_chunks this))
      with ((flat_map part_bytes
               ([VStr "RIFF"; VBuf (DWORD (int (aviSize this))); VStr "AVI "]
                ++ hdrl_chunks this)
             ++ (utf8 "LIST" ++ DWORD (int (moviSize this)) ++ utf8 "movi")
             ++ flat_map part_bytes
                  (flat_map (fun blob => [VStr "00dc"; VBuf (DWORD (int (size blob)));
                                          VBlob blob])
                     (firstn i (frameList this))))
            ++ (utf8 "00dc" ++ DWORD (int (size (nth i (frameList this) dflt)))
                ++ blob_bytes (nth i (frameList this) dflt))
            ++ flat_map part_bytes
                 (flat_map (fun blob => [VStr "00dc"; VBuf (DWORD (int (size blob)));
                                         VBlob blob])
                    (skipn (S i) (frameList this))
                  ++ match audio this with
                     | Some t => [VStr "01wb"; VBuf (DWORD (int (size (audioBlob t))));
                                  VBlob (audioBlob t)]
                     | None => []
                     end
                  ++ idx1_chunks this)).
    + apply slice_at.
      * rewrite !length_app, !Nat2Z.inj_add, riff_head_length, video_chunks_length.
        count_bytes. unfold chunk_offset. lia.
      * rewrite !length_app, !Nat2Z.inj_add.
        count_bytes. unfold size. lia.
    + unfold riff_chunks, movi_chunks.
      rewrite (flat_map_split_nth
                 (fun blob => [VStr "00dc"; VBuf (DWORD (int (size blob))); VBlob blob])
                 (frameList this) i dflt H).
      normalize_bytes. reflexivity.
  - intros t H. split.
    { rewrite all_streams_closed, H. cbn [frameIndices].
      rewrite app_nth2 by (rewrite video_index_length; lia).
      rewrite video_index_length, Nat.sub_diag. unfold chunk_offset.
      rewrite firstn_all. reflexivity. }
    replace (flat_map part_bytes (riff_chunks this))
      with ((flat_map part_bytes
               ([VStr "RIFF"; VBuf (DWORD (int (aviSize this))); VStr "AVI "]
                ++ hdrl_chunks this)
             ++ (utf8 "LIST" ++ DWORD (int (moviSize this)) ++ utf8 "movi")
             ++ flat_map part_bytes
                  (flat_map (fun blob => [VStr "00dc"; VBuf (DWORD (int (size blob)));
                                          VBlob blob])
                     (frameList this)))
            ++ (utf8 "01wb" ++ DWORD (int (size (audioBlob t))) ++ blob_bytes (audioBlob t))
            ++ flat_map part_bytes (idx1_chunks this)).
    + apply slice_at.
      * rewrite !length_app, !Nat2Z.inj_add, riff_head_length, video_chunks_length.
        count_bytes. unfold chunk_offset. rewrite firstn_all. lia.
      * rewrite !length_app, !Nat2Z.inj_add.
        count_bytes. unfold size. lia.
    + unfold riff_chunks, movi_chunks. rewrite H. normalize_bytes. reflexivity.
Qed.

Lemma video_index_split frames i dflt dwOffset :
  (i < List.length frames)%nat ->
  video_index dwOffset frames
  = video_index dwOffset (firstn i frames)
    ++ IndexEntry "00dc" (dwOffset + chunks_size (firstn i frames)) (size (nth i frames dflt))
    :: video_index (dwOffset + chunks_size (firstn i frames) + (size (nth i frames dflt) + 8))
         (skipn (S i) frames).
Proof.
  intros Hi.
  transitivity (video_index dwOffset
                  (firstn i frames ++ nth i frames dflt :: skipn (S i) frames)).
  - f_equal. apply split_nth. exact Hi.
  - rewrite video_index_app. reflexivity.
Qed.

Lemma written_IndexEntry chId dwOffset dwLength :
  written (IndexEntry chId dwOffset dwLength)
  = [VStr chId; VBuf (DWORD (int AVIIF_KEYFRAME)); VBuf (DWORD (int dwOffset));
     VBuf (DWORD (int dwLength))].
Proof. reflexivity. Qed.

Lemma riff_body_length this :
  Z.of_nat (List.length (flat_map part_bytes
     ([VStr "RIFF"; VBuf (DWORD (int (aviSize this))); VStr "AVI "]
      ++ hdrl_chunks this ++ movi_chunks this)))
  = 28 + hdrlSize this + moviSize this.
Proof.
  rewrite !flat_map_app, !length_app, !Nat2Z.inj_add,
    hdrl_chunks_length, movi_chunks_length.
  replace (Z.of_nat (List.length (flat_map part_bytes
             [VStr "RIFF"; VBuf (DWORD (int (aviSize this))); VStr "AVI "])))
    with 12 by reflexivity.
  lia.
Qed.

Lemma entry_fields (tag : string) (off len : Z) :
  let entry := utf8 tag ++ DWORD (int AVIIF_KEYFRAME) ++ DWORD (int off) ++ DWORD (int len) in
  List.length (utf8 tag) = 4%nat ->
  u32_at 4 entry = Some 16
  /\ u32_at 8 entry = Some (off mod 2 ^ 32)
  /\ u32_at 12 entry = Some (len mod 2 ^ 32).
Proof.
  cbv zeta. intros Ht.
  repeat apply conj.
  - transitivity (Some (AVIIF_KEYFRAME mod 2 ^ 32)); [|reflexivity].
    change 4%nat with (Z.to_nat 4). apply u32_at_app. rewrite Ht. reflexivity.
  - replace (utf8 tag ++ DWORD (int AVIIF_KEYFRAME) ++ DWORD (int off) ++ DWORD (int len))
      with ((utf8 tag ++ DWORD (int AVIIF_KEYFRAME)) ++ DWORD (int off) ++ DWORD (int len))
      by (rewrite <- app_assoc; reflexivity).
    change 8%nat with (Z.to_nat 8). apply u32_at_app.
    rewrite length_app, Ht. reflexivity.
  - replace (utf8 tag ++ DWORD (int AVIIF_KEYFRAME) ++ DWORD (int off) ++ DWORD (int len))
      with ((utf8 tag ++ DWORD (int AVIIF_KEYFRAME) ++ DWORD (int off))
            ++ DWORD (int len) ++ [])
      by (rewrite <- !app_assoc, app_nil_r; reflexivity).
    change 12%nat with (Z.to_nat 12). apply u32_at_app.
    rewrite !length_app, Ht. reflexivity.
Qed.

Lemma skipn_app_length {A : Type} (pre rest : list A) n :
  Z.of_nat (List.length pre) = n -> skipn (Z.to_nat n) (pre ++ rest) = rest.
Proof.
  intros <-. rewrite Nat2Z.id, skipn_app, Nat.sub_diag, skipn_all. reflexivity.
Qed.

(** C2. The output of [finish] has an index table, third child of the
    root and written behind the movie list, with one entry per frame, in
    order, and one more for the audio track when there is one.  The entry
    of frame [i] is tagged [00dc], holds the offset of its chunk and the
    size of the frame as its length, the chunk itself, child [i] of the
    movie list, declaring that size and pushing that frame; offsets start
    at 4, grow by the payload plus 8 from one frame to the next, and so
    are strictly increasing; the audio entry follows at the next offset
    with the size of the PCM blob.  In the bytes of the output the table
    is the tag [idx1], 16 times the number of entries, and each entry as
    its tag, the key-frame flag, its offset and its length. *)
Theorem C2_index_table this :
  reachable this ->
  exists blob this',
    let frames := frameList this in
    let N := List.length frames in
    let idx := children (indexChunk this) "aData" in
    let streams := children (moviLIST this') "aStreams" in
    let idx1_at := 28 + int_prop (headerLIST this') "dwSize"
                   + int_prop (moviLIST this') "dwSize" in
    finish this = Ok (blob, this')
    /\ nth 1 (children (avi this') "aData") VUndefined = obj (moviLIST this')
    /\ nth 2 (children (avi this') "aData") VUndefined = obj (indexChunk this)
    /\ List.length idx = (N + match audio this with Some _ => 1 | None => 0 end)%nat
    /\ chunk_offset frames 0 = 4
    /\ (forall i dflt, (i < N)%nat ->
          nth i idx VUndefined
          = IndexEntry "00dc" (chunk_offset frames i) (size (nth i frames dflt))
          /\ nth i streams VUndefined = video_chunk (nth i frames dflt)
          /\ written (video_chunk (nth i frames dflt))
             = [VStr "00dc"; VBuf (DWORD (int (size (nth i frames dflt))));
                VBlob (nth i frames dflt)]
          /\ chunk_offset frames (S i)
             = chunk_offset frames i + size (nth i frames dflt) + 8)
    /\ (forall t, audio this = Some t ->
          nth N idx VUndefined
          = IndexEntry "01wb" (chunk_offset frames N) (size (audioBlob t))
          /\ nth N streams VUndefined = audio_chunk (audioBlob t)
          /\ written (audio_chunk (audioBlob t))
             = [VStr "01wb"; VBuf (DWORD (int (size (audioBlob t)))); VBlob (audioBlob t)])
    /\ (forall i j, (i < j <= N)%nat -> chunk_offset frames i < chunk_offset frames j)
    /\ skipn (Z.to_nat idx1_at) (blob_bytes blob)
       = utf8 "idx1" ++ DWORD (int (16 * Z.of_nat (List.length idx)))
         ++ flat_map part_bytes (flat_map written idx)
    /\ (forall chId dwOffset dwLength,
          flat_map part_bytes (written (IndexEntry chId dwOffset dwLength))
          = utf8 chId ++ DWORD (int AVIIF_KEYFRAME) ++ DWORD (int dwOffset)
            ++ DWORD (int dwLength)).
Proof.
  intros Hr. pose proof (reachable_shaped this Hr) as Hs.
  eexists. eexists. cbv zeta. split; [apply (finish_closed this Hs)|].
  cbn [avi headerLIST moviLIST blob_bytes new_Blob].
  rewrite (hdrlSize_prop this Hs), (moviSize_prop this Hs).
  assert (Hidx : children (indexChunk this) "aData" = frameIndices (all_streams this))
    by reflexivity.
  assert (Hstreams : children (finish_moviLIST this) "aStreams"
                     = aStreams (all_streams this))
    by (rewrite (finish_moviLIST_closed this Hs); reflexivity).
  rewrite Hidx, Hstreams. repeat apply conj.
  - rewrite (finish_avi_closed this Hs). reflexivity.
  - rewrite (finish_avi_closed this Hs). reflexivity.
  - rewrite all_streams_closed. destruct (audio this); cbn [frameIndices];
      [rewrite length_app|]; rewrite video_index_length; cbn; lia.
  - reflexivity.
  - intros i dflt H. rewrite all_streams_closed. repeat apply conj.
    + destruct (audio this); cbn [frameIndices];
        [rewrite app_nth1 by (rewrite video_index_length; exact H)|];
        apply nth_video_index; exact H.
    + destruct (audio this); cbn [aStreams];
        [rewrite app_nth1 by (rewrite length_map; exact H)|];
        rewrite (nth_indep _ VUndefined (video_chunk dflt)) by (rewrite length_map; exact H);
        apply map_nth.
    + reflexivity.
    + unfold chunk_offset. rewrite (chunks_size_step i (frameList this) dflt H). lia.
  - intros t H. rewrite all_streams_closed, H. repeat apply conj.
    + cbn [frameIndices].
      rewrite app_nth2 by (rewrite video_index_length; lia).
      rewrite video_index_length, Nat.sub_diag. unfold chunk_offset.
      rewrite firstn_all. reflexivity.
    + cbn [aStreams].
      rewrite app_nth2 by (rewrite length_map; lia).
      rewrite length_map, Nat.sub_diag. reflexivity.
    + reflexivity.
  - intros i j H. apply chunk_offset_increasing; lia.
  - rewrite frameIndices_length.
    replace (flat_map part_bytes (riff_chunks this))
      with (flat_map part_bytes
              ([VStr "RIFF"; VBuf (DWORD (int (aviSize this))); VStr "AVI "]
               ++ hdrl_chunks this ++ movi_chunks this)
            ++ flat_map part_bytes (idx1_chunks this))
      by (unfold riff_chunks; rewrite !flat_map_app, <- !app_assoc; reflexivity).
    rewrite (skipn_app_length _ _ _ (riff_body_length this)).
    unfold idx1_chunks. rewrite flat_map_app. cbn [flat_map part_bytes].
    rewrite <- !app_assoc. reflexivity.
  - intros chId dwOffset dwLength. rewrite written_IndexEntry.
    cbn [flat_map part_bytes]. rewrite app_nil_r. reflexivity.
Qed.

(** X8. The index table is the last part of the output, behind the
    [idx1] tag that follows the movie list: the entry of frame [i] is the
    16 bytes at 8 + 16 i from that tag, and reads as the tag [00dc], the
    key-frame flag, the offset of the chunk and the size of the frame;
    the audio entry comes after those of the frames, tagged [01wb]. *)
Theorem X8_index_table_bytes this :
  reachable this ->
  exists blob this',
    let idx1_at := 28 + int_prop (headerLIST this') "dwSize"
                   + int_prop (moviLIST this') "dwSize" in
    let frames := frameList this in
    let bytes := blob_bytes blob in
    finish this = Ok (blob, this')
    /\ firstn 4 (skipn (Z.to_nat idx1_at) bytes) = utf8 "idx1"
    /\ (forall i dflt,
          (i < List.length frames)%nat ->
          let entry := firstn 16 (skipn (Z.to_nat (idx1_at + 8 + 16 * Z.of_nat i)) bytes) in
          entry = utf8 "00dc" ++ DWORD (int AVIIF_KEYFRAME)
                  ++ DWORD (int (chunk_offset frames i))
                  ++ DWORD (int (size (nth i frames dflt)))
          /\ u32_at 4 entry = Some 16
          /\ u32_at 8 entry = Some (chunk_offset frames i mod 2 ^ 32)
          /\ u32_at 12 entry = Some (size (nth i frames dflt) mod 2 ^ 32))
    /\ (forall t,
          audio this = Some t ->
          let n := List.length frames in
          let entry := firstn 16 (skipn (Z.to_nat (idx1_at + 8 + 16 * Z.of_nat n)) bytes) in
          entry = utf8 "01wb" ++ DWORD (int AVIIF_KEYFRAME)
                  ++ DWORD (int (chunk_offset frames n))
                  ++ DWORD (int (size (audioBlob t)))
          /\ u32_at 4 entry = Some 16
          /\ u32_at 8 entry = Some (chunk_offset frames n mod 2 ^ 32)
          /\ u32_at 12 entry = Some (size (audioBlob t) mod 2 ^ 32))
    /\ Z.of_nat (List.length bytes)
       = idx1_at + 8 + 16 * (Z.of_nat (List.length frames)
                             + match audio this with Some _ => 1 | None => 0 end).
Proof.
  intros Hr. pose proof (reachable_shaped this Hr) as Hs.
  eexists. eexists. cbv zeta. split; [apply (finish_closed this Hs)|].
  cbn [headerLIST moviLIST blob_bytes new_Blob].
  rewrite (hdrlSize_prop this Hs), (moviSize_prop this Hs).
  repeat apply conj.
  - replace (flat_map part_bytes (riff_chunks this))
      with (flat_map part_bytes
              ([VStr "RIFF"; VBuf (DWORD (int (aviSize this))); VStr "AVI "]
               ++ hdrl_chunks this ++ movi_chunks this)
            ++ utf8 "idx1"
            ++ flat_map part_bytes (tl (idx1_chunks this))).
    + apply (slice_at _ _ _ (28 + hdrlSize this + moviSize this) 4); [|reflexivity].
      apply riff_body_length.
    + unfold riff_chunks, idx1_chunks. normalize_bytes. reflexivity.
  - intros i dflt H.
    assert (E : firstn 16 (skipn (Z.to_nat (28 + hdrlSize this + moviSize this + 8
                                            + 16 * Z.of_nat i))
                             (flat_map part_bytes (riff_chunks this)))
                = utf8 "00dc" ++ DWORD (int AVIIF_KEYFRAME)
                  ++ DWORD (int (chunk_offset (frameList this) i))
                  ++ DWORD (int (size (nth i (frameList this) dflt)))).
    { replace (flat_map part_bytes (riff_chunks this))
        with ((flat_map part_bytes
                 ([VStr "RIFF"; VBuf (DWORD (int (aviSize this))); VStr "AVI "]
                  ++ hdrl_chunks this ++ movi_chunks this)
               ++ (utf8 "idx1" ++ DWORD (int (16 * entries this)))
               ++ flat_map part_bytes
                    (flat_map written (video_index 4 (firstn i (frameList this)))))
              ++ (utf8 "00dc" ++ DWORD (int AVIIF_KEYFRAME)
                  ++ DWORD (int (chunk_offset (frameList this) i))
                  ++ DWORD (int (size (nth i (frameList this) dflt))))
              ++ flat_map part_bytes
                   (flat_map written
                      (video_index (4 + chunks_size (firstn i (frameList this))
                                    + (size (nth i (frameList this) dflt) + 8))
                         (skipn (S i) (frameList this))
                       ++ match audio this with
                          | Some t => [IndexEntry "01wb" (4 + chunks_size (frameList this))
                                         (size (audioBlob t))]
                          | None => []
                          end))).
      - change 16%nat with (Z.to_nat 16). apply slice_at; [|reflexivity].
        rewrite !length_app, !Nat2Z.inj_add, riff_body_length, video_index_bytes.
        rewrite length_firstn, Nat.min_l by lia. count_bytes. lia.
      - unfold riff_chunks, idx1_chunks. rewrite all_streams_closed.
        replace (frameIndices
                   match audio this with
                   | Some t =>
                       {| aStreams := map video_chunk (frameList this)
                                      ++ [audio_chunk (audioBlob t)];
                          frameIndices := video_index 4 (frameList this)
                                          ++ [IndexEntry "01wb"
                                                (4 + chunks_size (frameList this))
                                                (size (audioBlob t))];
                          frOffset := 4 + chunks_size (frameList this);
                          streamSize := chunks_size (frameList this)
                                        + (size (audioBlob t) + 8) |}
                   | None =>
                       {| aStreams := map video_chunk (frameList this);
                          frameIndices := video_index 4 (frameList this);
                          frOffset := 4 + chunks_size (frameList this);
                          streamSize := chunks_size (frameList this) |}
                   end)
          with (video_index 4 (frameList this)
                ++ match audio this with
                   | Some t => [IndexEntry "01wb" (4 + chunks_size (frameList this))
                                  (size (audioBlob t))]
                   | None => []
                   end)
          by (destruct (audio this); [reflexivity | rewrite app_nil_r; reflexivity]).
        rewrite (video_index_split (frameList this) i dflt 4 H).
        rewrite !flat_map_app. cbn [flat_map]. rewrite written_IndexEntry.
        unfold chunk_offset. normalize_bytes. reflexivity. }
    rewrite E. split; [reflexivity|]. apply (entry_fields "00dc"). reflexivity.
  - intros t H.
    assert (E : firstn 16 (skipn (Z.to_nat (28 + hdrlSize this + moviSize this + 8
                                            + 16 * Z.of_nat (List.length (frameList this))))
                             (flat_map part_bytes (riff_chunks this)))
                = utf8 "01wb" ++ DWORD (int AVIIF_KEYFRAME)
                  ++ DWORD (int (chunk_offset (frameList this) (List.length (frameList this))))
                  ++ DWORD (int (size (audioBlob t)))).
    { replace (flat_map part_bytes (riff_chunks this))
        with ((flat_map part_bytes
                 ([VStr "RIFF"; VBuf (DWORD (int (aviSize this))); VStr "AVI "]
                  ++ hdrl_chunks this ++ movi_chunks this)
               ++ (utf8 "idx1" ++ DWORD (int (16 * entries this)))
               ++ flat_map part_bytes
                    (flat_map written (video_index 4 (frameList this))))
              ++ (utf8 "01wb" ++ DWORD (int AVIIF_KEYFRAME)
                  ++ DWORD (int (chunk_offset (frameList this)
                                   (List.length (frameList this))))
                  ++ DWORD (int (size (audioBlob t))))
              ++ []).
      - change 16%nat with (Z.to_nat 16). apply slice_at; [|reflexivity].
        rewrite !length_app, !Nat2Z.inj_add, riff_body_length, video_index_bytes.
        count_bytes. lia.
      - unfold riff_chunks, idx1_chunks. rewrite all_streams_closed, H.
        cbn [frameIndices]. rewrite !flat_map_app. cbn [flat_map].
        rewrite written_IndexEntry. unfold chunk_offset. rewrite firstn_all.
        normalize_bytes. rewrite ?app_nil_r. reflexivity. }
    rewrite E. split; [reflexivity|]. apply (entry_fields "01wb"). reflexivity.
  - rewrite riff_chunks_length. unfold aviSize, entries. lia.
Qed.

Lemma hdrlSize_value this :
  hdrlSize this = match audio this with Some _ => 294 | None => 192 end.
Proof. unfold hdrlSize. destruct (audio this); reflexivity. Qed.

Lemma chunks_size_total blobs :
  chunks_size blobs = total_size blobs + 8 * Z.of_nat (List.length blobs).
Proof.
  induction blobs as [|b r IH]; [reflexivity|].
  cbn [chunks_size total_size List.length]. rewrite IH. lia.
Qed.

Lemma riff_size this :
  Z.of_nat (List.length (flat_map part_bytes (riff_chunks this)))
  = 232 + total_size (frameList this) + 24 * Z.of_nat (List.length (frameList this))
    + match audio this with
      | Some t => 126 + size (audioBlob t)
      | None => 0
      end.
Proof.
  rewrite riff_chunks_length. unfold aviSize, moviSize, entries.
  rewrite hdrlSize_value, chunks_size_total.
  destruct (audio this) as [t|]; lia.
Qed.

(** X9. The size of the output is known before it is built: 232 bytes of
    headers and list framing, the accumulated stream size, 24 bytes per
    frame (chunk header and index entry), and with an audio track 126
    bytes more than its PCM data. *)
Theorem X9_output_size this :
  reachable this ->
  exists blob this',
    finish this = Ok (blob, this')
    /\ size blob
       = 232 + videoStreamSize (movieDesc this)
         + 24 * Z.of_nat (List.length (frameList this))
         + match audio this with
           | Some t => 126 + size (audioBlob t)
           | None => 0
           end.
Proof.
  intros Hr. pose proof (reachable_shaped this Hr) as Hs.
  destruct (reachable_accumulated this Hr) as (Hv & _ & _).
  eexists. eexists. split; [apply (finish_closed this Hs)|].
  unfold size at 1. cbn [blob_bytes new_Blob]. rewrite riff_size, Hv. reflexivity.
Qed.

(** X10. The video stream's time base at an integral frame rate: its
    scale, also the main header's microseconds per frame, is
    floor(1000000 / fps) against a rate of 1000000, so the frame rate a
    player derives is never below the one configured, exact when fps
    divides 1000000, and undefined (a scale of zero) when fps exceeds
    1000000. *)
Theorem X10_frame_timing this f :
  reachable this ->
  fps (movieDesc this) = inject_Z f ->
  0 < f ->
  let scale := 1000000 / f in
  exists blob this',
    finish this = Ok (blob, this')
    /\ u32_at 32 (blob_bytes blob) = Some scale
    /\ u32_at 128 (blob_bytes blob) = Some scale
    /\ u32_at 132 (blob_bytes blob) = Some 1000000
    /\ scale * f <= 1000000 < (scale + 1) * f
    /\ (1000000 mod f = 0 -> scale * f = 1000000)
    /\ (1000000 < f -> scale = 0).
Proof.
  intros Hr Ef Hf. cbv zeta. pose proof (reachable_shaped this Hr) as Hs.
  assert (Hdu : frameDu this = ofZ (1000000 / f))
    by (apply frameDu_floor; assumption).
  assert (Hb : 0 <= 1000000 / f < 2 ^ 32).
  { split; [apply Z.div_pos; lia|].
    apply Z.le_lt_trans with 1000000; [|reflexivity].
    apply Z.div_le_upper_bound; nia. }
  pose proof (Z.div_mod 1000000 f ltac:(lia)) as Hdm.
  pose proof (Z.mod_pos_bound 1000000 f Hf) as Hmb.
  eexists. eexists. split; [apply (finish_closed this Hs)|].
  cbn [blob_bytes new_Blob]. repeat apply conj.
  - erewrite u32_at_skipn_num by reflexivity.
    rewrite Hdu, ToInt32_int_mod, Z.mod_small by exact Hb. reflexivity.
  - erewrite u32_at_skipn_num by reflexivity.
    rewrite Hdu, ToInt32_int_mod, Z.mod_small by exact Hb. reflexivity.
  - read_u32.
  - nia.
  - nia.
  - intros Hd. nia.
  - intros Hbig. apply Z.div_small. lia.
Qed.

(** The image size: two products, each rounded. *)
Lemma image_size w h :
  Z.abs (3 * w * h) <= 2 ^ 53 ->
  ToInt32 (js_mul (js_mul (ofZ 3) (ofZ w)) (ofZ h)) mod 2 ^ 32 = (3 * w * h) mod 2 ^ 32.
Proof.
  intros Hb. destruct (Z.eq_dec h 0) as [-> | Hh].
  - rewrite Z.mul_0_r. destruct (js_mul (ofZ 3) (ofZ w)) as [q|]; [|reflexivity].
    unfold js_mul, ofZ, round_double. cbn [Qmult Qnum inject_Z].
    rewrite Z.mul_0_r. reflexivity.
  - assert (H3 : Z.abs (3 * w) <= 2 ^ 53) by nia.
    rewrite (js_mul_int 3 w H3), (js_mul_int (3 * w) h Hb). apply ToInt32_int_mod.
Qed.

Lemma bytes_at_skipn off (bytes mid rest : list byte) :
  skipn off bytes = mid ++ rest -> firstn (List.length mid) (skipn off bytes) = mid.
Proof.
  intros ->. rewrite firstn_app, Nat.sub_diag, firstn_all. cbn [firstn]. apply app_nil_r.
Qed.

(** X11. The video stream header and format record of the output: type
    [vids] handled by [mjpg], a frame rectangle of width by height held in
    16 bits each, and a 40-byte bitmap header of the configured width and
    height, one plane, 24 bits per pixel, compression [MJPG] and as image
    size the double product 3 * width * height, which is
    3 * width * height itself as long as that is at most 2^53 in absolute
    value; with audio, the second stream is of type [auds] with no
    handler. *)
Theorem X11_video_format this :
  reachable this ->
  exists blob this',
    let bytes := blob_bytes blob in
    finish this = Ok (blob, this')
    /\ firstn 4 (skipn 108 bytes) = utf8 "vids"
    /\ firstn 4 (skipn 112 bytes) = utf8 "mjpg"
    /\ u16_at 160 bytes = Some (w (movieDesc this) mod 2 ^ 16)
    /\ u16_at 162 bytes = Some (h (movieDesc this) mod 2 ^ 16)
    /\ firstn 4 (skipn 164 bytes) = utf8 "strf"
    /\ u32_at 168 bytes = Some 40
    /\ u32_at 172 bytes = Some 40
    /\ u32_at 176 bytes = Some (w (movieDesc this) mod 2 ^ 32)
    /\ u32_at 180 bytes = Some (h (movieDesc this) mod 2 ^ 32)
    /\ u16_at 184 bytes = Some 1
    /\ u16_at 186 bytes = Some 24
    /\ firstn 4 (skipn 188 bytes) = utf8 "MJPG"
    /\ u32_at 192 bytes
       = Some (ToInt32 (js_mul (js_mul (ofZ 3) (ofZ (w (movieDesc this))))
                          (ofZ (h (movieDesc this)))) mod 2 ^ 32)
    /\ (Z.abs (3 * w (movieDesc this) * h (movieDesc this)) <= 2 ^ 53 ->
        u32_at 192 bytes
        = Some ((3 * w (movieDesc this) * h (movieDesc this)) mod 2 ^ 32))
    /\ (forall t, audio this = Some t ->
          firstn 4 (skipn 232 bytes) = utf8 "auds"
          /\ firstn 4 (skipn 236 bytes) = [x00; x00; x00; x00]).
Proof.
  intros Hr. pose proof (reachable_shaped this Hr) as Hs.
  eexists. eexists. cbv zeta. split; [apply (finish_closed this Hs)|].
  cbn [blob_bytes new_Blob]. repeat apply conj.
  - eapply (bytes_at_skipn 108 _ (utf8 "vids")); reflexivity.
  - eapply (bytes_at_skipn 112 _ (utf8 "mjpg")); reflexivity.
  - read_u16.
  - read_u16.
  - eapply (bytes_at_skipn 164 _ (utf8 "strf")); reflexivity.
  - read_u32.
  - read_u32.
  - read_u32.
  - read_u32.
  - read_u16.
  - read_u16.
  - eapply (bytes_at_skipn 188 _ (utf8 "MJPG")); reflexivity.
  - erewrite u32_at_skipn_num by reflexivity. reflexivity.
  - intros Hb. erewrite u32_at_skipn_num by reflexivity.
    rewrite (image_size _ _ Hb). reflexivity.
  - intros t Ha. split.
    + audio_header Ha. eapply (bytes_at_skipn 232 _ (utf8 "auds")); reflexivity.
    + audio_header Ha. eapply (bytes_at_skipn 236 _ [x00; x00; x00; x00]); reflexivity.
Qed.

Lemma chunks_size_even blobs :
  Forall (fun blob => Z.even (size blob) = true) blobs -> Z.even (chunks_size blobs) = true.
Proof.
  induction 1 as [|b r Hb _ IH]; [reflexivity|].
  cbn [chunks_size]. rewrite !Z.even_add, Hb, IH. reflexivity.
Qed.

Lemma total_size_even blobs :
  Forall (fun blob => Z.even (size blob) = true) blobs -> Z.even (total_size blobs) = true.
Proof.
  induction 1 as [|b r Hb _ IH]; [reflexivity|].
  cbn [total_size]. rewrite Z.even_add, Hb, IH. reflexivity.
Qed.

Lemma Forall_firstn' {A : Type} (P : A -> Prop) i l : Forall P l -> Forall P (firstn i l).
Proof.
  intros H. revert i. induction H as [|x l Hx _ IH]; intros [|i]; cbn [firstn];
    constructor; [exact Hx | apply IH].
Qed.

(** X12. Every chunk of the movie list, the audio chunk included, starts
    at an even offset of the output, since frames are stored with an even
    length; the PCM data is written as it is, so the index table that
    follows it starts at an even offset, and the output has an even
    length, exactly when the PCM data has. *)
Theorem X12_word_alignment this :
  reachable this ->
  exists blob this',
    let movi_at := 28 + int_prop (headerLIST this') "dwSize" in
    let idx1_at := movi_at + int_prop (moviLIST this') "dwSize" in
    let pcm_even := match audio this with
                    | Some t => Z.even (size (audioBlob t))
                    | None => true
                    end in
    finish this = Ok (blob, this')
    /\ (forall i, Z.even (movi_at + chunk_offset (frameList this) i) = true)
    /\ Z.even idx1_at = pcm_even
    /\ Z.even (size blob) = pcm_even.
Proof.
  intros Hr. pose proof (reachable_shaped this Hr) as Hs.
  destruct (reachable_accumulated this Hr) as (_ & _ & He).
  eexists. eexists. cbv zeta. split; [apply (finish_closed this Hs)|].
  cbn [headerLIST moviLIST]. rewrite (hdrlSize_prop this Hs), (moviSize_prop this Hs).
  rewrite hdrlSize_value. repeat apply conj.
  - intros i. unfold chunk_offset.
    rewrite !Z.even_add, (chunks_size_even _ (Forall_firstn' _ i _ He)).
    destruct (audio this); reflexivity.
  - unfold moviSize. destruct (audio this) as [t|];
      rewrite !Z.even_add, (chunks_size_even _ He);
      [destruct (Z.even (size (audioBlob t)))|]; reflexivity.
  - unfold size at 1. cbn [blob_bytes new_Blob]. rewrite riff_size.
    destruct (audio this) as [t|];
      rewrite !Z.even_add, Z.even_mul, (total_size_even _ He);
      [destruct (Z.even (size (audioBlob t)))|]; reflexivity.
Qed.

Lemma slice_short n u : (String.length u <= n)%nat -> slice n u = "".
Proof.
  revert u. induction n as [|n IH]; intros [|c u] H; cbn in *; try reflexivity; try lia.
  apply IH. lia.
Qed.

Lemma max_size_bounds blobs :
  Forall (fun blob => size blob <= max_size blobs) blobs
  /\ 0 <= max_size blobs
  /\ (blobs <> [] -> Exists (fun blob => size blob = max_size blobs) blobs)
  /\ max_size blobs <= total_size blobs <= Z.of_nat (List.length blobs) * max_size blobs.
Proof.
  induction blobs as [|b r (Hall & Hpos & Hex & Hlo & Hhi)].
  - repeat split; try constructor; try reflexivity; try congruence.
  - cbn [max_size total_size List.length]. pose proof (size_nonneg b) as Hb.
    repeat apply conj.
    + constructor; [lia|]. eapply Forall_impl; [|exact Hall]. cbn. intros x Hx. lia.
    + lia.
    + intros _. destruct (Z.max_spec (size b) (max_size r)) as [[Hlt ->]|[Hge ->]].
      * apply Exists_cons_tl. apply Hex. intros ->. cbn in Hlt. lia.
      * apply Exists_cons_hd. reflexivity.
    + assert (0 <= total_size r) by lia. lia.
    + rewrite Nat2Z.inj_succ. nia.
Qed.

(** X13. An argument of at most 23 characters, such as the bare prefix
    of a data URL, is not rejected: [addFrame] stores an empty frame,
    counted as a frame, and leaves the running sizes as they are. *)
Theorem X13_addFrame_without_payload u this :
  reachable this ->
  (String.length u <= 23)%nat ->
  addFrame u this
  = Ok {| movieDesc := movieDesc this;
          avi := avi this;
          headerLIST := headerLIST this;
          moviLIST := moviLIST this;
          frameList := frameList this ++ [mkBlob [] "image/jpeg"];
          audio := audio this |}.
Proof.
  intros Hr Hu. destruct (reachable_accumulated this Hr) as (_ & Hm & _).
  destruct (max_size_bounds (frameList this)) as (_ & Hpos & _).
  rewrite (addFrame_closed u this "")
    by (rewrite (slice_short 23 u Hu); reflexivity).
  cbn [padded list_ascii_of_string map List.length Nat.even Z.of_nat].
  rewrite Z.add_0_r, Z.max_l by (rewrite Hm; exact Hpos).
  destruct (movieDesc this). reflexivity.
Qed.

(** X14. The largest frame size the builder tracks bounds the size of
    every frame stored and is the size of one of them; the stream size
    lies between it and the number of frames times it. *)
Theorem X14_max_frame_size this :
  reachable this ->
  let largest := maxJPEGSize (movieDesc this) in
  Forall (fun blob => size blob <= largest) (frameList this)
  /\ (frameList this <> [] -> Exists (fun blob => size blob = largest) (frameList this))
  /\ (frameList this = [] -> largest = 0)
  /\ largest <= videoStreamSize (movieDesc this)
     <= Z.of_nat (List.length (frameList this)) * largest.
Proof.
  intros Hr. cbv zeta. destruct (reachable_accumulated this Hr) as (Hv & Hm & _).
  rewrite Hv, Hm.
  destruct (max_size_bounds (frameList this)) as (Hall & _ & Hex & Hb).
  repeat apply conj; try assumption; try apply Hb.
  intros ->. reflexivity.
Qed.

(** X15. What is accumulated does not depend on when the configuration
    and the audio track are given: [setup] and [addAudio] commute with
    [addFrame] and with each other, and a later [setup] or [addAudio]
    replaces an earlier one. *)
Theorem X15_accumulation_order this :
  (forall u frameWidth frameHeight fps,
      addFrame u (setup frameWidth frameHeight fps this)
      = (this' <- addFrame u this ;; Ok (setup frameWidth frameHeight fps this')))
  /\ (forall u blob numChannels sampleRate,
         addFrame u (addAudio blob numChannels sampleRate this)
         = (this' <- addFrame u this ;; Ok (addAudio blob numChannels sampleRate this')))
  /\ (forall frameWidth frameHeight fps blob numChannels sampleRate,
         setup frameWidth frameHeight fps (addAudio blob numChannels sampleRate this)
         = addAudio blob numChannels sampleRate (setup frameWidth frameHeight fps this))
  /\ (forall w1 h1 f1 w2 h2 f2, setup w2 h2 f2 (setup w1 h1 f1 this) = setup w2 h2 f2 this)
  /\ (forall b1 c1 r1 b2 c2 r2,
         addAudio b2 c2 r2 (addAudio b1 c1 r1 this) = addAudio b2 c2 r2 this).
Proof.
  repeat apply conj; try reflexivity.
  - intros u fw fh f. unfold addFrame. destruct (atob (slice 23 u)); reflexivity.
  - intros u b c r. unfold addFrame. destruct (atob (slice 23 u)); reflexivity.
Qed.

(** * The recorder *)

(** X16. With a [MediaRecorder] that can tell what it supports, the
    recorder settles on the first type supported among VP9, VP8 (each
    with Opus when audio is recorded) and plain WebM, and on the empty
    type, still with the container [webm], when none is; so a type it
    settles on is either empty or supported.  The container is always one
    of [webm], [mp4] and [avi], and [avi] exactly without
    [MediaRecorder]. *)
Theorem X16_select_format (recordAudio : bool) :
  (forall isTypeSupported,
      let opus := if recordAudio then ",opus" else "" in
      let candidates := [("video/webm;codecs=vp9" ++ opus)%string;
                         ("video/webm;codecs=vp8" ++ opus)%string;
                         "video/webm"] in
      let mimeType := snd (select_format (TypedMediaRecorder isTypeSupported) recordAudio) in
      fst (select_format (TypedMediaRecorder isTypeSupported) recordAudio) = "webm"
      /\ mimeType = match find isTypeSupported candidates with
                    | Some supported => supported
                    | None => ""
                    end
      /\ (mimeType = "" \/ isTypeSupported mimeType = true))
  /\ (forall api videoWidth videoHeight fps,
         let this := new_CamRecorder api recordAudio videoWidth videoHeight fps in
         In (getVideoContainer this) ["webm"; "mp4"; "avi"]
         /\ (getVideoContainer this = "avi" <-> _hasMediaRecorder this = false)).
Proof.
  split.
  - intros f. cbv zeta. cbn [select_format find].
    destruct (f ("video/webm;codecs=vp9" ++ (if recordAudio then ",opus" else ""))%string)
      eqn:E9; cbn [negb fst snd]; [auto|].
    destruct (f ("video/webm;codecs=vp8" ++ (if recordAudio then ",opus" else ""))%string)
      eqn:E8; cbn [negb fst snd]; [auto|].
    destruct (f "video/webm") eqn:Ew; cbn [negb fst snd]; auto.
  - intros api vw vh f. cbv zeta. unfold getVideoContainer, new_CamRecorder.
    cbn [_container _hasMediaRecorder].
    destruct api as [| |g].
    + split; [right; right; left; reflexivity | split; reflexivity].
    + split; [right; left; reflexivity | split; discriminate].
    + assert (E : fst (select_format (TypedMediaRecorder g) recordAudio) = "webm").
      { cbn [select_format].
        destruct (g _); cbn [negb]; [reflexivity|].
        destruct (g _); cbn [negb]; [reflexivity|].
        destruct (g _); reflexivity. }
      rewrite E. split; [left; reflexivity | split; discriminate].
Qed.

Lemma recorded_chunks datas this l :
  _frames this = Chunks l ->
  fold_left (fun s d => ondataavailable d s) datas this
  = set_frames
      (Chunks (l ++ flat_map (fun d => match d with
                                       | Some blob => if 0 <? size blob then [blob] else []
                                       | None => []
                                       end) datas)) this.
Proof.
  revert this l. induction datas as [|d datas IH]; intros this l Hl.
  - cbn [fold_left flat_map]. rewrite app_nil_r. destruct this. cbn in Hl. subst.
    reflexivity.
  - cbn [fold_left flat_map]. unfold ondataavailable at 2. rewrite Hl.
    destruct d as [blob|].
    + destruct (0 <? size blob).
      * rewrite (IH _ (l ++ [blob])) by reflexivity. rewrite <- app_assoc.
        destruct this. reflexivity.
      * rewrite (IH this l Hl). reflexivity.
    + rewrite (IH this l Hl). reflexivity.
Qed.

Lemma empty_blob_bytes blob : (0 <? size blob) = false -> blob_bytes blob = [].
Proof.
  unfold size. intros H. apply Z.ltb_ge in H.
  destruct (blob_bytes blob); [reflexivity | cbn [List.length] in H; lia].
Qed.

(** X17. With [MediaRecorder] the clip is the data of the
    [dataavailable] events between [start] and [stop], joined in the order
    of arrival and typed with the recorder's MIME type; events without
    data or with empty data leave no trace, and what an earlier recording
    left is discarded by [start]. *)
Theorem X17_recorded_chunks this datas :
  _hasMediaRecorder this = true ->
  let this' := onstop (fold_left (fun s d => ondataavailable d s) datas (start this)) in
  _blob this'
  = Some (mkBlob (flat_map (fun d => match d with
                                     | Some blob => blob_bytes blob
                                     | None => []
                                     end) datas)
            (_mimeType this))
  /\ _container this' = _container this.
Proof.
  intros Hm. cbv zeta. unfold start. rewrite Hm.
  rewrite (recorded_chunks datas _ []) by reflexivity.
  unfold onstop. cbn [_frames set_frames _blob set_blob _mimeType _container app].
  split; [|reflexivity]. f_equal. unfold new_Blob. f_equal.
  induction datas as [|[blob|] datas IH]; cbn [flat_map map]; [reflexivity| |exact IH].
  destruct (0 <? size blob) eqn:E.
  - cbn [app map flat_map part_bytes]. rewrite IH. reflexivity.
  - cbn [app]. rewrite (empty_blob_bytes blob E), IH. reflexivity.
Qed.

Lemma captured_urls urls this l :
  _frames this = Urls l ->
  fold_left (fun s u => capture u s) urls this = set_frames (Urls (l ++ urls)) this.
Proof.
  revert this l. induction urls as [|u urls IH]; intros this l Hl.
  - cbn [fold_left]. rewrite app_nil_r. destruct this. cbn in Hl. subst. reflexivity.
  - cbn [fold_left]. unfold capture at 2. rewrite Hl.
    rewrite (IH _ (l ++ [u])) by reflexivity. rewrite <- app_assoc.
    destruct this. reflexivity.
Qed.

Lemma addFrames_closed urls this :
  Forall (fun u => exists frame, atob (slice 23 u) = Ok frame) urls ->
  exists this',
    addFrames urls this = Ok this'
    /\ w (movieDesc this') = w (movieDesc this)
    /\ h (movieDesc this') = h (movieDesc this)
    /\ fps (movieDesc this') = fps (movieDesc this)
    /\ List.length (frameList this') = (List.length (frameList this) + List.length urls)%nat
    /\ audio this' = audio this.
Proof.
  intros H. revert this. induction H as [|u urls (frame & Hu) _ IH]; intros this.
  - exists this. cbn [addFrames List.length]. rewrite Nat.add_0_r. repeat split.
  - cbn [addFrames]. rewrite (addFrame_closed u this frame Hu). cbn [bind].
    destruct (IH {| movieDesc :=
          mkMovieDesc (w (movieDesc this)) (h (movieDesc this)) (fps (movieDesc this))
            (videoStreamSize (movieDesc this) + Z.of_nat (List.length (padded frame)))
            (Z.max (maxJPEGSize (movieDesc this)) (Z.of_nat (List.length (padded frame))));
        avi := avi this;
        headerLIST := headerLIST this;
        moviLIST := moviLIST this;
        frameList := frameList this ++ [mkBlob (padded frame) "image/jpeg"];
        audio := audio this |}) as (this' & E & Hw & Hh & Hf & Hn & Ha).
    exists this'. cbn [movieDesc w h fps frameList audio] in Hw, Hh, Hf, Hn, Ha.
    rewrite length_app in Hn. cbn [List.length] in Hn |- *.
    repeat apply conj; try assumption. lia.
Qed.

Lemma atob_throws data e : atob data = Throw e -> e = InvalidCharacterError.
Proof.
  unfold atob. destruct (Nat.modulo _ 4 =? 1)%nat; [congruence|].
  destruct (base64_digits _); congruence.
Qed.

Lemma addFrames_throws urls this :
  Exists (fun u => forall frame, atob (slice 23 u) <> Ok frame) urls ->
  addFrames urls this = Throw InvalidCharacterError.
Proof.
  intros H. revert this. induction H as [u urls Hu|u urls _ IH]; intros this.
  - cbn [addFrames]. unfold addFrame.
    destruct (atob (slice 23 u)) as [frame|e] eqn:E; [destruct (Hu frame); reflexivity|].
    rewrite (atob_throws _ _ E). reflexivity.
  - cbn [addFrames]. destruct (addFrame u this) as [m|e] eqn:E.
    + cbn [bind]. apply IH.
    + unfold addFrame in E. destruct (atob (slice 23 u)) as [frame|e'] eqn:E'.
      * discriminate.
      * cbn [bind] in E. injection E as <-. rewrite (atob_throws _ _ E'). reflexivity.
Qed.

(** X18. Without [MediaRecorder], a recorder that was started and
    captured frames that all decode stops with an AVI: a blob of type
    [video/avi] (not the recorder's own MIME type) that declares as many
    frames as were captured, the recorder's width and height, and a
    header list of 294 bytes with the audio stream when audio is recorded
    and of 192 bytes without; it is saved by default as
    [recording.avi]. *)
Theorem X18_canvas_recording (recordAudio : bool) videoWidth videoHeight fps urls data :
  Forall (fun u => exists frame, atob (slice 23 u) = Ok frame) urls ->
  let this := fold_left (fun s u => capture u s) urls
                (start (new_CamRecorder NoMediaRecorder recordAudio videoWidth videoHeight fps)) in
  exists this' blob,
    stop_canvas data this = Ok this'
    /\ _blob this' = Some blob
    /\ blob_type blob = "video/avi"
    /\ blob_type blob <> _mimeType this'
    /\ u32_at 48 (blob_bytes blob) = Some (Z.of_nat (List.length urls) mod 2 ^ 32)
    /\ u32_at 16 (blob_bytes blob) = Some (if recordAudio then 294 else 192)
    /\ u32_at 64 (blob_bytes blob) = Some (videoWidth mod 2 ^ 32)
    /\ u32_at 68 (blob_bytes blob) = Some (videoHeight mod 2 ^ 32)
    /\ file_name None this' = "recording.avi".
Proof.
  intros Hurls. cbv zeta.
  rewrite (captured_urls urls _ []) by reflexivity. cbn [app].
  unfold stop_canvas, start, new_CamRecorder.
  cbn [_frames set_frames _hasMediaRecorder _videoWidth _videoHeight _fps _audio bind].
  destruct (addFrames_closed urls (setup videoWidth videoHeight fps new_MJPEGBuilder) Hurls)
    as (m & E & Hw & Hh & _ & Hn & Ha).
  cbn [setup movieDesc w h frameList audio new_MJPEGBuilder List.length Nat.add] in Hw, Hh, Hn, Ha.
  assert (Hr : reachable m).
  { apply (addFrames_reachable urls _ m (reach_setup _ videoWidth videoHeight fps reach_new) E). }
  rewrite E. cbn [bind].
  destruct recordAudio.
  - pose proof (reach_addAudio m (fst (fst data)) (snd (fst data)) (snd data) Hr) as Hr'.
    rewrite (finish_closed _ (reachable_shaped _ Hr')). cbn [bind fst].
    eexists. eexists. split; [reflexivity|].
    cbn [_blob set_blob blob_type blob_bytes new_Blob _mimeType select_format snd].
    repeat apply conj.
    + reflexivity.
    + reflexivity.
    + discriminate.
    + erewrite u32_at_skipn by reflexivity. unfold frameCount. cbn [addAudio frameList].
      rewrite Hn. reflexivity.
    + erewrite u32_at_skipn by reflexivity. rewrite hdrlSize_value. reflexivity.
    + erewrite u32_at_skipn by reflexivity. cbn [addAudio movieDesc]. rewrite Hw. reflexivity.
    + erewrite u32_at_skipn by reflexivity. cbn [addAudio movieDesc]. rewrite Hh. reflexivity.
    + reflexivity.
  - rewrite (finish_closed _ (reachable_shaped _ Hr)). cbn [bind fst].
    eexists. eexists. split; [reflexivity|].
    cbn [_blob set_blob blob_type blob_bytes new_Blob _mimeType select_format snd].
    repeat apply conj.
    + reflexivity.
    + reflexivity.
    + discriminate.
    + erewrite u32_at_skipn by reflexivity. unfold frameCount. rewrite Hn. reflexivity.
    + erewrite u32_at_skipn by reflexivity. rewrite hdrlSize_value, Ha. reflexivity.
    + erewrite u32_at_skipn by reflexivity. rewrite Hw. reflexivity.
    + erewrite u32_at_skipn by reflexivity. rewrite Hh. reflexivity.
    + reflexivity.
Qed.

(** X19. Stopping a recorder without [MediaRecorder] fails, leaving no
    clip, when it was never started, and when any one of the captured
    frames does not decode, however many others do. *)
Theorem X19_canvas_recording_fails (recordAudio : bool) videoWidth videoHeight fps data :
  let this := new_CamRecorder NoMediaRecorder recordAudio videoWidth videoHeight fps in
  stop_canvas data this = Throw TypeError
  /\ (forall urls,
         Exists (fun u => forall frame, atob (slice 23 u) <> Ok frame) urls ->
         stop_canvas data (fold_left (fun s u => capture u s) urls (start this))
         = Throw InvalidCharacterError).
Proof.
  cbv zeta. split; [reflexivity|]. intros urls Hurls.
  rewrite (captured_urls urls _ []) by reflexivity. cbn [app].
  unfold stop_canvas, start, new_CamRecorder.
  cbn [_frames set_frames _hasMediaRecorder _videoWidth _videoHeight _fps _audio bind].
  rewrite (addFrames_throws urls _ Hurls). reflexivity.
Qed.
End Host.

(** * The end-to-end scenarios *)

Lemma recording_reachable :
  reachable host_StringToNumber host_ToString (recording host_ToString).
Proof.
  apply (addFrames_reachable host_StringToNumber host_ToString
           [data_url 100; data_url 150; data_url 120]
           (setup 320 240 10 new_MJPEGBuilder)).
  - apply reach_setup, reach_new.
  - vm_compute. reflexivity.
Qed.

Lemma recording_audio_reachable :
  reachable host_StringToNumber host_ToString (recording_audio host_ToString).
Proof. apply reach_addAudio, recording_reachable. Qed.

(** C1 on the recording with audio. *)
Lemma C1_declared_sizes_witness :
  reachable host_StringToNumber host_ToString (recording_audio host_ToString)
  /\ exists blob this',
       finish host_StringToNumber host_ToString (recording_audio host_ToString)
       = Ok (blob, this')
       /\ declares host_StringToNumber host_ToString (moviLIST this') "aStreams" 4
       /\ declares host_StringToNumber host_ToString (headerLIST this') "aData" 4
       /\ declares host_StringToNumber host_ToString (avi this') "aData" 4
       /\ int_prop (moviLIST this') "dwSize" = 4 + 108 + 158 + 128 + 4008.
Proof.
  split; [exact recording_audio_reachable|].
  destruct (C1_declared_sizes host_StringToNumber host_ToString
              (recording_audio host_ToString) recording_audio_reachable)
    as (blob & this' & Hfin & Hm & Hms & Hh & _ & _ & _ & _ & _ & Ha & _).
  exists blob, this'.
  repeat apply conj; [exact Hfin | exact Hm | exact Hh | exact Ha | exact Hms].
Defined.

(** C2 on the recording with audio: the output has four index entries,
    at offsets 4, 112 and 270 with lengths 100, 150 and 120, then the
    audio entry at 398 with length 4000. *)
Lemma C2_index_table_witness :
  let this := recording_audio host_ToString in
  reachable host_StringToNumber host_ToString this
  /\ exists blob this',
       let idx := children (indexChunk this) "aData" in
       let idx1_at := 28 + int_prop (headerLIST this') "dwSize"
                      + int_prop (moviLIST this') "dwSize" in
       finish host_StringToNumber host_ToString this = Ok (blob, this')
       /\ nth 2 (children (avi this') "aData") VUndefined = obj (indexChunk this)
       /\ List.length idx = 4%nat
       /\ nth 0 idx VUndefined = IndexEntry "00dc" 4 100
       /\ nth 1 idx VUndefined = IndexEntry "00dc" 112 150
       /\ nth 2 idx VUndefined = IndexEntry "00dc" 270 120
       /\ nth 3 idx VUndefined = IndexEntry "01wb" 398 4000
       /\ skipn (Z.to_nat idx1_at) (blob_bytes blob)
          = utf8 "idx1" ++ DWORD host_StringToNumber host_ToString (int (16 * 4))
            ++ flat_map (part_bytes host_ToString)
                 (flat_map (written host_StringToNumber host_ToString) idx).
Proof.
  cbv zeta. split; [exact recording_audio_reachable|].
  pose proof (C2_index_table host_StringToNumber host_ToString
                (recording_audio host_ToString) recording_audio_reachable) as H.
  cbv zeta in H.
  destruct H as (blob & this' & Hfin & _ & Hidx & Hlen & _ & Hi & Ha & _ & Hbytes & _).
  assert (H0 : (0 < List.length (frameList (recording_audio host_ToString)))%nat)
    by (vm_compute; lia).
  assert (H1 : (1 < List.length (frameList (recording_audio host_ToString)))%nat)
    by (vm_compute; lia).
  assert (H2 : (2 < List.length (frameList (recording_audio host_ToString)))%nat)
    by (vm_compute; lia).
  exists blob, this'. repeat apply conj.
  - exact Hfin.
  - exact Hidx.
  - exact Hlen.
  - exact (proj1 (Hi 0%nat (mkBlob [] "") H0)).
  - exact (proj1 (Hi 1%nat (mkBlob [] "") H1)).
  - exact (proj1 (Hi 2%nat (mkBlob [] "") H2)).
  - exact (proj1 (Ha _ eq_refl)).
  - exact Hbytes.
Defined.

(** Against C3 as stated: with a frame rate of zero, with no frame, and
    with both, [finish] returns a blob. *)
Lemma C3_counterexample :
  let zero_fps := setup 320 240 0 (recording host_ToString) in
  let no_frames := setup 320 240 10 new_MJPEGBuilder in
  (fps (movieDesc zero_fps) = 0%Q
   /\ exists blob this', finish host_StringToNumber host_ToString zero_fps = Ok (blob, this'))
  /\ (frameList no_frames = []
      /\ exists blob this',
           finish host_StringToNumber host_ToString no_frames = Ok (blob, this'))
  /\ (fps (movieDesc new_MJPEGBuilder) = 0%Q /\ frameList new_MJPEGBuilder = []
      /\ exists blob this',
           finish host_StringToNumber host_ToString new_MJPEGBuilder = Ok (blob, this')).
Proof.
  cbv zeta. repeat apply conj; try reflexivity;
    eexists; eexists; vm_compute; reflexivity.
Qed.

(** C3 as amended, at a frame rate of zero. *)
Lemma C3_finish_returns_witness :
  let zero_fps := setup 320 240 0 (recording host_ToString) in
  reachable host_StringToNumber host_ToString zero_fps
  /\ exists blob this',
       finish host_StringToNumber host_ToString zero_fps = Ok (blob, this')
       /\ blob_type blob = "video/avi"
       /\ u32_at 32 (blob_bytes blob) = Some 0.
Proof.
  cbv zeta.
  assert (Hr : reachable host_StringToNumber host_ToString
                 (setup 320 240 0 (recording host_ToString)))
    by (apply reach_setup, recording_reachable).
  split; [exact Hr|].
  destruct (C3_finish_returns host_StringToNumber host_ToString _ Hr)
    as (blob & this' & Hfin & Ht & Hz & _).
  exists blob, this'. repeat apply conj; [exact Hfin | exact Ht | apply Hz; reflexivity].
Defined.

(** Against C4 as stated.  At 29.97 frames per second and one frame of 6
    bytes the header of the output holds 179 bytes per second, the integer
    part of the product; at [2 ^ 52 + 1] frames per second the double
    product is [6 * 2 ^ 52 + 8], so that the header holds 8 where the low
    32 bits of the product are 6. *)
Lemma C4_counterexample :
  (let this := short_clip host_ToString ntsc in
   reachable host_StringToNumber host_ToString this
   /\ (0 < fps (movieDesc this))%Q
   /\ List.map size (frameList this) = [6]
   /\ max_size (frameList this) = 6
   /\ exists blob this',
        finish host_StringToNumber host_ToString this = Ok (blob, this')
        /\ u32_at 36 (blob_bytes blob) = Some 179
        /\ ~ (inject_Z 179 == 6 * ntsc)%Q)
  /\ (let this := short_clip host_ToString (inject_Z (2 ^ 52 + 1)) in
      reachable host_StringToNumber host_ToString this
      /\ (0 < fps (movieDesc this))%Q
      /\ List.map size (frameList this) = [6]
      /\ max_size (frameList this) = 6
      /\ prop (avih this) "dwMaxBytesPerSec" = int (6 * 2 ^ 52 + 8)
      /\ 6 * 2 ^ 52 + 8 <> 6 * (2 ^ 52 + 1)
      /\ exists blob this',
           finish host_StringToNumber host_ToString this = Ok (blob, this')
           /\ u32_at 36 (blob_bytes blob) = Some 8
           /\ (6 * (2 ^ 52 + 1)) mod 2 ^ 32 = 6).
Proof.
  assert (Hr : forall q, reachable host_StringToNumber host_ToString
                           (short_clip host_ToString q)).
  { intros q.
    apply (addFrames_reachable host_StringToNumber host_ToString
             [data_url 6] (setup 320 240 q new_MJPEGBuilder)).
    - apply reach_setup, reach_new.
    - reflexivity. }
  cbv zeta. split.
  - split; [exact (Hr _)|]. split; [vm_compute; reflexivity|].
    split; [reflexivity|]. split; [reflexivity|].
    eexists. eexists. split; [vm_compute; reflexivity|].
    split; [vm_compute; reflexivity|]. vm_compute. discriminate.
  - split; [exact (Hr _)|]. split; [vm_compute; reflexivity|].
    split; [reflexivity|]. split; [reflexivity|].
    split; [vm_compute; reflexivity|]. split; [vm_compute; discriminate|].
    eexists. eexists. split; [vm_compute; reflexivity|].
    split; vm_compute; reflexivity.
Qed.

(** C4 as amended, on the recording: 100000 microseconds per frame,
    150 * 10 bytes per second, 320 x 240, two streams without audio. *)
Lemma C4_main_header_witness :
  reachable host_StringToNumber host_ToString (recording host_ToString)
  /\ (0 < fps (movieDesc (recording host_ToString)))%Q
  /\ frameList (recording host_ToString) <> []
  /\ audio (recording host_ToString) = None
  /\ exists blob this',
       finish host_StringToNumber host_ToString (recording host_ToString) = Ok (blob, this')
       /\ u32_at 32 (blob_bytes blob) = Some 100000
       /\ u32_at 36 (blob_bytes blob) = Some 1500
       /\ u32_at 56 (blob_bytes blob) = Some 2
       /\ u32_at 64 (blob_bytes blob) = Some 320
       /\ u32_at 68 (blob_bytes blob) = Some 240.
Proof.
  assert (Hf : (0 < fps (movieDesc (recording host_ToString)))%Q)
    by (vm_compute; reflexivity).
  assert (Hn : frameList (recording host_ToString) <> []) by (vm_compute; discriminate).
  assert (Hb : max_size (frameList (recording host_ToString)) * 10 <= 2 ^ 53)
    by (vm_compute; discriminate).
  repeat apply conj; [exact recording_reachable | exact Hf | exact Hn | reflexivity |].
  pose proof (C4_main_header host_StringToNumber host_ToString (recording host_ToString)
                recording_reachable Hf Hn) as H.
  cbv zeta in H.
  destruct H as (blob & this' & Hfin & _ & _ & _ & _ & _ & _ & _ & _ & _ & _
                 & H56 & H64 & H68 & Hint).
  destruct (Hint 10 eq_refl) as (_ & H32 & Hrate).
  destruct (Hrate Hb) as (_ & H36).
  exists blob, this'.
  repeat apply conj; [exact Hfin | exact H32 | exact H36 | exact H56 | exact H64 | exact H68].
Defined.

(** C5 on the recording: three frames. *)
Lemma C5_frame_counts_witness :
  reachable host_StringToNumber host_ToString (recording host_ToString)
  /\ exists blob this',
       finish host_StringToNumber host_ToString (recording host_ToString) = Ok (blob, this')
       /\ u32_at 48 (blob_bytes blob) = Some 3
       /\ u32_at 140 (blob_bytes blob) = Some 3.
Proof.
  split; [exact recording_reachable|].
  destruct (C5_frame_counts host_StringToNumber host_ToString (recording host_ToString)
              recording_reachable)
    as (blob & this' & Hfin & _ & _ & _ & _ & _ & H48 & H140).
  exists blob, this'. repeat apply conj; [exact Hfin | exact H48 | exact H140].
Defined.

(** Against C6 as stated: with 3 channels at a sample rate of
    4503599761588225 the product is 13510799284764675, the double the code
    computes is 13510799284764676, and the header holds its low 32 bits,
    402653188, where those of the product are 402653187. *)
Lemma C6_counterexample :
  let this := recording_wide host_ToString in
  let t := mkAudioTrack (mkBlob (repeat x00 4000) "") 3 4503599761588225 in
  reachable host_StringToNumber host_ToString this
  /\ audio this = Some t
  /\ audioNumChannels t * audioSampleRate t = 13510799284764675
  /\ prop (strh_audio this t) "dwRate" = int 13510799284764676
  /\ exists blob this',
       finish host_StringToNumber host_ToString this = Ok (blob, this')
       /\ u32_at 256 (blob_bytes blob) = Some 402653188
       /\ (audioNumChannels t * audioSampleRate t) mod 2 ^ 32 = 402653187.
Proof.
  cbv zeta. repeat apply conj.
  - apply reach_addAudio, recording_reachable.
  - reflexivity.
  - reflexivity.
  - vm_compute. reflexivity.
  - eexists. eexists. repeat apply conj; vm_compute; reflexivity.
Qed.

(** C6 as amended, on the recording with audio: 1 * 8000 * 3 / 10 = 2400. *)
Lemma C6_audio_stream_header_witness :
  let t := mkAudioTrack (mkBlob (repeat x00 4000) "") 1 8000 in
  reachable host_StringToNumber host_ToString (recording_audio host_ToString)
  /\ audio (recording_audio host_ToString) = Some t
  /\ fps (movieDesc (recording_audio host_ToString)) = inject_Z 10
  /\ exists blob this',
       finish host_StringToNumber host_ToString (recording_audio host_ToString)
       = Ok (blob, this')
       /\ u32_at 252 (blob_bytes blob) = Some 1
       /\ u32_at 256 (blob_bytes blob) = Some 8000
       /\ u32_at 264 (blob_bytes blob) = Some 2400
       /\ u32_at 276 (blob_bytes blob) = Some 2.
Proof.
  cbv zeta.
  repeat apply conj; [exact recording_audio_reachable | reflexivity | reflexivity |].
  pose proof (C6_audio_stream_header host_StringToNumber host_ToString
                (recording_audio host_ToString) _ recording_audio_reachable eq_refl) as H.
  cbv zeta in H.
  destruct H as (blob & this' & Hfin & _ & _ & _ & _ & _ & _ & H252 & _ & _ & H276 & Hint).
  assert (H10 : 0 < 10) by reflexivity.
  assert (Hrate : 0 <= 1 * 8000 < 2 ^ 53) by (split; [discriminate | reflexivity]).
  assert (Hsamples : 0 <= 1 * 8000 * 3 < 2 ^ 53) by (split; [discriminate | reflexivity]).
  destruct (Hint 10 eq_refl H10 Hrate Hsamples) as (_ & _ & H256 & H264).
  exists blob, this'.
  repeat apply conj; [exact Hfin | exact H252 | exact H256 | exact H264 | exact H276].
Defined.

(** Against C7 as stated: with 3 channels at a sample rate of
    4503599761588225 the record holds the double 13510799284764676 and the
    output its low 32 bits, 402653188, where those of the product are
    402653187. *)
Lemma C7_counterexample :
  let this := recording_wide host_ToString in
  let t := mkAudioTrack (mkBlob (repeat x00 4000) "") 3 4503599761588225 in
  reachable host_StringToNumber host_ToString this
  /\ audio this = Some t
  /\ audioSampleRate t * audioNumChannels t = 13510799284764675
  /\ prop (wh t) "dwnAvgBytesPerSec" = int 13510799284764676
  /\ exists blob this',
       finish host_StringToNumber host_ToString this = Ok (blob, this')
       /\ u32_at 304 (blob_bytes blob) = Some 402653188
       /\ (audioSampleRate t * audioNumChannels t) mod 2 ^ 32 = 402653187.
Proof.
  cbv zeta. repeat apply conj.
  - apply reach_addAudio, recording_reachable.
  - reflexivity.
  - reflexivity.
  - vm_compute. reflexivity.
  - eexists. eexists. repeat apply conj; vm_compute; reflexivity.
Qed.

(** C7 as amended, on the recording with audio: one channel at 8000 Hz. *)
Lemma C7_audio_format_witness :
  let t := mkAudioTrack (mkBlob (repeat x00 4000) "") 1 8000 in
  reachable host_StringToNumber host_ToString (recording_audio host_ToString)
  /\ audio (recording_audio host_ToString) = Some t
  /\ exists blob this',
       finish host_StringToNumber host_ToString (recording_audio host_ToString)
       = Ok (blob, this')
       /\ u16_at 296 (blob_bytes blob) = Some 1
       /\ u16_at 298 (blob_bytes blob) = Some 1
       /\ u32_at 300 (blob_bytes blob) = Some 8000
       /\ u32_at 304 (blob_bytes blob) = Some 8000
       /\ u16_at 308 (blob_bytes blob) = Some 2
       /\ u16_at 310 (blob_bytes blob) = Some 16.
Proof.
  cbv zeta. repeat apply conj; [exact recording_audio_reachable | reflexivity |].
  pose proof (C7_audio_format host_StringToNumber host_ToString
                (recording_audio host_ToString) _ recording_audio_reachable eq_refl) as H.
  cbv zeta in H.
  destruct H as (blob & this' & Hfin & _ & _ & _ & _ & _ & _ & _ & _ & _
                 & H296 & H298 & H300 & _ & H308 & H310 & Hint).
  assert (Hb : Z.abs (8000 * 1) <= 2 ^ 53) by discriminate.
  destruct (Hint Hb) as (_ & H304).
  exists blob, this'.
  repeat apply conj;
    [exact Hfin | exact H296 | exact H298 | exact H300 | exact H304 | exact H308
     | exact H310].
Defined.

(** C8 on the recording with audio: a second [finish]. *)
Lemma C8_finish_idempotent_witness :
  reachable host_StringToNumber host_ToString (recording_audio host_ToString)
  /\ exists blob this',
       finish host_StringToNumber host_ToString (recording_audio host_ToString)
       = Ok (blob, this')
       /\ finish host_StringToNumber host_ToString this' = Ok (blob, this').
Proof.
  split; [exact recording_audio_reachable|].
  assert (H : exists blob this',
             finish host_StringToNumber host_ToString (recording_audio host_ToString)
             = Ok (blob, this'))
    by (eexists; eexists; vm_compute; reflexivity).
  destruct H as (blob & this' & Hfin).
  exists blob, this'. split; [exact Hfin|].
  exact (proj1 (C8_finish_idempotent host_StringToNumber host_ToString)
           (recording_audio host_ToString) blob this' recording_audio_reachable Hfin).
Defined.

(** Against C9 as stated: [createAVIStruct()], as the constructor makes
    it, has its field-order list and only recognized tags, and the writer
    raises the host's [TypeError] on its [aData]. *)
Lemma C9_counterexample :
  schema_ok (obj createAVIStruct) = true
  /\ appendStruct host_StringToNumber host_ToString [] (obj createAVIStruct)
     = Throw TypeError.
Proof. split; reflexivity. Qed.

(** C9 as amended, on an index entry. *)
Lemma C9_writer_contract_witness :
  well_formed (IndexEntry "00dc" 4 100) = true
  /\ appendStruct host_StringToNumber host_ToString [VStr "idx1"] (IndexEntry "00dc" 4 100)
     = Ok ([VStr "idx1"] ++ encode (IndexEntry "00dc" 4 100)).
Proof.
  split; [reflexivity|].
  exact (proj1 (C9_writer_contract host_StringToNumber host_ToString)
           [VStr "idx1"] (IndexEntry "00dc" 4 100) eq_refl).
Defined.

(** C10 on the recording: its frames have even lengths. *)
Lemma C10_addFrame_padding_witness :
  reachable host_StringToNumber host_ToString (recording host_ToString)
  /\ String.length "data:image/jpeg;base64," = 23%nat
  /\ slice 23 ("data:image/jpeg;base64," ++ "/9j/")%string = "/9j/"
  /\ Forall (fun blob => Z.even (size blob) = true) (frameList (recording host_ToString))
  /\ videoStreamSize (movieDesc (recording host_ToString)) = 370.
Proof.
  destruct (C10_addFrame_padding host_StringToNumber host_ToString) as (Hslice & _ & Hacc).
  destruct (Hacc (recording host_ToString) recording_reachable) as (He & Hv & _).
  repeat apply conj;
    [exact recording_reachable | reflexivity
     | exact (Hslice "data:image/jpeg;base64," "/9j/" eq_refl) | exact He | exact Hv].
Defined.

(** ** Instances of the further properties *)

Lemma X2_dword_round_trip_witness :
  u32_at 0 (DWORD host_StringToNumber host_ToString (int 4000000000) ++ [])
  = Some 4000000000
  /\ u32_at 0 (DWORD host_StringToNumber host_ToString (int (-1)) ++ [])
     = Some 4294967295.
Proof.
  destruct (X2_dword_round_trip host_StringToNumber host_ToString) as (Hpos & Hneg & _).
  split.
  - apply Hpos. lia.
  - apply (Hneg (-1) []). lia.
Defined.

Lemma X4_scalar_edge_cases_witness :
  get_field (Some ["dwSize"]) [] "dwSize" = VUndefined
  /\ appendStruct host_StringToNumber host_ToString [] (VObj (Some ["dwSize"]) [])
     = Ok [VBuf [x00; x00; x00; x00]]
  /\ appendStruct host_StringToNumber host_ToString [] (VObj (Some ["chFourCC"]) [])
     = Ok [VUndefined]
  /\ appendStruct host_StringToNumber host_ToString [] (VObj (Some ["constructor"]) [])
     = Ok [VNative Object_]
  /\ appendStruct host_StringToNumber host_ToString []
       (VObj (Some ["hasOwnProperty"]) [("dwSize", int 5)])
     = Throw TypeError.
Proof.
  destruct (X4_scalar_edge_cases host_StringToNumber host_ToString)
    as (Hmissing & _ & Hconstructor & Hhas & _).
  repeat apply conj.
  - reflexivity.
  - exact (Hmissing [] [] "dwSize" eq_refl).
  - exact (Hmissing [] [] "chFourCC" eq_refl).
  - exact (Hconstructor [] [] (Forall_nil _)).
  - apply Hhas. constructor; [discriminate | constructor].
Defined.

Lemma X5_unlisted_properties_ignored_witness :
  ~ In "dwFlags" ["dwSize"]
  /\ "dwFlags" <> "_order"
  /\ "dwFlags" <> "__proto__"
  /\ appendStruct host_StringToNumber host_ToString []
       (VObj (Some ["dwSize"]) (set_field [("dwSize", int 5)] "dwFlags" (int 16)))
     = appendStruct host_StringToNumber host_ToString []
         (VObj (Some ["dwSize"]) [("dwSize", int 5)]).
Proof.
  assert (H : ~ In "dwFlags" ["dwSize"]) by (intros [H|[]]; discriminate H).
  assert (Ho : "dwFlags" <> "_order") by discriminate.
  assert (Hp : "dwFlags" <> "__proto__") by discriminate.
  repeat apply conj; [exact H | exact Ho | exact Hp |].
  exact (proj2 (X5_unlisted_properties_ignored host_StringToNumber host_ToString
                  [] ["dwSize"]) [("dwSize", int 5)] "dwFlags" (int 16) H Ho Hp).
Defined.

Lemma X7_index_locates_chunks_witness :
  let this := recording_audio host_ToString in
  reachable host_StringToNumber host_ToString this
  /\ exists blob this',
       let movi_at := 28 + int_prop (headerLIST this') "dwSize" in
       finish host_StringToNumber host_ToString this = Ok (blob, this')
       /\ firstn 4 (skipn (Z.to_nat movi_at) (blob_bytes blob)) = utf8 "movi"
       /\ firstn (Z.to_nat (8 + 150)) (skipn (Z.to_nat (movi_at + 112)) (blob_bytes blob))
          = utf8 "00dc" ++ DWORD host_StringToNumber host_ToString (int 150)
            ++ repeat x00 150
       /\ firstn (Z.to_nat (8 + 4000)) (skipn (Z.to_nat (movi_at + 398)) (blob_bytes blob))
          = utf8 "01wb" ++ DWORD host_StringToNumber host_ToString (int 4000)
            ++ repeat x00 4000.
Proof.
  cbv zeta. split; [exact recording_audio_reachable|].
  pose proof (X7_index_locates_chunks host_StringToNumber host_ToString
                (recording_audio host_ToString) recording_audio_reachable) as H.
  cbv zeta in H. destruct H as (blob & this' & Hfin & Hmovi & Hi & Ha).
  assert (H1 : (1 < List.length (frameList (recording_audio host_ToString)))%nat)
    by (vm_compute; lia).
  exists blob, this'. repeat apply conj.
  - exact Hfin.
  - exact Hmovi.
  - exact (proj2 (Hi 1%nat (mkBlob [] "") H1)).
  - exact (proj2 (Ha _ eq_refl)).
Defined.

Lemma X8_index_table_bytes_witness :
  let this := recording_audio host_ToString in
  reachable host_StringToNumber host_ToString this
  /\ exists blob this',
       let idx1_at := 28 + int_prop (headerLIST this') "dwSize"
                      + int_prop (moviLIST this') "dwSize" in
       finish host_StringToNumber host_ToString this = Ok (blob, this')
       /\ firstn 4 (skipn (Z.to_nat idx1_at) (blob_bytes blob)) = utf8 "idx1"
       /\ u32_at 8 (firstn 16 (skipn (Z.to_nat (idx1_at + 8 + 16 * Z.of_nat 2))
                                 (blob_bytes blob)))
          = Some 270
       /\ u32_at 12 (firstn 16 (skipn (Z.to_nat (idx1_at + 8 + 16 * Z.of_nat 3))
                                  (blob_bytes blob)))
          = Some 4000
       /\ Z.of_nat (List.length (blob_bytes blob)) = idx1_at + 8 + 16 * 4.
Proof.
  cbv zeta. split; [exact recording_audio_reachable|].
  pose proof (X8_index_table_bytes host_StringToNumber host_ToString
                (recording_audio host_ToString) recording_audio_reachable) as H.
  cbv zeta in H. destruct H as (blob & this' & Hfin & Hidx & Hi & Ha & Hlen).
  assert (H2 : (2 < List.length (frameList (recording_audio host_ToString)))%nat)
    by (vm_compute; lia).
  exists blob, this'. repeat apply conj.
  - exact Hfin.
  - exact Hidx.
  - exact (proj1 (proj2 (proj2 (Hi 2%nat (mkBlob [] "") H2)))).
  - exact (proj2 (proj2 (proj2 (Ha _ eq_refl)))).
  - exact Hlen.
Defined.

Lemma X9_output_size_witness :
  reachable host_StringToNumber host_ToString (recording_audio host_ToString)
  /\ exists blob this',
       finish host_StringToNumber host_ToString (recording_audio host_ToString)
       = Ok (blob, this')
       /\ size blob = 4800.
Proof.
  split; [exact recording_audio_reachable|].
  exact (X9_output_size host_StringToNumber host_ToString
           (recording_audio host_ToString) recording_audio_reachable).
Defined.

Lemma X10_frame_timing_witness :
  reachable host_StringToNumber host_ToString (recording host_ToString)
  /\ fps (movieDesc (recording host_ToString)) = inject_Z 10
  /\ 0 < 10
  /\ exists blob this',
       finish host_StringToNumber host_ToString (recording host_ToString) = Ok (blob, this')
       /\ u32_at 32 (blob_bytes blob) = Some 100000
       /\ u32_at 128 (blob_bytes blob) = Some 100000
       /\ u32_at 132 (blob_bytes blob) = Some 1000000.
Proof.
  assert (Hf : 0 < 10) by reflexivity.
  repeat apply conj; [exact recording_reachable | reflexivity | exact Hf |].
  destruct (X10_frame_timing host_StringToNumber host_ToString
              (recording host_ToString) 10 recording_reachable eq_refl Hf)
    as (blob & this' & Hfin & H32 & H128 & H132 & _).
  exists blob, this'. repeat apply conj.
  - exact Hfin.
  - exact H32.
  - exact H128.
  - exact H132.
Defined.

Lemma X11_video_format_witness :
  reachable host_StringToNumber host_ToString (recording host_ToString)
  /\ exists blob this',
       finish host_StringToNumber host_ToString (recording host_ToString) = Ok (blob, this')
       /\ firstn 4 (skipn 108 (blob_bytes blob)) = utf8 "vids"
       /\ u32_at 176 (blob_bytes blob) = Some 320
       /\ u32_at 180 (blob_bytes blob) = Some 240
       /\ u32_at 192 (blob_bytes blob) = Some 230400.
Proof.
  split; [exact recording_reachable|].
  pose proof (X11_video_format host_StringToNumber host_ToString
                (recording host_ToString) recording_reachable) as H.
  cbv zeta in H.
  destruct H as (blob & this' & Hfin & Hvids & _ & _ & _ & _ & _ & _ & Hw & Hh & _ & _ & _
                 & _ & Hsz & _).
  assert (Hb : Z.abs (3 * 320 * 240) <= 2 ^ 53) by discriminate.
  exists blob, this'. repeat apply conj.
  - exact Hfin.
  - exact Hvids.
  - exact Hw.
  - exact Hh.
  - exact (Hsz Hb).
Defined.

Lemma X12_word_alignment_witness :
  reachable host_StringToNumber host_ToString (recording_audio host_ToString)
  /\ exists blob this',
       finish host_StringToNumber host_ToString (recording_audio host_ToString)
       = Ok (blob, this')
       /\ Z.even (size blob) = true.
Proof.
  split; [exact recording_audio_reachable|].
  pose proof (X12_word_alignment host_StringToNumber host_ToString
                (recording_audio host_ToString) recording_audio_reachable) as H.
  cbv zeta in H. destruct H as (blob & this' & Hfin & _ & _ & Hsize).
  exists blob, this'. split; [exact Hfin | exact Hsize].
Defined.

Lemma X13_addFrame_without_payload_witness :
  let this := recording host_ToString in
  reachable host_StringToNumber host_ToString this
  /\ (String.length "data:image/jpeg;base64," <= 23)%nat
  /\ addFrame host_ToString "data:image/jpeg;base64," this
     = Ok {| movieDesc := movieDesc this;
             avi := avi this;
             headerLIST := headerLIST this;
             moviLIST := moviLIST this;
             frameList := frameList this ++ [mkBlob [] "image/jpeg"];
             audio := audio this |}.
Proof.
  cbv zeta.
  assert (Hu : (String.length "data:image/jpeg;base64," <= 23)%nat) by (cbn; lia).
  split; [exact recording_reachable|]. split; [exact Hu|].
  exact (X13_addFrame_without_payload host_StringToNumber host_ToString
           "data:image/jpeg;base64," (recording host_ToString) recording_reachable Hu).
Defined.

Lemma X14_max_frame_size_witness :
  reachable host_StringToNumber host_ToString (recording host_ToString)
  /\ Forall (fun blob => size blob <= 150) (frameList (recording host_ToString))
  /\ 150 <= videoStreamSize (movieDesc (recording host_ToString)) <= 3 * 150.
Proof.
  split; [exact recording_reachable|].
  pose proof (X14_max_frame_size host_StringToNumber host_ToString
                (recording host_ToString) recording_reachable) as H.
  cbv zeta in H. destruct H as (Hall & _ & _ & Hsum).
  split; [exact Hall | exact Hsum].
Defined.

Lemma X16_select_format_witness :
  let isTypeSupported := String.eqb "video/webm;codecs=vp8,opus" in
  select_format (TypedMediaRecorder isTypeSupported) true
  = ("webm", "video/webm;codecs=vp8,opus")
  /\ isTypeSupported (snd (select_format (TypedMediaRecorder isTypeSupported) true)) = true.
Proof.
  cbv zeta.
  destruct (proj1 (X16_select_format true) (String.eqb "video/webm;codecs=vp8,opus"))
    as (Hc & Hm & Hs).
  split.
  - rewrite (surjective_pairing (select_format _ true)), Hc, Hm. reflexivity.
  - destruct Hs as [He|Hs]; [|exact Hs]. rewrite Hm in He. discriminate He.
Defined.

Lemma X17_recorded_chunks_witness :
  let this := new_CamRecorder PlainMediaRecorder false 320 240 10 in
  let datas := [Some (mkBlob [x01; x02] "video/mp4"); None;
                Some (mkBlob [] "video/mp4"); Some (mkBlob [x03] "video/mp4")] in
  _hasMediaRecorder this = true
  /\ _blob (onstop host_ToString
              (fold_left (fun s d => ondataavailable d s) datas (start this)))
     = Some (mkBlob [x01; x02; x03] "video/mp4").
Proof.
  cbv zeta. split; [reflexivity|].
  exact (proj1 (X17_recorded_chunks host_ToString
                  (new_CamRecorder PlainMediaRecorder false 320 240 10)
                  [Some (mkBlob [x01; x02] "video/mp4"); None;
                   Some (mkBlob [] "video/mp4"); Some (mkBlob [x03] "video/mp4")]
                  eq_refl)).
Defined.

Lemma X18_canvas_recording_witness :
  let urls := [data_url 100; data_url 150] in
  let data := (mkBlob (repeat x00 4000) "", 1, 8000) in
  Forall (fun u => exists frame, atob (slice 23 u) = Ok frame) urls
  /\ exists this' blob,
       stop_canvas host_StringToNumber host_ToString data
         (fold_left (fun s u => capture u s) urls
            (start (new_CamRecorder NoMediaRecorder true 320 240 10)))
       = Ok this'
       /\ _blob this' = Some blob
       /\ blob_type blob = "video/avi"
       /\ u32_at 48 (blob_bytes blob) = Some 2
       /\ u32_at 16 (blob_bytes blob) = Some 294
       /\ u32_at 64 (blob_bytes blob) = Some 320
       /\ u32_at 68 (blob_bytes blob) = Some 240
       /\ file_name None this' = "recording.avi".
Proof.
  cbv zeta.
  assert (Hurls : Forall (fun u => exists frame, atob (slice 23 u) = Ok frame)
                    [data_url 100; data_url 150])
    by (repeat constructor; eexists; vm_compute; reflexivity).
  split; [exact Hurls|].
  pose proof (X18_canvas_recording host_StringToNumber host_ToString true 320 240 10
                [data_url 100; data_url 150] (mkBlob (repeat x00 4000) "", 1, 8000) Hurls)
    as H.
  cbv zeta in H.
  destruct H as (this' & blob & Hstop & Hblob & Htype & _ & Hn & Hl & Hw & Hh & Hname).
  exists this', blob. repeat apply conj.
  - exact Hstop.
  - exact Hblob.
  - exact Htype.
  - exact Hn.
  - exact Hl.
  - exact Hw.
  - exact Hh.
  - exact Hname.
Defined.

Lemma X19_canvas_recording_fails_witness :
  let urls := [data_url 100; "data:image/jpeg;base64,/9j/4AAQ!"; data_url 150] in
  Exists (fun u => forall frame, atob (slice 23 u) <> Ok frame) urls
  /\ stop_canvas host_StringToNumber host_ToString (mkBlob [] "", 1, 8000)
       (fold_left (fun s u => capture u s) urls
          (start (new_CamRecorder NoMediaRecorder false 320 240 10)))
     = Throw InvalidCharacterError.
Proof.
  cbv zeta.
  assert (Hurls : Exists (fun u => forall frame, atob (slice 23 u) <> Ok frame)
                    [data_url 100; "data:image/jpeg;base64,/9j/4AAQ!"; data_url 150])
    by (apply Exists_cons_tl, Exists_cons_hd; intros frame; vm_compute; discriminate).
  split; [exact Hurls|].
  exact (proj2 (X19_canvas_recording_fails host_StringToNumber host_ToString
                  false 320 240 10 (mkBlob [] "", 1, 8000)) _ Hurls).
Defined.
